(** * Indexing, caching and lazy-loading engine of bypass-paywall-chrome

    A shallow embedding of the five classes that make up the engine
    ([RegexCache], [SiteIndexes], [HeaderRuleEngine], [ChunkLoader],
    [UsageLearner]) and the properties their specification states.

    JavaScript objects become records, [Map]s keyed by strings become
    [gmap string _] (or an insertion-ordered association list where the code
    relies on the order of insertion), [Set]s become [gset string], and every
    method becomes a function from the state before the call to the result
    and the state after it. *)

From Stdlib Require Import Ascii String QArith.
From stdpp Require Import base option list strings gmap.

Open Scope string_scope.
Open Scope list_scope.

#[global] Set Warnings "-clear-no-such-hyp".

(** ** JavaScript values used by the engine *)

(** [if (s)] on a property holding a string or [undefined]. *)
Definition truthy (s : option string) : bool :=
  match s with
  | Some s => negb (String.eqb s "")
  | None => false
  end.

Definition lower_ascii (c : ascii) : ascii :=
  let n := nat_of_ascii c in
  if (65 <=? n)%nat && (n <=? 90)%nat then ascii_of_nat (n + 32) else c.

(** [String.prototype.toLowerCase] on the ASCII strings header names are. *)
Fixpoint toLowerCase (s : string) : string :=
  match s with
  | EmptyString => EmptyString
  | String c s' => String (lower_ascii c) (toLowerCase s')
  end.

(** [String.prototype.startsWith]. *)
Definition startsWith (s p : string) : bool := String.prefix p s.

(** ** A JavaScript [Map] with string keys, in insertion order

    [set] on a key that is present keeps the position of the key; on an
    absent key it appends.  [delete] removes the entry; [keys().next().value]
    is the oldest key still present. *)
Module JsMap.

Definition t (V : Type) : Type := list (string * V).

Definition empty {V} : t V := [].

Fixpoint get {V} (k : string) (m : t V) : option V :=
  match m with
  | [] => None
  | (k', v) :: m' => if String.eqb k' k then Some v else get k m'
  end.

Definition has {V} (k : string) (m : t V) : bool :=
  match get k m with Some _ => true | None => false end.

Fixpoint set {V} (k : string) (v : V) (m : t V) : t V :=
  match m with
  | [] => [(k, v)]
  | (k', v') :: m' =>
      if String.eqb k' k then (k', v) :: m' else (k', v') :: set k v m'
  end.

Fixpoint delete {V} (k : string) (m : t V) : t V :=
  match m with
  | [] => []
  | (k', v') :: m' =>
      if String.eqb k' k then delete k m' else (k', v') :: delete k m'
  end.

Definition keys {V} (m : t V) : list string := m.*1.

Definition first_key {V} (m : t V) : option string := head (keys m).

Definition size {V} (m : t V) : nat := length m.

End JsMap.

(** ** The built-in [RegExp]

    A regular expression object is identified by its [source] and [flags].
    The constructor and the matcher are the host's: [regexp_new s] is
    [new RegExp(s)], [None] when it throws a [SyntaxError]; [regexp_exec r u]
    is [r.test(u)] for an expression without the stateful [g] and [y]
    flags. *)
Record RegExp : Type := mkRegExp { source : string; flags : string }.

Class RegExpBuiltin : Type := {
  regexp_new : string -> option RegExp;
  regexp_exec : RegExp -> string -> bool
}.

(** What callers pass as a pattern: nothing ([null], [undefined]), a pattern
    string, or a [RegExp]. *)
Inductive Pattern : Type :=
| PNull
| PString (s : string)
| PRegExp (r : RegExp).

(** ** RegexCache (src/lib/user-settings.js) *)
Module RegexCache.

Record t : Type := mk {
  cache : gmap string RegExp;          (* pattern -> compiled RegExp *)
  matchResults : JsMap.t bool;         (* pattern+url -> boolean *)
  maxCacheSize : nat
}.

(** [new RegexCache(maxCacheSize)]; the global instance uses 1000. *)
Definition new (maxCacheSize : nat) : t :=
  {| cache := ∅; matchResults := JsMap.empty; maxCacheSize := maxCacheSize |}.

Definition default : t := new 1000.

Definition with_cache (c : t) (m : gmap string RegExp) : t :=
  {| cache := m; matchResults := matchResults c; maxCacheSize := maxCacheSize c |}.

Definition with_matchResults (c : t) (m : JsMap.t bool) : t :=
  {| cache := cache c; matchResults := m; maxCacheSize := maxCacheSize c |}.

Definition cacheKey (compiled : RegExp) (url : string) : string :=
  source compiled +:+ "::" +:+ url.

Section WithBuiltin.
Context {B : RegExpBuiltin}.

Definition compile (pattern : Pattern) (c : t) : option RegExp * t :=
  match pattern with
  | PNull => (None, c)
  | PRegExp r =>
      let key := source r +:+ flags r in
      let c' := match cache c !! key with
                | Some _ => c
                | None => with_cache c (<[key := r]> (cache c))
                end in
      (cache c' !! key, c')
  | PString s =>
      if String.eqb s "" then (None, c)
      else match cache c !! s with
           | Some r => (Some r, c)
           | None =>
               match regexp_new s with
               | Some r => (Some r, with_cache c (<[s := r]> (cache c)))
               | None => (None, c)
               end
           end
  end.

(** The eviction step of [test]: drop the oldest key when the result map
    has reached the bound. *)
Definition evict (c : t) : JsMap.t bool :=
  if (maxCacheSize c <=? JsMap.size (matchResults c))%nat then
    match JsMap.first_key (matchResults c) with
    | Some firstKey => JsMap.delete firstKey (matchResults c)
    | None => matchResults c
    end
  else matchResults c.

(** [test]. The hit and miss counters of [perfMonitor] are not part of the
    cache and are left out.  Line 311, [compiled.test(url)], is
    [regexp_exec]: the answer for an expression without the [g] and the [y]
    flag; with one of them the answer depends also on the [lastIndex] the
    object carries, which is not modelled. *)
Definition test (pattern : Pattern) (url : string) (c : t) : bool * t :=
  match compile pattern c with
  | (None, c1) => (false, c1)
  | (Some compiled, c1) =>
      let key := cacheKey compiled url in
      match JsMap.get key (matchResults c1) with
      | Some cached => (cached, c1)
      | None =>
          let result := regexp_exec compiled url in
          (result, with_matchResults c1 (JsMap.set key result (evict c1)))
      end
  end.

Definition clearMatchCache (c : t) : t := with_matchResults c JsMap.empty.

Definition clearAll (c : t) : t :=
  with_matchResults (with_cache c ∅) JsMap.empty.

(** The key a call to [test] inserts into the result map, if it inserts
    one (a miss on a pattern that compiles). *)
Definition inserted (pattern : Pattern) (url : string) (c : t) : option string :=
  match compile pattern c with
  | (None, _) => None
  | (Some compiled, c1) =>
      match JsMap.get (cacheKey compiled url) (matchResults c1) with
      | Some _ => None
      | None => Some (cacheKey compiled url)
      end
  end.

(** The state after a sequence of [test] calls, and the keys the sequence
    inserts into the result map, in order. *)
Fixpoint run (calls : list (Pattern * string)) (c : t) : t :=
  match calls with
  | [] => c
  | (p, u) :: rest => run rest (test p u c).2
  end.

Fixpoint insertions (calls : list (Pattern * string)) (c : t) : list string :=
  match calls with
  | [] => []
  | (p, u) :: rest =>
      match inserted p u c with
      | Some k => k :: insertions rest (test p u c).2
      | None => insertions rest (test p u c).2
      end
  end.

End WithBuiltin.

End RegexCache.

(** ** Site configurations (the catalog) *)

(** [config.useragent]: a bot tag or literal string, or an override object. *)
Inductive UserAgent : Type :=
| UAString (s : string)
| UAObject (o : string).

Definition ua_truthy (u : option UserAgent) : bool :=
  match u with
  | Some (UAString s) => negb (String.eqb s "")
  | Some (UAObject _) => true
  | None => false
  end.

Definition pattern_truthy (p : Pattern) : bool :=
  match p with
  | PNull => false
  | PString s => negb (String.eqb s "")
  | PRegExp _ => true
  end.

Record Config : Type := mkConfig {
  domain : option string;
  group : option (list string);
  useragent : option UserAgent;
  referer : option string;
  random_ip : option string;
  allow_cookies : bool;
  remove_cookies : bool;
  remove_cookies_select_hold : option (list string);
  remove_cookies_select_drop : option (list string);
  block_regex : Pattern
}.

(** [Object.entries(siteConfigs)]: site name and configuration, in the
    order the object enumerates them. *)
Definition Catalog : Type := list (string * Config).

(** ** SiteIndexes (src/unnamed/part_004) *)
Module SiteIndexes.

Inductive CookieType : Type := allow | remove.

(** The objects stored in [cookieRules]: [{ type, selectHold, selectDrop }],
    each property optional. *)
Record CookieRule : Type := mkCookieRule {
  type : option CookieType;
  selectHold : option (list string);
  selectDrop : option (list string)
}.

Definition emptyRule : CookieRule :=
  {| type := None; selectHold := None; selectDrop := None |}.

Record t : Type := mk {
  domainMap : gmap string Config;           (* domain -> config *)
  groupMap : gmap string string;            (* domain -> group name *)
  groupConfigs : gmap string Config;        (* group name -> shared config *)
  botUserAgents : gmap string UserAgent;
  cookieRules : gmap string CookieRule;
  blockRules : gmap string (list RegExp);   (* domain -> compiled regex array *)
  totalSites : nat;
  indexedDomains : gset string
}.

Definition new : t :=
  {| domainMap := ∅; groupMap := ∅; groupConfigs := ∅; botUserAgents := ∅;
     cookieRules := ∅; blockRules := ∅; totalSites := 0; indexedDomains := ∅ |}.

(** The index and the global [regexCache] it compiles with. *)
Definition State : Type := t * RegexCache.t.

Section WithBuiltin.
Context {B : RegExpBuiltin}.

Definition setUserAgent (config : Config) (d : string) (s : t) : t :=
  match useragent config with
  | Some ua =>
      if ua_truthy (useragent config) then
        {| domainMap := domainMap s; groupMap := groupMap s;
           groupConfigs := groupConfigs s;
           botUserAgents := <[d := ua]> (botUserAgents s);
           cookieRules := cookieRules s; blockRules := blockRules s;
           totalSites := totalSites s; indexedDomains := indexedDomains s |}
      else s
  | None => s
  end.

Definition withCookieRules (s : t) (m : gmap string CookieRule) : t :=
  {| domainMap := domainMap s; groupMap := groupMap s;
     groupConfigs := groupConfigs s; botUserAgents := botUserAgents s;
     cookieRules := m; blockRules := blockRules s;
     totalSites := totalSites s; indexedDomains := indexedDomains s |}.

Definition setCookieType (config : Config) (d : string)
    (m : gmap string CookieRule) : gmap string CookieRule :=
  if allow_cookies config then
    <[d := {| type := Some allow; selectHold := None; selectDrop := None |}]> m
  else if remove_cookies config then
    <[d := {| type := Some remove; selectHold := None; selectDrop := None |}]> m
  else m.

Definition setSelectHold (config : Config) (d : string)
    (m : gmap string CookieRule) : gmap string CookieRule :=
  match remove_cookies_select_hold config with
  | Some names =>
      let existing := default emptyRule (m !! d) in
      <[d := {| type := type existing; selectHold := Some names;
                selectDrop := selectDrop existing |}]> m
  | None => m
  end.

Definition setSelectDrop (config : Config) (d : string)
    (m : gmap string CookieRule) : gmap string CookieRule :=
  match remove_cookies_select_drop config with
  | Some names =>
      let existing := default emptyRule (m !! d) in
      <[d := {| type := type existing; selectHold := selectHold existing;
                selectDrop := Some names |}]> m
  | None => m
  end.

Definition setCookieRules (config : Config) (d : string) (s : t) : t :=
  withCookieRules s
    (setSelectDrop config d
       (setSelectHold config d (setCookieType config d (cookieRules s)))).

Definition pushBlockRule (d : string) (compiled : RegExp) (s : t) : t :=
  let existing := default [] (blockRules s !! d) in
  {| domainMap := domainMap s; groupMap := groupMap s;
     groupConfigs := groupConfigs s; botUserAgents := botUserAgents s;
     cookieRules := cookieRules s;
     blockRules := <[d := existing ++ [compiled]]> (blockRules s);
     totalSites := totalSites s; indexedDomains := indexedDomains s |}.

Definition setBlockRule (config : Config) (d : string) (st : State) : State :=
  if pattern_truthy (block_regex config) then
    match RegexCache.compile (block_regex config) st.2 with
    | (Some compiled, rc) => (pushBlockRule d compiled st.1, rc)
    | (None, rc) => (st.1, rc)
    end
  else st.

(** The body of the loop of [indexFeatures], for one domain. *)
Definition indexDomain (config : Config) (d : string) (st : State) : State :=
  setBlockRule config d
    (setCookieRules config d (setUserAgent config d st.1), st.2).

Definition indexFeatures (config : Config) (st : State) : State :=
  if negb (truthy (domain config)) then st
  else
    let domains := match group config with
                   | Some g => g
                   | None => [default "" (domain config)]
                   end in
    foldl (fun st d => indexDomain config d st) st domains.

Definition registerGroupDomain (siteName : string) (s : t) (d : string) : t :=
  {| domainMap := domainMap s;
     groupMap := <[d := siteName]> (groupMap s);
     groupConfigs := groupConfigs s; botUserAgents := botUserAgents s;
     cookieRules := cookieRules s; blockRules := blockRules s;
     totalSites := totalSites s;
     indexedDomains := {[d]} ∪ indexedDomains s |}.

Definition registerGroup (siteName : string) (config : Config)
    (g : list string) (s : t) : t :=
  let s1 := foldl (registerGroupDomain siteName) s g in
  {| domainMap := domainMap s1; groupMap := groupMap s1;
     groupConfigs := <[siteName := config]> (groupConfigs s1);
     botUserAgents := botUserAgents s1;
     cookieRules := cookieRules s1; blockRules := blockRules s1;
     totalSites := totalSites s1 + length g;
     indexedDomains := indexedDomains s1 |}.

Definition registerDomain (config : Config) (d : string) (s : t) : t :=
  {| domainMap := <[d := config]> (domainMap s);
     groupMap := groupMap s;
     groupConfigs := groupConfigs s; botUserAgents := botUserAgents s;
     cookieRules := cookieRules s; blockRules := blockRules s;
     totalSites := totalSites s + 1;
     indexedDomains := {[d]} ∪ indexedDomains s |}.

(** Metadata entries: [config.domain && config.domain.startsWith('#')]. *)
Definition isMetadata (config : Config) : bool :=
  match domain config with
  | Some d => truthy (Some d) && startsWith d "#"
  | None => false
  end.

(** The registration step of the loop of [buildIndexes]. *)
Definition register (siteName : string) (config : Config) (s : t) : t :=
  match group config with
  | Some g => registerGroup siteName config g s
  | None =>
      match domain config with
      | Some d => if truthy (Some d) then registerDomain config d s else s
      | None => s
      end
  end.

Definition buildEntry (st : State) (entry : string * Config) : State :=
  let '(siteName, config) := entry in
  if isMetadata config then st
  else indexFeatures config (register siteName config st.1, st.2).

Definition buildIndexes (siteConfigs : Catalog) (st : State) : State :=
  foldl buildEntry st siteConfigs.

Definition getSiteConfig (d : string) (s : t) : option Config :=
  match domainMap s !! d with
  | Some config => Some config
  | None =>
      match groupMap s !! d with
      | Some groupName => groupConfigs s !! groupName
      | None => None
      end
  end.

Definition hasDomain (d : string) (s : t) : bool :=
  bool_decide (d ∈ indexedDomains s).

Definition getUserAgent (d : string) (s : t) : option UserAgent :=
  botUserAgents s !! d.

Definition getCookieRules (d : string) (s : t) : option CookieRule :=
  cookieRules s !! d.

Definition getBlockRules (d : string) (s : t) : list RegExp :=
  default [] (blockRules s !! d).

(** The loop of [shouldBlockRequest] over the domain's rules. *)
Fixpoint anyMatch (rules : list RegExp) (url : string) (rc : RegexCache.t)
    : bool * RegexCache.t :=
  match rules with
  | [] => (false, rc)
  | pattern :: rest =>
      let '(hit, rc') := RegexCache.test (PRegExp pattern) url rc in
      if hit then (true, rc') else anyMatch rest url rc'
  end.

Definition shouldBlockRequest (d url : string) (st : State)
    : bool * RegexCache.t :=
  match getBlockRules d st.1 with
  | [] => (false, st.2)
  | rules => anyMatch rules url st.2
  end.

End WithBuiltin.

(** [getStats]: [totalSites] and the sizes of the six tables. *)
Module Stats.
Record t : Type := mk {
  totalSites : nat;
  directDomains : nat;
  groupedDomains : nat;
  groups : nat;
  botUserAgents : nat;
  cookieRules : nat;
  blockRules : nat
}.
End Stats.

Definition getStats (s : t) : Stats.t :=
  {| Stats.totalSites := totalSites s;
     Stats.directDomains := size (domainMap s);
     Stats.groupedDomains := size (groupMap s);
     Stats.groups := size (groupConfigs s);
     Stats.botUserAgents := size (botUserAgents s);
     Stats.cookieRules := size (cookieRules s);
     Stats.blockRules := size (blockRules s) |}.

(** [clear]: every table is emptied and the counter is set to 0. *)
Definition clear (s : t) : t :=
  {| domainMap := ∅; groupMap := ∅; groupConfigs := ∅; botUserAgents := ∅;
     cookieRules := ∅; blockRules := ∅; totalSites := 0; indexedDomains := ∅ |}.

End SiteIndexes.

(** ** HeaderRuleEngine (src/unnamed/part_002) *)
Module HeaderRuleEngine.

Inductive Value : Type :=
| VString (s : string)
| VObject (o : string)
| VUndefined.

Record Header : Type := mkHeader { name : string; value : Value }.

(** A pre-computed rule object: each property is set by [buildRules] only
    when the site configuration carries the feature. *)
Record Rule : Type := mkRule {
  userAgent : option UserAgent;
  referer : option string;
  randomIP : option (list string)
}.

Definition uaValue (u : UserAgent) : Value :=
  match u with
  | UAString s => VString s
  | UAObject o => VObject o
  end.

Definition hasPool (rule : Rule) : bool :=
  match randomIP rule with Some _ => true | None => false end.

(** The callback of [modified.filter]. *)
Definition keep (rule : Rule) (header : Header) : bool :=
  let name := toLowerCase (name header) in
  if ua_truthy (userAgent rule) && String.eqb name "user-agent" then false
  else if truthy (referer rule) && String.eqb name "referer" then false
  else if hasPool rule && String.eqb name "x-forwarded-for" then false
  else true.

Definition pushUserAgent (rule : Rule) (modified : list Header) : list Header :=
  match userAgent rule with
  | Some ua =>
      if ua_truthy (userAgent rule)
      then modified ++ [{| name := "User-Agent"; value := uaValue ua |}]
      else modified
  | None => modified
  end.

Definition pushReferer (rule : Rule) (modified : list Header) : list Header :=
  match referer rule with
  | Some r =>
      if truthy (referer rule)
      then modified ++ [{| name := "Referer"; value := VString r |}]
      else modified
  | None => modified
  end.

(** [rule.randomIP[Date.now() % rule.randomIP.length]], [now] being the
    milliseconds [Date.now()] returns; on an empty pool the index is [NaN]
    and the read gives [undefined]. *)
Definition pickIP (pool : list string) (now : N) : Value :=
  match pool with
  | [] => VUndefined
  | _ =>
      match pool !! N.to_nat (now mod N.of_nat (length pool)) with
      | Some ip => VString ip
      | None => VUndefined
      end
  end.

Definition pushForwardedFor (rule : Rule) (now : N) (modified : list Header)
    : list Header :=
  match randomIP rule with
  | Some pool =>
      modified ++ [{| name := "X-Forwarded-For"; value := pickIP pool now |}]
  | None => modified
  end.

(** The statements of [applyHeaders] as they would run with one
    declaration of [modified]; [now] is [Date.now()]. *)
Definition applyHeadersStatements (rules : gmap string Rule) (now : N)
    (domain : string) (headers : list Header) : list Header :=
  match rules !! domain with
  | None => headers
  | Some rule =>
      pushForwardedFor rule now
        (pushReferer rule (pushUserAgent rule (List.filter (keep rule) headers)))
  end.

(** How a call completes. *)
Inductive Exception : Type :=
| SyntaxError (redeclared : string)
| TypeError.

Inductive Completion (A : Type) : Type :=
| Returned (a : A)
| Thrown (e : Exception).
Arguments Returned {A} a.
Arguments Thrown {A} e.

(** The names [applyHeaders] declares with [let] directly in its body, in
    source order (lines 74, 77 and 78). *)
Definition lexicallyDeclaredNames : list string := ["rule"; "modified"; "modified"].

(** The early error of a block: a name declared twice with [let]. *)
Fixpoint redeclaration (names : list string) : option string :=
  match names with
  | [] => None
  | n :: rest =>
      if existsb (String.eqb n) rest then Some n else redeclaration rest
  end.

Definition applyHeaders (rules : gmap string Rule) (now : N)
    (domain : string) (headers : list Header) : Completion (list Header) :=
  match redeclaration lexicallyDeclaredNames with
  | Some n => Thrown (SyntaxError n)
  | None => Returned (applyHeadersStatements rules now domain headers)
  end.

End HeaderRuleEngine.

(** ** UsageLearner (src/lib/usage-learner.js) *)
Module UsageLearner.

(** [ext_api.storage.local], restricted to the two keys the learner
    writes. *)
Record Storage : Type := mkStorage {
  usageData : option (gmap string nat);
  storedPromotedSites : option (gset string)
}.

Record t : Type := mk {
  visitCounts : gmap string nat;
  promotionThreshold : nat;
  promotedSites : gset string;
  enabled : bool;
  storage : Storage;
  (* whether each coming write to the storage succeeds, next one first;
     a write after the list is used up succeeds *)
  writes : list bool
}.

(** [new UsageLearner(promotionThreshold)] beside an empty storage. *)
Definition new (promotionThreshold : nat) (writes : list bool) : t :=
  {| visitCounts := ∅; promotionThreshold := promotionThreshold;
     promotedSites := ∅; enabled := true;
     storage := {| usageData := None; storedPromotedSites := None |};
     writes := writes |}.

(** One [await ext_api.storage.local.set(...)] inside [try]/[catch]: the
    write happens or throws, and a throw is only logged. *)
Definition storageSet (update : Storage -> Storage) (u : t) : t :=
  {| visitCounts := visitCounts u; promotionThreshold := promotionThreshold u;
     promotedSites := promotedSites u; enabled := enabled u;
     storage := if hd true (writes u) then update (storage u) else storage u;
     writes := tl (writes u) |}.

Definition promoteToCore (d : string) (u : t) : t :=
  let u1 :=
    {| visitCounts := visitCounts u; promotionThreshold := promotionThreshold u;
       promotedSites := {[d]} ∪ promotedSites u; enabled := enabled u;
       storage := storage u; writes := writes u |} in
  storageSet (fun st => {| usageData := usageData st;
                           storedPromotedSites := Some (promotedSites u1) |}) u1.

Definition persist (u : t) : t :=
  storageSet (fun _ => {| usageData := Some (visitCounts u);
                          storedPromotedSites := Some (promotedSites u) |}) u.

Definition getVisitCount (d : string) (u : t) : nat :=
  default 0 (visitCounts u !! d).

Definition isPromoted (d : string) (u : t) : bool :=
  bool_decide (d ∈ promotedSites u).

Definition trackVisit (d : string) (u : t) : t :=
  if negb (enabled u) then u
  else
    let count := default 0 (visitCounts u !! d) + 1 in
    let u1 :=
      {| visitCounts := <[d := count]> (visitCounts u);
         promotionThreshold := promotionThreshold u;
         promotedSites := promotedSites u; enabled := enabled u;
         storage := storage u; writes := writes u |} in
    let u2 :=
      if (promotionThreshold u1 <=? count)%nat && negb (isPromoted d u1)
      then promoteToCore d u1 else u1 in
    if (count mod 10 =? 0)%nat then persist u2 else u2.

Definition setEnabled (b : bool) (u : t) : t :=
  {| visitCounts := visitCounts u; promotionThreshold := promotionThreshold u;
     promotedSites := promotedSites u; enabled := b;
     storage := storage u; writes := writes u |}.

(** [reset]: both collections are cleared; the removal from the storage
    may fail like a write. *)
Definition reset (u : t) : t :=
  storageSet (fun _ => {| usageData := None; storedPromotedSites := None |})
    {| visitCounts := ∅; promotionThreshold := promotionThreshold u;
       promotedSites := ∅; enabled := enabled u;
       storage := storage u; writes := writes u |}.

(** The calls a client makes between two resets. *)
Inductive Call : Type :=
| TrackVisit (d : string)
| SetEnabled (b : bool).

Definition call (u : t) (c : Call) : t :=
  match c with
  | TrackVisit d => trackVisit d u
  | SetEnabled b => setEnabled b u
  end.

Definition calls (cs : list Call) (u : t) : t := foldl call u cs.

(** [new UsageLearner(promotionThreshold)] beside the storage an earlier
    session left. *)
Definition reopen (promotionThreshold : nat) (store : Storage)
    (writes : list bool) : t :=
  {| visitCounts := ∅; promotionThreshold := promotionThreshold;
     promotedSites := ∅; enabled := true; storage := store; writes := writes |}.

(** [init]: each collection is replaced by what the storage holds for it,
    if it holds anything; [readOk] is whether [storage.local.get] returns, a
    read that throws is logged and changes nothing. *)
Definition init (readOk : bool) (u : t) : t :=
  if readOk then
    {| visitCounts := default (visitCounts u) (usageData (storage u));
       promotionThreshold := promotionThreshold u;
       promotedSites := default (promotedSites u) (storedPromotedSites (storage u));
       enabled := enabled u; storage := storage u; writes := writes u |}
  else u.

(** [getStats].  [avgVisitsPerSite] is the number [0] when nothing is
    tracked, and otherwise the string [(totalVisits / size).toFixed(2)],
    kept here as the two numbers it is computed from. *)
Inductive Average : Type :=
| Zero
| Fixed2 (total sites : nat).

Module Stats.
Record t : Type := mk {
  trackedSites : nat;
  promotedSites : nat;
  totalVisits : nat;
  avgVisitsPerSite : Average;
  promotionThreshold : nat
}.
End Stats.

(** [Array.from(this.visitCounts.values()).reduce((a, b) => a + b, 0)]. *)
Definition totalVisits (u : t) : nat :=
  foldl Nat.add 0 (map_to_list (visitCounts u)).*2.

Definition getStats (u : t) : Stats.t :=
  {| Stats.trackedSites := size (visitCounts u);
     Stats.promotedSites := size (promotedSites u);
     Stats.totalVisits := totalVisits u;
     Stats.avgVisitsPerSite :=
       if (0 <? size (visitCounts u))%nat
       then Fixed2 (totalVisits u) (size (visitCounts u)) else Zero;
     Stats.promotionThreshold := promotionThreshold u |}.

End UsageLearner.

(** ** ChunkLoader (src/unnamed/part_003) *)
Module ChunkLoader.

Record ChunkData : Type := mkChunkData {
  file : string;
  domains : option (list string)
}.

(** [Object.entries(manifest)]: chunk name and chunk data. *)
Definition Manifest : Type := JsMap.t ChunkData.

Record t : Type := mk {
  loadedChunks : gset string;
  siteToChunkMap : gmap string string;   (* domain -> chunk name *)
  chunkManifest : Manifest;              (* chunk name -> { file, domains } *)
  loading : gmap string nat              (* chunk name -> promise of the load *)
}.

Definition new : t :=
  {| loadedChunks := ∅; siteToChunkMap := ∅; chunkManifest := JsMap.empty;
     loading := ∅ |}.

Definition mapDomains (m : gmap string string) (entry : string * ChunkData)
    : gmap string string :=
  match domains entry.2 with
  | Some ds => foldl (fun m d => <[d := entry.1]> m) m ds
  | None => m
  end.

Definition init (manifest : Manifest) (l : t) : t :=
  {| loadedChunks := loadedChunks l;
     siteToChunkMap := foldl mapDomains (siteToChunkMap l) manifest;
     chunkManifest := manifest;
     loading := loading l |}.

Definition withLoading (l : t) (m : gmap string nat) : t :=
  {| loadedChunks := loadedChunks l; siteToChunkMap := siteToChunkMap l;
     chunkManifest := chunkManifest l; loading := m |}.

Definition addLoaded (chunkName : string) (l : t) : t :=
  {| loadedChunks := {[chunkName]} ∪ loadedChunks l;
     siteToChunkMap := siteToChunkMap l;
     chunkManifest := chunkManifest l; loading := loading l |}.

Definition isChunkLoaded (chunkName : string) (l : t) : bool :=
  bool_decide (chunkName ∈ loadedChunks l).

Definition getChunkForDomain (d : string) (l : t) : option string :=
  siteToChunkMap l !! d.

(** What the host does with one [importScript]: it throws, or the chunk
    script runs; [loadedSiteChunk] is what [window.loadedSiteChunk] holds
    afterwards where [window] is bound ([None] when it is undefined), and
    is not looked at where it is not. *)
Inductive Import : Type :=
| ImportThrows
| ImportDone (loadedSiteChunk : option Catalog).

(** The loader, the site indexes beside it, the number of [importScript]
    calls made so far, and the realm: [window] is whether the global
    [window] is bound, as it is in a page and is not in a service worker
    (the file ends with [typeof window !== 'undefined'] to tell the two
    apart, and [importScript] has a branch for each). *)
Record World : Type := mkWorld {
  loader : t;
  sites : SiteIndexes.State;
  imports : nat;
  window : bool
}.

Definition withLoader (w : World) (l : t) : World :=
  {| loader := l; sites := sites w; imports := imports w; window := window w |}.

Definition countImport (w : World) : World :=
  {| loader := loader w; sites := sites w; imports := imports w + 1;
     window := window w |}.

(** The names every ordinary object inherits from [Object.prototype]; each
    is bound to a function or an object. *)
Definition inheritedNames : list string :=
  ["constructor"; "__proto__"; "hasOwnProperty"; "isPrototypeOf";
   "propertyIsEnumerable"; "toLocaleString"; "toString"; "valueOf";
   "__defineGetter__"; "__defineSetter__"; "__lookupGetter__";
   "__lookupSetter__"].

(** Lines 73 and 74 of [loadChunk]: whether [this.chunkManifest[chunkName]]
    is truthy.  The manifest is an ordinary object, as the [{}] of the
    constructor is, so the look-up finds an entry of its own or, for an
    inherited name, what [Object.prototype] binds to it. *)
Definition knownChunk (chunkName : string) (manifest : Manifest) : bool :=
  JsMap.has chunkName manifest || bool_decide (chunkName ∈ inheritedNames).

(** How one pass through the [try] block of [loadChunk] ends: it returns
    [true] (line 100), or what it throws is caught at line 102. *)
Inductive Attempt : Type :=
| Returns (w : World)
| Caught (w : World).

(** What [ensureChunkLoaded] decides before it loads anything. *)
Inductive Decision : Type :=
| Answer (result : bool)
| InFlight (chunkName : string) (promise : nat)
| MustLoad (chunkName : string).

Section WithBuiltin.
Context {B : RegExpBuiltin}.

(** Line 86 of [loadChunk]: the partition is marked loaded. *)
Definition marked (chunkName : string) (w : World) : World :=
  withLoader w (addLoaded chunkName (loader w)).

(** Lines 86 to 100 of [loadChunk] where [window] is bound: the partition
    is marked loaded and the sites the script left are indexed. *)
Definition imported (chunkName : string) (chunk : option Catalog) (w : World)
    : World :=
  {| loader := addLoaded chunkName (loader w);
     sites := match chunk with
              | Some c => SiteIndexes.buildIndexes c (sites w)
              | None => sites w
              end;
     imports := imports w;
     window := window w |}.

(** Lines 84 to 100 once [importScript] has settled.  Where [window] is
    not bound, [typeof window.loadedSiteChunk] at line 89 throws a
    [ReferenceError], after line 86 has marked the partition loaded. *)
Definition afterImport (chunkName : string) (outcome : Import) (w : World)
    : Attempt :=
  match outcome with
  | ImportThrows => Caught w
  | ImportDone chunk =>
      if window w then Returns (imported chunkName chunk w)
      else Caught (marked chunkName w)
  end.

Definition resolve (d : string) (w : World) : Decision :=
  if SiteIndexes.hasDomain d (sites w).1 then Answer true
  else
    match siteToChunkMap (loader w) !! d with
    | None => Answer false
    | Some chunkName =>
        if negb (truthy (Some chunkName)) then Answer false
        else if isChunkLoaded chunkName (loader w) then Answer true
        else
          match loading (loader w) !! chunkName with
          | Some p => InFlight chunkName p
          | None => MustLoad chunkName
          end
    end.

(** *** One call at a time

    The loop of [loadChunk] when nothing else runs while the call waits:
    [host n] is what the host does with the [n]-th [importScript] call.
    [remaining] counts the iterations the loop has left. *)
Fixpoint attempts (host : nat -> Import) (chunkName : string)
    (retries attempt remaining : nat) (w : World) : bool * World :=
  match remaining with
  | 0 => (false, w)
  | S remaining' =>
      match afterImport chunkName (host (imports w)) (countImport w) with
      | Returns w1 => (true, w1)
      | Caught w1 =>
          if (attempt =? retries - 1)%nat then (false, w1)
          else attempts host chunkName retries (attempt + 1) remaining' w1
      end
  end.

Definition loadChunk (host : nat -> Import) (chunkName : string)
    (retries : nat) (w : World) : bool * World :=
  if knownChunk chunkName (chunkManifest (loader w))
  then attempts host chunkName retries 0 retries w
  else (false, w).

(** [ensureChunkLoaded] with no other call in flight; [None] when the
    answer is that of a load some other call has in flight. *)
Definition ensureChunkLoaded (host : nat -> Import) (d : string)
    (retries : nat) (w : World) : option (bool * World) :=
  match resolve d w with
  | Answer result => Some (result, w)
  | InFlight _ _ => None
  | MustLoad chunkName =>
      let p := 0 in
      let w1 := withLoader w
                  (withLoading (loader w) (<[chunkName := p]> (loading (loader w)))) in
      let '(result, w2) := loadChunk host chunkName retries w1 in
      Some (result,
            withLoader w2
              (withLoading (loader w2) (delete chunkName (loading (loader w2)))))
  end.

(** *** Calls that overlap

    Every [await] is a point where other calls may run.  A load is one
    invocation of [loadChunk]; its promise is its index in [loads]. *)
Inductive Progress : Type :=
| Importing (attempt : nat)     (* at [await this.importScript(...)] *)
| BackingOff (attempt : nat)    (* at the [await] of the retry timer *)
| Settled (result : bool).

Record Load : Type := mkLoad {
  chunk : string;
  retries : nat;
  progress : Progress
}.

Inductive Caller : Type :=
| AwaitsInFlight (promise : nat)                      (* line 54 *)
| AwaitsOwn (chunkName : string) (promise : nat)      (* line 62 *)
| Completed (result : bool).

Record Machine : Type := mkMachine {
  world : World;
  loads : list Load;
  callers : list Caller
}.

Inductive Event : Type :=
| Calls (d : string) (retries : nat)      (* [ensureChunkLoaded(d, retries)] *)
| ImportSettles (promise : nat) (outcome : Import)
| TimerFires (promise : nat)
| Resumes (caller : nat).

(** [loadChunk] up to its first [await]. *)
Definition startLoad (chunkName : string) (retries : nat) (w : World)
    : Load * World :=
  if knownChunk chunkName (chunkManifest (loader w)) && (0 <? retries)%nat
  then ({| chunk := chunkName; retries := retries; progress := Importing 0 |},
        countImport w)
  else ({| chunk := chunkName; retries := retries; progress := Settled false |}, w).

Definition withProgress (ld : Load) (p : Progress) : Load :=
  {| chunk := chunk ld; retries := retries ld; progress := p |}.

Definition step (e : Event) (m : Machine) : option Machine :=
  match e with
  | Calls d r =>
      match resolve d (world m) with
      | Answer result =>
          Some {| world := world m; loads := loads m;
                  callers := callers m ++ [Completed result] |}
      | InFlight _ p =>
          Some {| world := world m; loads := loads m;
                  callers := callers m ++ [AwaitsInFlight p] |}
      | MustLoad chunkName =>
          let p := length (loads m) in
          let '(ld, w1) := startLoad chunkName r (world m) in
          Some {| world := withLoader w1
                    (withLoading (loader w1) (<[chunkName := p]> (loading (loader w1))));
                  loads := loads m ++ [ld];
                  callers := callers m ++ [AwaitsOwn chunkName p] |}
      end
  | ImportSettles p outcome =>
      match loads m !! p with
      | Some ld =>
          match progress ld with
          | Importing attempt =>
              match afterImport (chunk ld) outcome (world m) with
              | Returns w1 =>
                  Some {| world := w1;
                          loads := <[p := withProgress ld (Settled true)]> (loads m);
                          callers := callers m |}
              | Caught w1 =>
                  let next := if (attempt =? retries ld - 1)%nat
                              then Settled false else BackingOff attempt in
                  Some {| world := w1;
                          loads := <[p := withProgress ld next]> (loads m);
                          callers := callers m |}
              end
          | _ => None
          end
      | None => None
      end
  | TimerFires p =>
      match loads m !! p with
      | Some ld =>
          match progress ld with
          | BackingOff attempt =>
              if (attempt + 1 <? retries ld)%nat
              then Some {| world := countImport (world m);
                           loads := <[p := withProgress ld (Importing (attempt + 1))]> (loads m);
                           callers := callers m |}
              else Some {| world := world m;
                           loads := <[p := withProgress ld (Settled false)]> (loads m);
                           callers := callers m |}
          | _ => None
          end
      | None => None
      end
  | Resumes i =>
      match callers m !! i with
      | Some (AwaitsInFlight p) =>
          match progress <$> loads m !! p with
          | Some (Settled result) =>
              Some {| world := world m; loads := loads m;
                      callers := <[i := Completed result]> (callers m) |}
          | _ => None
          end
      | Some (AwaitsOwn chunkName p) =>
          match progress <$> loads m !! p with
          | Some (Settled result) =>
              Some {| world := withLoader (world m)
                        (withLoading (loader (world m))
                           (delete chunkName (loading (loader (world m)))));
                      loads := loads m;
                      callers := <[i := Completed result]> (callers m) |}
          | _ => None
          end
      | _ => None
      end
  end.

Fixpoint exec (es : list Event) (m : Machine) : option Machine :=
  match es with
  | [] => Some m
  | e :: rest =>
      match step e m with
      | Some m' => exec rest m'
      | None => None
      end
  end.

Definition isCall (e : Event) : bool :=
  match e with Calls _ _ => true | _ => false end.

Definition start (w : World) : Machine :=
  {| world := w; loads := []; callers := [] |}.

End WithBuiltin.

End ChunkLoader.

(** ** A reference matcher for the literal fragment of [RegExp]

    Sources made of plain characters, escaped punctuation ([\.], [\/]) and
    [.]; the flag [i] folds ASCII case.  On this fragment the functions
    below are [new RegExp(s)] and [r.test(u)]; a source outside it is
    refused.  The general results take any [RegExpBuiltin]; this one
    evaluates them on concrete requests. *)
Module LiteralRegExp.

Inductive Atom : Type :=
| Lit (c : ascii)
| AnyChar.

Definition isSyntax (c : ascii) : bool :=
  existsb (Ascii.eqb c) (list_ascii_of_string "\^$.*+?()[]{}|").

Definition isLineEnd (c : ascii) : bool :=
  Ascii.eqb c "010"%char || Ascii.eqb c "013"%char.

Definition isWord (c : ascii) : bool :=
  let n := nat_of_ascii c in
  ((48 <=? n) && (n <=? 57) || (65 <=? n) && (n <=? 90)
   || (97 <=? n) && (n <=? 122) || (n =? 95))%nat.

Fixpoint parse (s : string) : option (list Atom) :=
  match s with
  | EmptyString => Some []
  | String c rest =>
      if Ascii.eqb c "\"%char then
        match rest with
        | EmptyString => None
        | String e rest' =>
            if isWord e || isLineEnd e then None
            else cons (Lit e) <$> parse rest'
        end
      else if Ascii.eqb c "."%char then cons AnyChar <$> parse rest
      else if isSyntax c || isLineEnd c then None
      else cons (Lit c) <$> parse rest
  end.

(** The [source] of [new RegExp(s)]: a bare [/] is written [\/]. *)
Fixpoint escapeSource (s : string) : string :=
  match s with
  | EmptyString => EmptyString
  | String c rest =>
      if Ascii.eqb c "\"%char then
        match rest with
        | EmptyString => String c EmptyString
        | String e rest' => String c (String e (escapeSource rest'))
        end
      else if Ascii.eqb c "/"%char then String "\"%char (String c (escapeSource rest))
      else String c (escapeSource rest)
  end.

Definition new (s : string) : option RegExp :=
  match parse s with
  | Some _ => Some {| source := escapeSource s; flags := "" |}
  | None => None
  end.

Definition ignoreCase (r : RegExp) : bool :=
  existsb (Ascii.eqb "i"%char) (list_ascii_of_string (flags r)).

Definition atomMatches (ci : bool) (a : Atom) (c : ascii) : bool :=
  match a with
  | Lit x => if ci then Ascii.eqb (lower_ascii x) (lower_ascii c) else Ascii.eqb x c
  | AnyChar => negb (isLineEnd c)
  end.

Fixpoint matchHere (ci : bool) (atoms : list Atom) (u : string) : bool :=
  match atoms with
  | [] => true
  | a :: atoms' =>
      match u with
      | EmptyString => false
      | String c u' => atomMatches ci a c && matchHere ci atoms' u'
      end
  end.

Fixpoint search (ci : bool) (atoms : list Atom) (u : string) : bool :=
  matchHere ci atoms u
  || match u with
     | EmptyString => false
     | String _ u' => search ci atoms u'
     end.

Definition exec (r : RegExp) (u : string) : bool :=
  match parse (source r) with
  | Some atoms => search (ignoreCase r) atoms u
  | None => false
  end.

Definition builtin : RegExpBuiltin :=
  {| regexp_new := new; regexp_exec := exec |}.

End LiteralRegExp.

(** ** PerformanceMonitor (src/unnamed/part_001) *)
Module PerformanceMonitor.

Record ChunkLoad : Type := mkChunkLoad {
  chunk : string;
  timeMs : Q;
  timestamp : N
}.

(** [this.metrics]; times are the milliseconds of [performance.now()]. *)
Record Metrics : Type := mkMetrics {
  startupTime : Q;
  chunkLoads : list ChunkLoad;
  indexBuildTime : Q;
  cacheHits : nat;
  cacheMisses : nat;
  requestsProcessed : nat
}.

Record t : Type := mk {
  metrics : Metrics;
  startTime : Q
}.

Definition noMetrics : Metrics :=
  {| startupTime := 0; chunkLoads := []; indexBuildTime := 0;
     cacheHits := 0; cacheMisses := 0; requestsProcessed := 0 |}.

(** [new PerformanceMonitor()] at the time [now]. *)
Definition new (now : Q) : t := {| metrics := noMetrics; startTime := now |}.

Definition withMetrics (pm : t) (m : Metrics) : t :=
  {| metrics := m; startTime := startTime pm |}.

Definition recordStartup (timeMs : Q) (pm : t) : t :=
  withMetrics pm
    {| startupTime := timeMs; chunkLoads := chunkLoads (metrics pm);
       indexBuildTime := indexBuildTime (metrics pm);
       cacheHits := cacheHits (metrics pm);
       cacheMisses := cacheMisses (metrics pm);
       requestsProcessed := requestsProcessed (metrics pm) |}.

Definition recordIndexBuild (timeMs : Q) (pm : t) : t :=
  withMetrics pm
    {| startupTime := startupTime (metrics pm);
       chunkLoads := chunkLoads (metrics pm);
       indexBuildTime := timeMs;
       cacheHits := cacheHits (metrics pm);
       cacheMisses := cacheMisses (metrics pm);
       requestsProcessed := requestsProcessed (metrics pm) |}.

(** [recordChunkLoad(chunkName, timeMs)]; [now] is [Date.now()]. *)
Definition recordChunkLoad (chunkName : string) (timeMs : Q) (now : N) (pm : t) : t :=
  withMetrics pm
    {| startupTime := startupTime (metrics pm);
       chunkLoads := chunkLoads (metrics pm)
                     ++ [{| chunk := chunkName; timeMs := timeMs; timestamp := now |}];
       indexBuildTime := indexBuildTime (metrics pm);
       cacheHits := cacheHits (metrics pm);
       cacheMisses := cacheMisses (metrics pm);
       requestsProcessed := requestsProcessed (metrics pm) |}.

Definition recordCacheHit (pm : t) : t :=
  withMetrics pm
    {| startupTime := startupTime (metrics pm);
       chunkLoads := chunkLoads (metrics pm);
       indexBuildTime := indexBuildTime (metrics pm);
       cacheHits := cacheHits (metrics pm) + 1;
       cacheMisses := cacheMisses (metrics pm);
       requestsProcessed := requestsProcessed (metrics pm) |}.

Definition recordCacheMiss (pm : t) : t :=
  withMetrics pm
    {| startupTime := startupTime (metrics pm);
       chunkLoads := chunkLoads (metrics pm);
       indexBuildTime := indexBuildTime (metrics pm);
       cacheHits := cacheHits (metrics pm);
       cacheMisses := cacheMisses (metrics pm) + 1;
       requestsProcessed := requestsProcessed (metrics pm) |}.

Definition recordRequest (pm : t) : t :=
  withMetrics pm
    {| startupTime := startupTime (metrics pm);
       chunkLoads := chunkLoads (metrics pm);
       indexBuildTime := indexBuildTime (metrics pm);
       cacheHits := cacheHits (metrics pm);
       cacheMisses := cacheMisses (metrics pm);
       requestsProcessed := requestsProcessed (metrics pm) + 1 |}.

(** [reset] at the time [now]. *)
Definition reset (now : Q) (pm : t) : t := new now.

End PerformanceMonitor.

(** ** [RegexCache.test] beside the global [perfMonitor]

    The calls of [test] with their recording: a hit is counted before the
    stored boolean is returned, a miss before the expression is run;
    [None] is a context in which [perfMonitor] is not defined. *)
Module Monitored.

Definition State : Type := RegexCache.t * option PerformanceMonitor.t.

Section WithBuiltin.
Context {B : RegExpBuiltin}.

Definition test (pattern : Pattern) (url : string) (st : State) : bool * State :=
  match RegexCache.compile pattern st.1 with
  | (None, c1) => (false, (c1, st.2))
  | (Some compiled, c1) =>
      let key := RegexCache.cacheKey compiled url in
      match JsMap.get key (RegexCache.matchResults c1) with
      | Some cached => (cached, (c1, PerformanceMonitor.recordCacheHit <$> st.2))
      | None =>
          let pm := PerformanceMonitor.recordCacheMiss <$> st.2 in
          let result := regexp_exec compiled url in
          (result,
           (RegexCache.with_matchResults c1
              (JsMap.set key result (RegexCache.evict c1)), pm))
      end
  end.

Fixpoint run (calls : list (Pattern * string)) (st : State) : State :=
  match calls with
  | [] => st
  | (p, u) :: rest => run rest (test p u st).2
  end.

End WithBuiltin.

End Monitored.

(** ** JavaScript numbers, as far as version parts are compared

    [Number(s)] is the host's; a version part can convert to any number
    value, so all of them are kept: [NaN], the finite values (as the
    rationals they are; [0] and [-0] are one value here, as they are for
    [||], [<] and [>]) and the two infinities. *)
Module JsNumber.

Inductive t : Type :=
| NaN
| Finite (q : Q)
| Infinity (negative : bool).

Definition zero : t := Finite 0.

(** [ToBoolean]: [NaN] and zero are falsy. *)
Definition truthy (x : t) : bool :=
  match x with
  | NaN => false
  | Finite q => negb (Qeq_bool q 0)
  | Infinity _ => true
  end.

(** [x < y]. *)
Definition ltb (x y : t) : bool :=
  match x, y with
  | NaN, _ | _, NaN => false
  | Finite p, Finite q => negb (Qle_bool q p)
  | Finite _, Infinity negative => negb negative
  | Infinity negative, Finite _ => negative
  | Infinity n1, Infinity n2 => n1 && negb n2
  end.

End JsNumber.

Class NumberBuiltin : Type := {
  Number : string -> JsNumber.t
}.

(** [s.split(sep)] for a separator of one character. *)
Fixpoint split (sep : ascii) (s : string) : list string :=
  match s with
  | EmptyString => [EmptyString]
  | String c rest =>
      if Ascii.eqb c sep then EmptyString :: split sep rest
      else match split sep rest with
           | [] => [String c EmptyString]
           | part :: parts => String c part :: parts
           end
  end.

(** ** Region detection (src/lib/user-settings.js, src/unnamed/part_004)

    [detectRegion] of [UserSettings] and of [Migration] are the same
    function.  [locale] is what [getUILanguage()] returns, a language tag
    such as [en-IN], or [None] when the call throws.  The look-up
    [regionMap[region]] also finds what the object inherits: of the names
    [toLowerCase] can return these are [constructor] and [__proto__]. *)
Inductive Region : Type :=
| RegionName (name : string)
| ObjectConstructor
| ObjectPrototype.

Definition regionMap : JsMap.t string :=
  [("in", "india"); ("us", "usa"); ("gb", "europe"); ("uk", "europe");
   ("de", "europe"); ("fr", "europe"); ("es", "europe"); ("it", "europe")].

Definition detectRegion (locale : option string) : Region :=
  match locale with
  | None => RegionName "global"
  | Some locale =>
      match toLowerCase <$> (split "-" locale !! 1) with
      | None => RegionName "global"
      | Some region =>
          match JsMap.get region regionMap with
          | Some name => RegionName name
          | None =>
              if String.eqb region "constructor" then ObjectConstructor
              else if String.eqb region "__proto__" then ObjectPrototype
              else RegionName "global"
          end
      end
  end.

(** ** The settings object (src/lib/user-settings.js, src/unnamed/part_004) *)
Module Settings.

Record Features : Type := mkFeatures {
  mediumRedirect : bool;
  mediumRedirectTarget : string;
  ampRedirect : bool;
  archiveRedirect : bool;
  autoBypass : bool
}.

Record Performance : Type := mkPerformance {
  usageLearning : bool;
  preloadCore : bool
}.

(** An entry of [siteOverrides]: [{ disabled, redirect }], each property
    optional. *)
Record Override : Type := mkOverride {
  disabled : option bool;
  redirect : option bool
}.

Record t : Type := mk {
  features : Features;
  siteOverrides : gmap string Override;
  preferredRegion : Region;
  performance : Performance
}.

End Settings.

(** ** Migration (src/unnamed/part_004) *)
Module Migration.

Definition CURRENT_VERSION : string := "4.0.0".

(** A value of the [sites] object of the old settings: a domain string, or
    something that is no string. *)
Inductive SiteValue : Type :=
| Domain (d : string)
| NotAString.

(** [Object.entries(oldData.sites)]. *)
Definition Sites : Type := list (string * SiteValue).

(** [storage.sync], restricted to the keys the migration touches. *)
Record Sync : Type := mkSync {
  sites : option Sites;
  userSettings : option Settings.t
}.

(** [storage.local], restricted to the keys the migration touches;
    [settings_backup_v3] holds the object [storage.sync.get('sites')]
    returned, which has the property [sites] or is empty. *)
Record Local : Type := mkLocal {
  bpc_migration_status : option string;
  migration_completed : option N;
  settings_backup_v3 : option (option Sites);
  backup_timestamp : option N;
  disabledSites : option (list string)
}.

Record Notification : Type := mkNotification {
  title : string;
  message : string
}.

(** The extension's surroundings: the two storage areas, the
    notifications created ([None] when [ext_api.notifications] is not
    defined), the locale, and what the host will do: whether each coming
    storage call returns (next one first, a call after the list is used
    up returns) and what each coming [Date.now()] gives. *)
Record World : Type := mkWorld {
  sync : Sync;
  local : Local;
  notifications : option (list Notification);
  locale : option string;
  calls : list bool;
  clock : list N
}.

(** A computation that returns a value or throws. *)
Definition M (A : Type) : Type := World -> option A * World.

Definition ret {A} (a : A) : M A := fun w => (Some a, w).

Definition throw {A} : M A := fun w => (None, w).

Definition bind {A C} (m : M A) (k : A -> M C) : M C :=
  fun w => match m w with
           | (Some a, w') => k a w'
           | (None, w') => (None, w')
           end.

(** [try { m } catch (e) { handler }]. *)
Definition tryCatch {A} (m : M A) (handler : M A) : M A :=
  fun w => match m w with
           | (Some a, w') => (Some a, w')
           | (None, w') => handler w'
           end.

Declare Scope migration_scope.
Delimit Scope migration_scope with migration.
Notation "x <- m ;; k" := (bind m (fun x => k))
  (at level 100, m at level 99, k at level 200, right associativity)
  : migration_scope.
Notation "m ;; k" := (bind m (fun _ => k))
  (at level 100, k at level 200, right associativity) : migration_scope.

Definition withCalls (w : World) (calls : list bool) : World :=
  {| sync := sync w; local := local w; notifications := notifications w;
     locale := locale w; calls := calls; clock := clock w |}.

Definition withSync (w : World) (s : Sync) : World :=
  {| sync := s; local := local w; notifications := notifications w;
     locale := locale w; calls := calls w; clock := clock w |}.

Definition withLocal (w : World) (l : Local) : World :=
  {| sync := sync w; local := l; notifications := notifications w;
     locale := locale w; calls := calls w; clock := clock w |}.

(** One [await] of a storage call: it returns, or it throws and leaves
    the storage as it was. *)
Definition storageCall {A} (f : World -> A * World) : M A :=
  fun w =>
    let w1 := withCalls w (tl (calls w)) in
    if hd true (calls w) then let '(a, w2) := f w1 in (Some a, w2)
    else (None, w1).

Definition syncGet {A} (key : Sync -> A) : M A :=
  storageCall (fun w => (key (sync w), w)).

Definition localGet {A} (key : Local -> A) : M A :=
  storageCall (fun w => (key (local w), w)).

Definition syncSet (update : Sync -> Sync) : M unit :=
  storageCall (fun w => (tt, withSync w (update (sync w)))).

Definition localSet (update : Local -> Local) : M unit :=
  storageCall (fun w => (tt, withLocal w (update (local w)))).

(** [Date.now()]. *)
Definition dateNow : M N :=
  fun w => (Some (hd 0%N (clock w)),
            {| sync := sync w; local := local w; notifications := notifications w;
               locale := locale w; calls := calls w; clock := tl (clock w) |}).

Definition showNotification (title message : string) : M unit :=
  fun w => (Some tt,
            {| sync := sync w; local := local w;
               notifications :=
                 (fun shown => shown ++ [{| title := title; message := message |}])
                   <$> notifications w;
               locale := locale w; calls := calls w; clock := clock w |}).

Section WithBuiltin.
Context {NB : NumberBuiltin}.

(** [aParts[i] || 0]. *)
Definition orZero (x : option JsNumber.t) : JsNumber.t :=
  match x with
  | Some v => if JsNumber.truthy v then v else JsNumber.zero
  | None => JsNumber.zero
  end.

(** The loop of [compareVersions] from index [i], with [remaining]
    iterations left. *)
Fixpoint compareFrom (aParts bParts : list JsNumber.t) (i remaining : nat) : Z :=
  match remaining with
  | 0 => 0%Z
  | S remaining' =>
      let aVal := orZero (aParts !! i) in
      let bVal := orZero (bParts !! i) in
      if JsNumber.ltb aVal bVal then (-1)%Z
      else if JsNumber.ltb bVal aVal then 1%Z
      else compareFrom aParts bParts (i + 1) remaining'
  end.

(** [compareVersions(a, b)]; [None] is [undefined]. *)
Definition compareVersions (a b : option string) : Z :=
  if negb (truthy a) then (-1)%Z
  else if negb (truthy b) then 1%Z
  else
    let aParts := Number <$> split "." (default "" a) in
    let bParts := Number <$> split "." (default "" b) in
    compareFrom aParts bParts 0 (Nat.max (length aParts) (length bParts)).

Open Scope migration_scope.

(** [backupSettings]: whatever throws is logged. *)
Definition backupSettings : M unit :=
  tryCatch
    (oldSettings <- syncGet sites ;;
     now <- dateNow ;;
     localSet (fun l =>
       {| bpc_migration_status := bpc_migration_status l;
          migration_completed := migration_completed l;
          settings_backup_v3 := Some oldSettings;
          backup_timestamp := Some now;
          disabledSites := disabledSites l |}))
    (ret tt).

(** The settings [migrateSettings] starts from. *)
Definition newSettings (region : Region) : Settings.t :=
  {| Settings.features :=
       {| Settings.mediumRedirect := true;
          Settings.mediumRedirectTarget := "freedium";
          Settings.ampRedirect := true;
          Settings.archiveRedirect := true;
          Settings.autoBypass := true |};
     Settings.siteOverrides := ∅;
     Settings.preferredRegion := region;
     Settings.performance :=
       {| Settings.usageLearning := true; Settings.preloadCore := true |} |}.

(** [newSettings.siteOverrides[domain] = { disabled: true }]; on the key
    [__proto__] the assignment sets the prototype and adds no property. *)
Definition disable (domain : string) (overrides : gmap string Settings.Override)
    : gmap string Settings.Override :=
  if String.eqb domain "__proto__" then overrides
  else <[domain := {| Settings.disabled := Some true; Settings.redirect := None |}]>
         overrides.

(** The body of the loop of [migrateSettings], for one entry. *)
Definition migrateSite (overrides : gmap string Settings.Override)
    (entry : string * SiteValue) : M (gmap string Settings.Override) :=
  match entry.2 with
  | Domain domain =>
      _ <- localGet (fun _ => tt) ;;
      disabled <- localGet disabledSites ;;
      match disabled with
      | Some names =>
          if bool_decide (entry.1 ∈ names) then ret (disable domain overrides)
          else ret overrides
      | None => ret overrides
      end
  | NotAString => ret overrides
  end.

Fixpoint migrateSites (overrides : gmap string Settings.Override)
    (entries : Sites) : M (gmap string Settings.Override) :=
  match entries with
  | [] => ret overrides
  | entry :: rest =>
      overrides' <- migrateSite overrides entry ;;
      migrateSites overrides' rest
  end.

Definition withOverrides (s : Settings.t) (o : gmap string Settings.Override)
    : Settings.t :=
  {| Settings.features := Settings.features s; Settings.siteOverrides := o;
     Settings.preferredRegion := Settings.preferredRegion s;
     Settings.performance := Settings.performance s |}.

Definition migrateSettings (fromVersion : option string) : M unit :=
  oldData <- syncGet sites ;;
  region <- (fun w => (Some (detectRegion (locale w)), w)) ;;
  overrides <- match oldData with
               | Some entries => migrateSites ∅ entries
               | None => ret ∅
               end ;;
  syncSet (fun s =>
    {| sites := sites s;
       userSettings := Some (withOverrides (newSettings region) overrides) |}).

Definition runMigration (fromVersion : option string) : M unit :=
  tryCatch
    (backupSettings ;;
     migrateSettings fromVersion ;;
     now <- dateNow ;;
     localSet (fun l =>
       {| bpc_migration_status := Some CURRENT_VERSION;
          migration_completed := Some now;
          settings_backup_v3 := settings_backup_v3 l;
          backup_timestamp := backup_timestamp l;
          disabledSites := disabledSites l |}) ;;
     showNotification "Extension Updated"
       "Bypass Paywalls Clean has been optimized for better performance!")
    (showNotification "Update Failed"
       "Please reinstall the extension if issues persist." ;;
     throw).

(** [checkAndMigrate]: whatever throws is logged. *)
Definition checkAndMigrate : M unit :=
  tryCatch
    (lastMigrated <- localGet bpc_migration_status ;;
     if negb (truthy lastMigrated)
        || (compareVersions lastMigrated (Some CURRENT_VERSION) <? 0)%Z
     then runMigration lastMigrated
     else ret tt)
    (ret tt).

(** [rollback]. *)
Definition rollback : M bool :=
  tryCatch
    (backup <- localGet settings_backup_v3 ;;
     match backup with
     | Some saved =>
         syncSet (fun s =>
           {| sites := match saved with Some v => Some v | None => sites s end;
              userSettings := userSettings s |}) ;;
         showNotification "Rollback Complete"
           "Settings have been restored to the previous version." ;;
         ret true
     | None => ret false
     end)
    (ret false).

Close Scope migration_scope.

End WithBuiltin.

End Migration.

(** ** A reference conversion for the decimal fragment of [Number]

    On the empty string and on strings of at most fifteen decimal digits
    the function below is [Number(s)]; other strings are outside the
    fragment and refused as [NaN].  The general results take any
    [NumberBuiltin]; this one evaluates them on concrete versions. *)
Module DecimalNumber.

Definition digitValue (c : ascii) : option N :=
  let n := N_of_ascii c in
  if (48 <=? n)%N && (n <=? 57)%N then Some (n - 48)%N else None.

Fixpoint digits (s : string) (acc : N) : option N :=
  match s with
  | EmptyString => Some acc
  | String c rest =>
      match digitValue c with
      | Some v => digits rest (10 * acc + v)%N
      | None => None
      end
  end.

Definition number (s : string) : JsNumber.t :=
  if (15 <? String.length s)%nat then JsNumber.NaN
  else match digits s 0%N with
       | Some n => JsNumber.Finite (inject_Z (Z.of_N n))
       | None => JsNumber.NaN
       end.

Definition builtin : NumberBuiltin := {| Number := number |}.

End DecimalNumber.


(** ** Invariants and example inputs used by the properties *)
Module Aux.

(** The result map of a cache is well formed: distinct keys, no more of
    them than the bound. *)
Definition bounded (c : RegexCache.t) : Prop :=
  NoDup (JsMap.keys (RegexCache.matchResults c))
  /\ JsMap.size (RegexCache.matchResults c) <= RegexCache.maxCacheSize c.

(** The invariant that ties the promotion of a domain to its counter, from
    a learner in which the domain was not promoted and stood at the count
    [c0]: the domain is promoted exactly when a counted visit has left its
    count at the threshold [T] or above. *)
Definition promotedSince (T c0 : nat) (d : string) (u : UsageLearner.t) : Prop :=
  UsageLearner.promotionThreshold u = T
  /\ c0 <= UsageLearner.getVisitCount d u
  /\ (d ∈ UsageLearner.promotedSites u
      <-> c0 < UsageLearner.getVisitCount d u /\ T <= UsageLearner.getVisitCount d u).

(** A learner of the default threshold in its second session: in the
    first, five visits promoted [nytimes.com]; the promoted set was stored
    at once, the counters, stored at every tenth visit, were not. *)
Definition restarted : UsageLearner.t :=
  UsageLearner.init true
    (UsageLearner.reopen 5
       (UsageLearner.storage
          (UsageLearner.calls
             (replicate 5 (UsageLearner.TrackVisit "nytimes.com"))
             (UsageLearner.new 5 [])))
       []).

(** The expressions [/A/i] and [/A/], and the global cache after
    [regexCache.test(/A/i, "a")] under the literal matcher. *)
Definition A_i : RegExp := {| source := "A"; flags := "i" |}.
Definition A_ : RegExp := {| source := "A"; flags := "" |}.

Definition afterFirst : RegexCache.t :=
  (RegexCache.test (B := LiteralRegExp.builtin) (PRegExp A_i) "a" RegexCache.default).2.

(** [map.set(k, v)] for each pair of a list, in order. *)
Definition setAll {V} (writes : list (string * V)) (m : gmap string V) : gmap string V :=
  foldl (fun m kv => <[kv.1 := kv.2]> m) m writes.

(** The last value a list of writes gives a key. *)
Fixpoint lastWrite {V} (k : string) (writes : list (string * V)) : option V :=
  match writes with
  | [] => None
  | (k', v) :: rest =>
      match lastWrite k rest with
      | Some v' => Some v'
      | None => if String.eqb k' k then Some v else None
      end
  end.

(** What one catalog entry writes to [domainMap], [groupMap], [groupConfigs]
    and [indexedDomains]. *)
Definition domainWrites (entry : string * Config) : list (string * Config) :=
  if SiteIndexes.isMetadata entry.2 then []
  else match group entry.2 with
       | Some _ => []
       | None =>
           match domain entry.2 with
           | Some d => if truthy (Some d) then [(d, entry.2)] else []
           | None => []
           end
       end.

Definition groupWrites (entry : string * Config) : list (string * string) :=
  if SiteIndexes.isMetadata entry.2 then []
  else match group entry.2 with
       | Some g => (fun d => (d, entry.1)) <$> g
       | None => []
       end.

Definition groupConfigWrites (entry : string * Config) : list (string * Config) :=
  if SiteIndexes.isMetadata entry.2 then []
  else match group entry.2 with
       | Some _ => [(entry.1, entry.2)]
       | None => []
       end.

Definition registered (entry : string * Config) : list string :=
  (domainWrites entry).*1 ++ (groupWrites entry).*1.

(** Every domain of the group table resolves to a shared configuration. *)
Definition groupsResolve (s : SiteIndexes.t) : Prop :=
  forall d g, SiteIndexes.groupMap s !! d = Some g ->
              is_Some (SiteIndexes.groupConfigs s !! g).

(** Two indexes agree on what [indexFeatures] never writes. *)
Definition sameCore (s s' : SiteIndexes.t) : Prop :=
  SiteIndexes.domainMap s' = SiteIndexes.domainMap s
  /\ SiteIndexes.groupMap s' = SiteIndexes.groupMap s
  /\ SiteIndexes.groupConfigs s' = SiteIndexes.groupConfigs s
  /\ SiteIndexes.indexedDomains s' = SiteIndexes.indexedDomains s
  /\ SiteIndexes.totalSites s' = SiteIndexes.totalSites s.

(** The boolean the Pattern Cache gives for a compiled rule, and the cache
    after a list of rules has been tested in order. *)
Definition verdict {B : RegExpBuiltin} (r : RegExp) (url : string)
    (rc : RegexCache.t) : bool :=
  (RegexCache.test (PRegExp r) url rc).1.

Definition tested {B : RegExpBuiltin} (rules : list RegExp) (url : string)
    (rc : RegexCache.t) : RegexCache.t :=
  foldl (fun rc r => (RegexCache.test (PRegExp r) url rc).2) rc rules.

(** A configuration that declares nothing. *)
Definition noConfig : Config :=
  {| domain := None; group := None; useragent := None; referer := None;
     random_ip := None; allow_cookies := false; remove_cookies := false;
     remove_cookies_select_hold := None; remove_cookies_select_drop := None;
     block_regex := PNull |}.

Definition blocking (d : string) (p : Pattern) : Config :=
  {| domain := Some d; group := None; useragent := None; referer := None;
     random_ip := None; allow_cookies := false; remove_cookies := false;
     remove_cookies_select_hold := None; remove_cookies_select_drop := None;
     block_regex := p |}.

(** The catalog of the specification's scenario. *)
Definition nytCatalog : Catalog :=
  [("nyt", blocking "nytimes.com" (PString "\.tinypass\.com/"))].

(** Two sites whose block patterns differ in their flags only. *)
Definition flagsCatalog : Catalog :=
  [("x", blocking "x.com" (PRegExp A_i)); ("y", blocking "y.com" (PRegExp A_))].

(** An entry that declares a group and no [domain]. *)
Definition groupOnly : Config :=
  {| domain := None; group := Some ["a.com"; "b.com"];
     useragent := Some (UAString "googlebot"); referer := None;
     random_ip := None; allow_cookies := true; remove_cookies := false;
     remove_cookies_select_hold := None; remove_cookies_select_drop := None;
     block_regex := PString "paywall" |}.

Definition groupCatalog : Catalog := [("g", groupOnly)].

(** The same entry with a [domain] beside its group. *)
Definition groupWithDomain : Config :=
  {| domain := Some "a.com"; group := Some ["a.com"; "b.com"];
     useragent := Some (UAString "googlebot"); referer := None;
     random_ip := None; allow_cookies := true; remove_cookies := false;
     remove_cookies_select_hold := None; remove_cookies_select_drop := None;
     block_regex := PString "paywall" |}.

(** The index and the global cache when the extension starts. *)
Definition fresh : SiteIndexes.State := (SiteIndexes.new, RegexCache.default).



(** A busy session: [y.com] (block pattern [/A/]) was indexed first and a
    thousand different urls were checked against it, ["a"] first, so the
    result map of the global cache is full and ["A::a"] is its oldest key.
    Then a partition arrives in which [x.com] has the block patterns [/A/i]
    and [/b/]. *)
Definition b_ : RegExp := {| source := "b"; flags := "" |}.

Definition digit (n : nat) : ascii := ascii_of_nat (48 + n).

Definition url3 (i : nat) : string :=
  String (digit (i / 100))
    (String (digit (i / 10 mod 10)) (String (digit (i mod 10)) EmptyString)).

Definition earlierCatalog : Catalog := [("y", blocking "y.com" (PRegExp A_))].

Definition laterCatalog : Catalog :=
  [("x1", blocking "x.com" (PRegExp A_i)); ("x2", blocking "x.com" (PRegExp b_))].

Definition requests : list string := "a" :: (url3 <$> seq 1 999).

Definition serve {B : RegExpBuiltin} (d : string) (urls : list string)
    (st : SiteIndexes.State) : SiteIndexes.State :=
  foldl (fun st u => (st.1, (SiteIndexes.shouldBlockRequest d u st).2)) st urls.

Definition busy : SiteIndexes.State :=
  Eval vm_compute in
    serve (B := LiteralRegExp.builtin) "y.com" requests
      (SiteIndexes.buildIndexes (B := LiteralRegExp.builtin) earlierCatalog fresh).

(** The headers [applyHeaders] appends for a rule, in order. *)
Definition replacements (rule : HeaderRuleEngine.Rule) (now : N)
    : list HeaderRuleEngine.Header :=
  HeaderRuleEngine.pushForwardedFor rule now
    (HeaderRuleEngine.pushReferer rule (HeaderRuleEngine.pushUserAgent rule [])).

(** The name of a header is one the rule overrides. *)
Definition overridden (rule : HeaderRuleEngine.Rule)
    (header : HeaderRuleEngine.Header) : bool :=
  let name := toLowerCase (HeaderRuleEngine.name header) in
  ua_truthy (HeaderRuleEngine.userAgent rule) && String.eqb name "user-agent"
  || truthy (HeaderRuleEngine.referer rule) && String.eqb name "referer"
  || HeaderRuleEngine.hasPool rule && String.eqb name "x-forwarded-for".

(** A rule with the three features, and the headers of a request. *)
Definition botRule : HeaderRuleEngine.Rule :=
  {| HeaderRuleEngine.userAgent :=
       Some (UAString "Mozilla/5.0 (compatible; Googlebot/2.1; +http://www.google.com/bot.html)");
     HeaderRuleEngine.referer := Some "https://www.google.com/";
     HeaderRuleEngine.randomIP := Some ["10.0.0.1"; "10.0.0.2"; "10.0.0.3"] |}.

Definition botRules : gmap string HeaderRuleEngine.Rule := {["wsj.com" := botRule]}.

Definition requestHeaders : list HeaderRuleEngine.Header :=
  [ {| HeaderRuleEngine.name := "USER-AGENT"; HeaderRuleEngine.value := HeaderRuleEngine.VString "Chrome" |};
    {| HeaderRuleEngine.name := "Accept"; HeaderRuleEngine.value := HeaderRuleEngine.VString "*/*" |};
    {| HeaderRuleEngine.name := "referer"; HeaderRuleEngine.value := HeaderRuleEngine.VString "https://t.co/" |} ].

(** The manifest of the specification's scenario: [example.in] belongs to
    the partition [india]. *)
Definition indiaManifest : ChunkLoader.Manifest :=
  [("india", {| ChunkLoader.file := "sites/chunks/sites-india.js";
                ChunkLoader.domains := Some ["example.in"; "other.in"] |})].

Definition indiaChunk : Catalog :=
  [("Example", blocking "example.in" PNull); ("Other", blocking "other.in" PNull)].

(** The loader after [init(manifest)], beside a fresh index, in a page
    and in a service worker. *)
Definition ready : ChunkLoader.World :=
  {| ChunkLoader.loader := ChunkLoader.init indiaManifest ChunkLoader.new;
     ChunkLoader.sites := fresh;
     ChunkLoader.imports := 0;
     ChunkLoader.window := true |}.

Definition readyInWorker : ChunkLoader.World :=
  {| ChunkLoader.loader := ChunkLoader.init indiaManifest ChunkLoader.new;
     ChunkLoader.sites := fresh;
     ChunkLoader.imports := 0;
     ChunkLoader.window := false |}.

(** A host on which every [importScript] throws, and one on which the chunk
    script runs. *)
Definition offline : nat -> ChunkLoader.Import := fun _ => ChunkLoader.ImportThrows.

Definition online : nat -> ChunkLoader.Import :=
  fun _ => ChunkLoader.ImportDone (Some indiaChunk).

(** The world after [n] more [importScript] calls that changed nothing. *)
Definition afterImports (n : nat) (w : ChunkLoader.World) : ChunkLoader.World :=
  {| ChunkLoader.loader := ChunkLoader.loader w;
     ChunkLoader.sites := ChunkLoader.sites w;
     ChunkLoader.imports := ChunkLoader.imports w + n;
     ChunkLoader.window := ChunkLoader.window w |}.

(** The invariant of two overlapping calls for domains of one partition
    [c] in a page, from the world [w0] in which the first call starts the
    load with [r1] retries: there is one load, of [c]; until it settles
    with [true] the index and the loaded set are those of [w0], and then
    the partition is marked loaded; the imports made are the attempts of
    that load, one at least; the first caller waits for it or has its
    result; a second caller, if there is one, waits for the same promise or
    has its result. *)
Definition loadInv (w0 : ChunkLoader.World) (r1 : nat) (m : ChunkLoader.Machine)
    (ld : ChunkLoader.Load) : Prop :=
  let untouched :=
    ChunkLoader.sites (ChunkLoader.world m) = ChunkLoader.sites w0
    /\ ChunkLoader.loadedChunks (ChunkLoader.loader (ChunkLoader.world m))
       = ChunkLoader.loadedChunks (ChunkLoader.loader w0) in
  let attempted :=
    ChunkLoader.imports w0 + 1 <= ChunkLoader.imports (ChunkLoader.world m)
    /\ ChunkLoader.imports (ChunkLoader.world m) <= ChunkLoader.imports w0 + r1 in
  match ChunkLoader.progress ld with
  | ChunkLoader.Importing a | ChunkLoader.BackingOff a =>
      a < r1
      /\ ChunkLoader.imports (ChunkLoader.world m) = ChunkLoader.imports w0 + a + 1
      /\ untouched
  | ChunkLoader.Settled false => attempted /\ untouched
  | ChunkLoader.Settled true =>
      attempted
      /\ ChunkLoader.isChunkLoaded (ChunkLoader.chunk ld)
           (ChunkLoader.loader (ChunkLoader.world m)) = true
  end.

Definition firstInv (c : string) (m : ChunkLoader.Machine) (ld : ChunkLoader.Load)
    : Prop :=
  (ChunkLoader.callers m !! 0 = Some (ChunkLoader.AwaitsOwn c 0)
   /\ ChunkLoader.loading (ChunkLoader.loader (ChunkLoader.world m)) !! c = Some 0)
  \/ (exists b, ChunkLoader.callers m !! 0 = Some (ChunkLoader.Completed b)
                /\ ChunkLoader.progress ld = ChunkLoader.Settled b).

Definition secondInv (m : ChunkLoader.Machine) (ld : ChunkLoader.Load) : Prop :=
  forall x, ChunkLoader.callers m !! 1 = Some x ->
    x = ChunkLoader.AwaitsInFlight 0
    \/ exists b, x = ChunkLoader.Completed b
                 /\ ChunkLoader.progress ld = ChunkLoader.Settled b.

Definition coalesced (w0 : ChunkLoader.World) (c : string) (r1 n : nat)
    (m : ChunkLoader.Machine) : Prop :=
  ChunkLoader.siteToChunkMap (ChunkLoader.loader (ChunkLoader.world m))
  = ChunkLoader.siteToChunkMap (ChunkLoader.loader w0)
  /\ ChunkLoader.window (ChunkLoader.world m) = true
  /\ length (ChunkLoader.callers m) = n
  /\ exists ld,
       ChunkLoader.loads m = [ld]
       /\ ChunkLoader.chunk ld = c /\ ChunkLoader.retries ld = r1
       /\ loadInv w0 r1 m ld /\ firstInv c m ld /\ secondInv m ld.

(** Two calls for two domains of [india] before anything else happens, the
    import then succeeds, and both callers resume. *)
Definition bothCalls : list ChunkLoader.Event :=
  [ChunkLoader.Calls "example.in" 3; ChunkLoader.Calls "other.in" 3;
   ChunkLoader.ImportSettles 0 (ChunkLoader.ImportDone (Some indiaChunk));
   ChunkLoader.Resumes 0; ChunkLoader.Resumes 1].

(** The machine after the first of the two calls, after the whole run, and
    after a run in which every import throws. *)
Definition afterFirstCall : ChunkLoader.Machine :=
  default (ChunkLoader.start ready)
    (ChunkLoader.exec (B := LiteralRegExp.builtin)
       [ChunkLoader.Calls "example.in" 3] (ChunkLoader.start ready)).

Definition afterBothCalls : ChunkLoader.Machine :=
  default (ChunkLoader.start ready)
    (ChunkLoader.exec (B := LiteralRegExp.builtin) bothCalls (ChunkLoader.start ready)).

Definition bothCallsOffline : list ChunkLoader.Event :=
  [ChunkLoader.Calls "example.in" 3; ChunkLoader.Calls "other.in" 3;
   ChunkLoader.ImportSettles 0 ChunkLoader.ImportThrows; ChunkLoader.TimerFires 0;
   ChunkLoader.ImportSettles 0 ChunkLoader.ImportThrows; ChunkLoader.TimerFires 0;
   ChunkLoader.ImportSettles 0 ChunkLoader.ImportThrows;
   ChunkLoader.Resumes 1; ChunkLoader.Resumes 0].

Definition afterBothCallsOffline : ChunkLoader.Machine :=
  default (ChunkLoader.start ready)
    (ChunkLoader.exec (B := LiteralRegExp.builtin) bothCallsOffline
       (ChunkLoader.start ready)).

(** Two calls for two domains of [india] in a service worker: the script
    of the partition runs at every attempt, and the second call is made
    while the load waits for its first retry. *)
Definition overlapInWorker : list ChunkLoader.Event :=
  [ChunkLoader.Calls "example.in" 3;
   ChunkLoader.ImportSettles 0 (ChunkLoader.ImportDone None);
   ChunkLoader.Calls "other.in" 3;
   ChunkLoader.TimerFires 0;
   ChunkLoader.ImportSettles 0 (ChunkLoader.ImportDone None);
   ChunkLoader.TimerFires 0;
   ChunkLoader.ImportSettles 0 (ChunkLoader.ImportDone None);
   ChunkLoader.Resumes 0].

(** The key under which [compile] files a pattern. *)
Definition compileKey (p : Pattern) : string :=
  match p with
  | PNull => ""
  | PString s => s
  | PRegExp r => source r +:+ flags r
  end.

(** The number of calls, in a sequence of [test] calls, that are answered
    from the result map. *)
Fixpoint answeredFromCache {B : RegExpBuiltin} (calls : list (Pattern * string))
    (c : RegexCache.t) : nat :=
  match calls with
  | [] => 0
  | (p, u) :: rest =>
      match (RegexCache.compile p c).1, RegexCache.inserted p u c with
      | Some _, None => 1 + answeredFromCache rest (RegexCache.test p u c).2
      | _, _ => answeredFromCache rest (RegexCache.test p u c).2
      end
  end.

(** Two monitors agree on everything but the two cache counters. *)
Definition sameButCounters (pm pm' : PerformanceMonitor.t) : Prop :=
  PerformanceMonitor.startTime pm' = PerformanceMonitor.startTime pm
  /\ PerformanceMonitor.startupTime (PerformanceMonitor.metrics pm')
     = PerformanceMonitor.startupTime (PerformanceMonitor.metrics pm)
  /\ PerformanceMonitor.chunkLoads (PerformanceMonitor.metrics pm')
     = PerformanceMonitor.chunkLoads (PerformanceMonitor.metrics pm)
  /\ PerformanceMonitor.indexBuildTime (PerformanceMonitor.metrics pm')
     = PerformanceMonitor.indexBuildTime (PerformanceMonitor.metrics pm)
  /\ PerformanceMonitor.requestsProcessed (PerformanceMonitor.metrics pm')
     = PerformanceMonitor.requestsProcessed (PerformanceMonitor.metrics pm).

(** The feature tables hold entries for indexed domains only. *)
Definition featuresIndexed (s : SiteIndexes.t) : Prop :=
  dom (SiteIndexes.botUserAgents s) ⊆ SiteIndexes.indexedDomains s
  /\ dom (SiteIndexes.cookieRules s) ⊆ SiteIndexes.indexedDomains s
  /\ dom (SiteIndexes.blockRules s) ⊆ SiteIndexes.indexedDomains s.

(** The indexed domains are those of the direct table and of the group
    table. *)
Definition indexedAreRegistered (s : SiteIndexes.t) : Prop :=
  SiteIndexes.indexedDomains s
  = dom (SiteIndexes.domainMap s) ∪ dom (SiteIndexes.groupMap s).

(** An entry [buildIndexes] passes over: a metadata entry, or one with
    neither a group nor a domain. *)
Definition ignored (entry : string * Config) : bool :=
  SiteIndexes.isMetadata entry.2
  || (negb (truthy (domain entry.2))
      && match group entry.2 with Some _ => false | None => true end).

(** What an entry adds to [totalSites]. *)
Definition registrations (entry : string * Config) : nat :=
  if SiteIndexes.isMetadata entry.2 then 0
  else match group entry.2 with
       | Some g => length g
       | None => if truthy (domain entry.2) then 1 else 0
       end.



(** The last partition of a manifest, in the order of its entries, whose
    [domains] array lists the domain. *)
Fixpoint lastListing (d : string) (manifest : ChunkLoader.Manifest) : option string :=
  match manifest with
  | [] => None
  | (chunkName, chunkData) :: rest =>
      match lastListing d rest with
      | Some later => Some later
      | None =>
          match ChunkLoader.domains chunkData with
          | Some ds => if bool_decide (d ∈ ds) then Some chunkName else None
          | None => None
          end
      end
  end.

(** What the storage holds for the learner, read the way [init] reads
    it. *)
Definition storedCount (d : string) (u : UsageLearner.t) : nat :=
  default 0 (default ∅ (UsageLearner.usageData (UsageLearner.storage u)) !! d).

Definition storedPromoted (u : UsageLearner.t) : gset string :=
  default ∅ (UsageLearner.storedPromotedSites (UsageLearner.storage u)).

(** The storage follows the learner: no coming write fails, the stored
    promoted set is the one in memory, and the stored count of a domain is
    its count when a counter last reached a multiple of ten: not more than
    the count, not less than the last multiple of ten the count passed. *)
Definition persisted (u : UsageLearner.t) : Prop :=
  Forall (eq true) (UsageLearner.writes u)
  /\ storedPromoted u = UsageLearner.promotedSites u
  /\ forall d, storedCount d u <= UsageLearner.getVisitCount d u
               /\ 10 * (UsageLearner.getVisitCount d u / 10) <= storedCount d u.

(** Two learners hold the same in memory. *)
Definition sameMemory (u u' : UsageLearner.t) : Prop :=
  UsageLearner.visitCounts u' = UsageLearner.visitCounts u
  /\ UsageLearner.promotedSites u' = UsageLearner.promotedSites u
  /\ UsageLearner.promotionThreshold u' = UsageLearner.promotionThreshold u
  /\ UsageLearner.enabled u' = UsageLearner.enabled u.

(** What a learner has counted: the sum of its counters is [n], its
    promoted domains are among the tracked ones, and the tracked ones are
    [ds]. *)
Definition counted (n : nat) (ds : gset string) (u : UsageLearner.t) : Prop :=
  UsageLearner.totalVisits u = n
  /\ dom (UsageLearner.visitCounts u) = ds
  /\ UsageLearner.promotedSites u ⊆ dom (UsageLearner.visitCounts u)
  /\ UsageLearner.enabled u = true.

(** The number [compareVersions] compares at index [i] of a version:
    a part that is missing, or converts to [NaN] or to zero, counts as
    [0]. *)
Definition part {NB : NumberBuiltin} (version : option string) (i : nat)
    : JsNumber.t :=
  Migration.orZero ((Number <$> split "." (default "" version)) !! i).

(** Neither of two numbers is less than the other. *)
Definition level (x y : JsNumber.t) : bool :=
  negb (JsNumber.ltb x y) && negb (JsNumber.ltb y x).

(** Two worlds differ at most in what the host will do next. *)
Definition sameStores (w w' : Migration.World) : Prop :=
  Migration.sync w' = Migration.sync w
  /\ Migration.local w' = Migration.local w
  /\ Migration.notifications w' = Migration.notifications w
  /\ Migration.locale w' = Migration.locale w.

(** [checkAndMigrate] finds a migration to run. *)
Definition migrationNeeded {NB : NumberBuiltin} (w : Migration.World) : bool :=
  negb (truthy (Migration.bpc_migration_status (Migration.local w)))
  || (Migration.compareVersions (Migration.bpc_migration_status (Migration.local w))
        (Some Migration.CURRENT_VERSION) <? 0)%Z.

(** The overrides the loop of [migrateSettings] collects when no storage
    call throws. *)
Definition overridesOf (disabled : option (list string)) (entries : Migration.Sites)
    (start : gmap string Settings.Override) : gmap string Settings.Override :=
  foldl (fun overrides (entry : string * Migration.SiteValue) =>
           match entry.2, disabled with
           | Migration.Domain domain, Some names =>
               if bool_decide (entry.1 ∈ names)
               then Migration.disable domain overrides else overrides
           | _, _ => overrides
           end) start entries.

(** A domain of the old settings the migration disables: the value of a
    site whose name is in [disabledSites]. *)
Definition disabledDomain (names : list string) (entries : Migration.Sites)
    (d : string) : Prop :=
  d <> "__proto__"
  /\ exists siteName, (siteName, Migration.Domain d) ∈ entries /\ siteName ∈ names.

(** The world after a migration in which no storage call throws. *)
Definition migrated (w : Migration.World) : Migration.World :=
  {| Migration.sync :=
       {| Migration.sites := Migration.sites (Migration.sync w);
          Migration.userSettings :=
            Some (Migration.withOverrides
                    (Migration.newSettings (detectRegion (Migration.locale w)))
                    (overridesOf (Migration.disabledSites (Migration.local w))
                       (default [] (Migration.sites (Migration.sync w))) ∅)) |};
     Migration.local :=
       {| Migration.bpc_migration_status := Some Migration.CURRENT_VERSION;
          Migration.migration_completed := Some (hd 0%N (tl (Migration.clock w)));
          Migration.settings_backup_v3 := Some (Migration.sites (Migration.sync w));
          Migration.backup_timestamp := Some (hd 0%N (Migration.clock w));
          Migration.disabledSites := Migration.disabledSites (Migration.local w) |};
     Migration.notifications :=
       (fun shown =>
          shown ++ [{| Migration.title := "Extension Updated";
                       Migration.message :=
                         "Bypass Paywalls Clean has been optimized for better performance!" |}])
         <$> Migration.notifications w;
     Migration.locale := Migration.locale w;
     Migration.calls := [];
     Migration.clock := tl (tl (Migration.clock w)) |}.

(** An installation of version 3.9 with two sites, one of them disabled,
    settings of its own, and a host on which every storage call returns. *)
Definition upgrading : Migration.World :=
  {| Migration.sync :=
       {| Migration.sites :=
            Some [("The New York Times", Migration.Domain "nytimes.com");
                  ("The Wall Street Journal", Migration.Domain "wsj.com")];
          Migration.userSettings := None |};
     Migration.local :=
       {| Migration.bpc_migration_status := Some "3.9.0";
          Migration.migration_completed := None;
          Migration.settings_backup_v3 := None;
          Migration.backup_timestamp := None;
          Migration.disabledSites := Some ["The Wall Street Journal"] |};
     Migration.notifications := Some [];
     Migration.locale := Some "en-IN";
     Migration.calls := [];
     Migration.clock := [1700000000000%N; 1700000000007%N] |}.

(** The character [c] does not occur in [s]. *)
Fixpoint freeOf (c : ascii) (s : string) : bool :=
  match s with
  | EmptyString => true
  | String c' rest => negb (Ascii.eqb c' c) && freeOf c rest
  end.

(** An expression without the [g] and the [y] flag: its [test] neither
    reads nor writes [lastIndex], so it answers for the string alone, as
    [regexp_exec] does. *)
Definition stateless (r : RegExp) : bool :=
  freeOf "g" (flags r) && freeOf "y" (flags r).

Definition statelessIf (compiled : option RegExp) : bool :=
  match compiled with
  | Some r => stateless r
  | None => true
  end.

End Aux.

(** * Properties *)

(** ** The reference matcher on the pattern of the specification's scenario *)
Example literal_tinypass :
  LiteralRegExp.new "\.tinypass\.com/" = Some (mkRegExp "\.tinypass\.com\/" "")
  /\ LiteralRegExp.exec (mkRegExp "\.tinypass\.com\/" "") "https://px.tinypass.com/xyz" = true
  /\ LiteralRegExp.exec (mkRegExp "\.tinypass\.com\/" "") "https://nytimes.com/article" = false.
Proof. split_and!; reflexivity. Qed.

(** ** UsageLearner *)
Module UsageLearnerFacts.
Import UsageLearner Aux.

(** Writing to the storage touches neither the counters nor the promoted
    set nor the switch. *)
Lemma storageSet_memory (f : Storage -> Storage) (u : t) :
  visitCounts (storageSet f u) = visitCounts u
  /\ promotedSites (storageSet f u) = promotedSites u
  /\ promotionThreshold (storageSet f u) = promotionThreshold u
  /\ enabled (storageSet f u) = enabled u.
Proof. done. Qed.

Lemma trackVisit_threshold (d : string) (u : t) :
  promotionThreshold (trackVisit d u) = promotionThreshold u.
Proof.
  unfold trackVisit. destruct (enabled u); simpl; [|done].
  repeat case_match; done.
Qed.

Lemma trackVisit_enabled (d : string) (u : t) :
  enabled (trackVisit d u) = enabled u.
Proof.
  unfold trackVisit. destruct (enabled u) eqn:E; simpl; [|done].
  repeat case_match; done.
Qed.

(** The counters after one visit. *)
Lemma trackVisit_counts (d : string) (u : t) :
  visitCounts (trackVisit d u) =
    if enabled u then <[d := getVisitCount d u + 1]> (visitCounts u)
    else visitCounts u.
Proof.
  unfold trackVisit, getVisitCount. destruct (enabled u); simpl; [|done].
  repeat case_match; done.
Qed.

(** The promoted set after one visit. *)
Lemma trackVisit_promoted (d : string) (u : t) :
  promotedSites (trackVisit d u) =
    if enabled u && (promotionThreshold u <=? getVisitCount d u + 1)%nat
    then {[d]} ∪ promotedSites u
    else promotedSites u.
Proof.
  unfold trackVisit, getVisitCount, isPromoted.
  destruct (enabled u); simpl; [|done].
  destruct (promotionThreshold u <=? _)%nat; simpl.
  - case_bool_decide; simpl.
    + assert ({[d]} ∪ promotedSites u = promotedSites u) as -> by set_solver.
      case_match; done.
    + case_match; done.
  - case_match; done.
Qed.

Lemma getVisitCount_trackVisit (d d' : string) (u : t) :
  getVisitCount d' (trackVisit d u) =
    if enabled u && bool_decide (d = d') then getVisitCount d' u + 1
    else getVisitCount d' u.
Proof.
  unfold getVisitCount at 1. rewrite trackVisit_counts.
  destruct (enabled u); simpl; [|done].
  case_bool_decide as E.
  - subst. by rewrite lookup_insert_eq.
  - by rewrite lookup_insert_ne.
Qed.

(** No call removes a domain from the promoted set. *)
Lemma isPromoted_call (d : string) (u : t) (c : Call) :
  isPromoted d u = true -> isPromoted d (call u c) = true.
Proof.
  unfold isPromoted. intros H%bool_decide_eq_true. apply bool_decide_eq_true.
  destruct c as [d'|b]; simpl; [|done].
  rewrite trackVisit_promoted. case_match; set_solver.
Qed.

Lemma isPromoted_calls (d : string) (cs : list Call) (u : t) :
  isPromoted d u = true -> isPromoted d (calls cs u) = true.
Proof.
  revert u. induction cs as [|c cs IH]; intros u H; [done|].
  simpl. apply IH. by apply isPromoted_call.
Qed.

(** No call lowers a counter, and a call raises it by one at most. *)
Lemma getVisitCount_call (d : string) (u : t) (c : Call) :
  getVisitCount d u <= getVisitCount d (call u c) <= getVisitCount d u + 1.
Proof.
  destruct c as [d'|b]; simpl; [|unfold getVisitCount; simpl; lia].
  rewrite getVisitCount_trackVisit. case_match; lia.
Qed.

Lemma promotedSince_start (d : string) (u : t) :
  isPromoted d u = false ->
  promotedSince (promotionThreshold u) (getVisitCount d u) d u.
Proof.
  unfold isPromoted. intros H%bool_decide_eq_false.
  split_and!; [done|done|]. split; [done|lia].
Qed.

Lemma promotedSince_call (T c0 : nat) (d : string) (u : t) (c : Call) :
  promotedSince T c0 d u -> promotedSince T c0 d (call u c).
Proof.
  intros (HT & Hc0 & Hinv). destruct c as [d'|b]; simpl; [|by split_and!].
  split_and!; [by rewrite trackVisit_threshold| |].
  - rewrite getVisitCount_trackVisit. case_match; lia.
  - rewrite trackVisit_promoted, getVisitCount_trackVisit, HT.
    destruct (enabled u); simpl; [|apply Hinv].
    case_bool_decide as E.
    + subst d'. destruct (Nat.leb_spec T (getVisitCount d u + 1)).
      * split; [lia|set_solver].
      * rewrite Hinv. lia.
    + destruct (Nat.leb_spec T (getVisitCount d' u + 1)).
      * rewrite <- Hinv. set_solver.
      * apply Hinv.
Qed.

Lemma promotedSince_calls (T c0 : nat) (d : string) (cs : list Call) (u : t) :
  promotedSince T c0 d u -> promotedSince T c0 d (calls cs u).
Proof.
  revert u. induction cs as [|c cs IH]; intros u H; [done|].
  simpl. apply IH. by apply promotedSince_call.
Qed.

(** While learning is on, every visit is counted. *)
Lemma getVisitCount_visits (d : string) (ds : list string) (u : t) :
  enabled u = true ->
  getVisitCount d (calls (TrackVisit <$> ds) u)
  = getVisitCount d u + length (filter (eq d) ds).
Proof.
  revert u. induction ds as [|d' ds IH]; intros u He; simpl; [lia|].
  rewrite IH by (by rewrite trackVisit_enabled).
  rewrite getVisitCount_trackVisit, He, filter_cons. simpl.
  case_bool_decide as E; destruct (decide (d = d')) as [E'|E']; simpl;
    try lia; congruence.
Qed.

(** C8. Promotion is monotone.  For any learner, new or restored by
    [init], and any sequence of [trackVisit] (and [setEnabled]) calls: a
    promoted domain stays promoted whatever calls follow; a domain that is
    not promoted is promoted afterwards exactly when a counted visit has
    left its count at the threshold or above; and a visit, while learning is
    on, adds one to the count of its domain.  On a new learner the count of
    a domain is the number of its visits and, with a threshold of at least
    one, the domain is promoted exactly when it has been visited as often
    as the threshold says: promotion comes with the visit that brings the
    count to the threshold. *)
Theorem promotion_monotone (u : t) (T : nat) (ws : list bool)
    (cs more : list Call) (ds : list string) (d : string) :
  (isPromoted d (calls cs u) = true ->
   isPromoted d (calls more (calls cs u)) = true)
  /\ (isPromoted d u = false ->
      (isPromoted d (calls cs u) = true
       <-> getVisitCount d u < getVisitCount d (calls cs u)
           /\ promotionThreshold u <= getVisitCount d (calls cs u)))
  /\ (enabled u = true ->
      getVisitCount d (trackVisit d u) = getVisitCount d u + 1)
  /\ getVisitCount d (calls (TrackVisit <$> ds) (new T ws))
     = length (filter (eq d) ds)
  /\ (0 < T ->
      (isPromoted d (calls (TrackVisit <$> ds) (new T ws)) = true
       <-> T <= length (filter (eq d) ds))).
Proof.
  assert (getVisitCount d (calls (TrackVisit <$> ds) (new T ws))
          = length (filter (eq d) ds)) as Hcount.
  { rewrite getVisitCount_visits by done. unfold getVisitCount. simpl.
    by rewrite lookup_empty. }
  split_and!.
  - apply isPromoted_calls.
  - intros Hnot.
    destruct (promotedSince_calls _ _ d cs u (promotedSince_start d u Hnot))
      as (_ & _ & H).
    unfold isPromoted at 1. rewrite bool_decide_eq_true. apply H.
  - intros He. rewrite getVisitCount_trackVisit, He. simpl.
    by rewrite bool_decide_eq_true_2.
  - exact Hcount.
  - intros HT.
    destruct (promotedSince_calls T 0 d (TrackVisit <$> ds) (new T ws))
      as (_ & _ & H).
    { split_and!; [done|lia|]. unfold getVisitCount. simpl.
      rewrite lookup_empty. simpl. split; [set_solver|lia]. }
    unfold isPromoted. rewrite bool_decide_eq_true, H, Hcount. lia.
Qed.

Lemma promotion_monotone_witness :
  isPromoted "nytimes.com"
    (calls (TrackVisit <$> ["nytimes.com"; "wsj.com"; "nytimes.com"; "nytimes.com";
                            "nytimes.com"; "nytimes.com"]) (new 5 [])) = true
  /\ getVisitCount "nytimes.com"
       (calls (TrackVisit <$> ["nytimes.com"; "wsj.com"; "nytimes.com"; "nytimes.com";
                               "nytimes.com"; "nytimes.com"]) (new 5 [])) = 5
  /\ isPromoted "nytimes.com"
       (calls [TrackVisit "wsj.com"; SetEnabled false; TrackVisit "ft.com"]
          (calls (TrackVisit <$> ["nytimes.com"; "wsj.com"; "nytimes.com";
                                  "nytimes.com"; "nytimes.com"; "nytimes.com"])
             (new 5 []))) = true.
Proof.
  destruct (promotion_monotone (new 5 []) 5 []
              (TrackVisit <$> ["nytimes.com"; "wsj.com"; "nytimes.com"; "nytimes.com";
                               "nytimes.com"; "nytimes.com"])
              [TrackVisit "wsj.com"; SetEnabled false; TrackVisit "ft.com"]
              ["nytimes.com"; "wsj.com"; "nytimes.com"; "nytimes.com";
               "nytimes.com"; "nytimes.com"]
              "nytimes.com") as (Hstays & _ & _ & Hcount & Hreached).
  assert (isPromoted "nytimes.com"
            (calls (TrackVisit <$> ["nytimes.com"; "wsj.com"; "nytimes.com";
                                    "nytimes.com"; "nytimes.com"; "nytimes.com"])
               (new 5 [])) = true) as Hpromoted.
  { apply Hreached; [lia|]. vm_compute. lia. }
  split_and!; [exact Hpromoted|exact Hcount|exact (Hstays Hpromoted)].
Defined.

(** Where the count and the threshold do not decide.  With a threshold of
    zero the count of a domain that was never visited is at the threshold
    from the start, and the domain is not promoted: promotion happens
    inside [trackVisit] only, so it comes with the first visit, at count
    one.  And a learner restored by [init] holds [nytimes.com] promoted at
    the count zero, and at the count one after a visit, below its threshold
    of five. *)
Example promotion_off_threshold :
  promotionThreshold (new 0 []) = 0
  /\ getVisitCount "nytimes.com" (calls [TrackVisit "wsj.com"] (new 0 [])) = 0
  /\ isPromoted "nytimes.com" (calls [TrackVisit "wsj.com"] (new 0 [])) = false
  /\ getVisitCount "nytimes.com"
       (calls [TrackVisit "wsj.com"; TrackVisit "nytimes.com"] (new 0 [])) = 1
  /\ isPromoted "nytimes.com"
       (calls [TrackVisit "wsj.com"; TrackVisit "nytimes.com"] (new 0 [])) = true
  /\ promotionThreshold restarted = 5
  /\ getVisitCount "nytimes.com" restarted = 0
  /\ isPromoted "nytimes.com" restarted = true
  /\ getVisitCount "nytimes.com" (calls [TrackVisit "nytimes.com"] restarted) = 1
  /\ isPromoted "nytimes.com" (calls [TrackVisit "nytimes.com"] restarted) = true.
Proof. split_and!; vm_compute; reflexivity. Qed.

(** Four visits do not promote, the fifth does, and the tenth persists. *)
Example promotion_at_five :
  isPromoted "nytimes.com"
    (calls (replicate 4 (TrackVisit "nytimes.com")) (new 5 [])) = false
  /\ isPromoted "nytimes.com"
       (calls (replicate 5 (TrackVisit "nytimes.com")) (new 5 [])) = true
  /\ usageData (storage (calls (replicate 9 (TrackVisit "nytimes.com")) (new 5 [])))
     = None
  /\ usageData (storage (calls (replicate 10 (TrackVisit "nytimes.com")) (new 5 [])))
     = Some {["nytimes.com" := 10]}.
Proof. split_and!; vm_compute; reflexivity. Qed.

(** C10. Once learning is switched off with [setEnabled(false)],
    [trackVisit] changes nothing: counters, promoted set and storage are
    those from before the calls, so [getVisitCount] and [isPromoted]
    answer as before. *)
Theorem trackVisit_disabled (u : t) (ds : list string) :
  calls (TrackVisit <$> ds) (setEnabled false u) = setEnabled false u
  /\ visitCounts (calls (TrackVisit <$> ds) (setEnabled false u)) = visitCounts u
  /\ promotedSites (calls (TrackVisit <$> ds) (setEnabled false u)) = promotedSites u
  /\ storage (calls (TrackVisit <$> ds) (setEnabled false u)) = storage u
  /\ (forall d,
        getVisitCount d (calls (TrackVisit <$> ds) (setEnabled false u))
          = getVisitCount d u
        /\ isPromoted d (calls (TrackVisit <$> ds) (setEnabled false u))
          = isPromoted d u).
Proof.
  assert (calls (TrackVisit <$> ds) (setEnabled false u) = setEnabled false u) as ->.
  { induction ds as [|d ds IH]; [done|]. simpl. exact IH. }
  done.
Qed.

End UsageLearnerFacts.

(** ** The insertion-ordered map *)
Module JsMapFacts.
Import JsMap.

Section Facts.
Context {V : Type}.
Implicit Types (m : t V) (k : string) (v : V).

Lemma get_None k m : get k m = None <-> k ∉ keys m.
Proof.
  induction m as [|[k' v'] m IH]; simpl.
  - split; [intros _; apply not_elem_of_nil|done].
  - destruct (String.eqb_spec k' k) as [->|Hne].
    + split; [done|]. intros H. exfalso. apply H. apply list_elem_of_here.
    + rewrite IH. rewrite not_elem_of_cons. naive_solver.
Qed.


(** [set] on an absent key appends. *)
Lemma set_absent k v m : get k m = None -> set k v m = m ++ [(k, v)].
Proof.
  induction m as [|[k' v'] m IH]; simpl; [done|].
  destruct (String.eqb k' k); [done|]. intros H. by rewrite IH.
Qed.

Lemma get_set_eq k v m : get k (set k v m) = Some v.
Proof.
  induction m as [|[k' v'] m IH]; simpl.
  - by rewrite String.eqb_refl.
  - destruct (String.eqb k' k) eqn:E; simpl; by rewrite E.
Qed.


Lemma get_app_l k m1 m2 :
  get k (m1 ++ m2) = match get k m1 with Some v => Some v | None => get k m2 end.
Proof.
  induction m1 as [|[k0 v0] m1 IH]; simpl; [done|].
  by destruct (String.eqb k0 k).
Qed.

Lemma delete_absent k m : k ∉ keys m -> delete k m = m.
Proof.
  induction m as [|[k' v'] m IH]; simpl; [done|].
  rewrite not_elem_of_cons. intros [Hne Hn].
  destruct (String.eqb_spec k' k); [congruence|]. by rewrite IH.
Qed.

(** Deleting the oldest key of a map drops its first entry. *)
Lemma delete_first k v m : NoDup (keys ((k, v) :: m)) -> delete k ((k, v) :: m) = m.
Proof.
  simpl. rewrite String.eqb_refl. intros H%NoDup_cons. apply delete_absent, H.
Qed.

Lemma get_delete_ne k k' m : k <> k' -> get k' (delete k m) = get k' m.
Proof.
  intros Hne. induction m as [|[k0 v0] m IH]; simpl; [done|].
  destruct (String.eqb_spec k0 k) as [->|]; simpl.
  - destruct (String.eqb_spec k k'); [done|]. apply IH.
  - by rewrite IH.
Qed.

Lemma get_delete_None k k' m : get k' m = None -> get k' (delete k m) = None.
Proof.
  induction m as [|[k0 v0] m IH]; simpl; [done|].
  destruct (String.eqb_spec k0 k'); [done|]. intros H.
  destruct (String.eqb k0 k); simpl; [by apply IH|].
  destruct (String.eqb_spec k0 k'); [done|]. by apply IH.
Qed.


End Facts.
End JsMapFacts.

(** ** RegexCache *)
Module RegexCacheFacts.
Import RegexCache JsMapFacts Aux.

Section Facts.
Context {B : RegExpBuiltin}.
Implicit Types (c : t) (p : Pattern) (u url : string).

(** [compile] reads and writes the table of compiled patterns only. *)
Lemma compile_results p c :
  matchResults (compile p c).2 = matchResults c
  /\ maxCacheSize (compile p c).2 = maxCacheSize c.
Proof.
  destruct p as [|s|r]; simpl; [done| |].
  - destruct (String.eqb s ""); [done|].
    destruct (cache c !! s); [done|]. by destruct (regexp_new s).
  - by destruct (cache c !! (source r +:+ flags r)).
Qed.

Lemma test_maxCacheSize p u c : maxCacheSize (test p u c).2 = maxCacheSize c.
Proof.
  unfold test. pose proof (compile_results p c) as [_ Hm].
  destruct (compile p c) as [[compiled|] c1]; simpl in *; [|done].
  by destruct (JsMap.get _ _).
Qed.

(** A call that inserts nothing leaves the result map as it was. *)
Lemma test_no_insertion p u c :
  inserted p u c = None -> matchResults (test p u c).2 = matchResults c.
Proof.
  unfold inserted, test. pose proof (compile_results p c) as [Hr _].
  destruct (compile p c) as [[compiled|] c1]; simpl in *; [|done].
  by destruct (JsMap.get _ _).
Qed.

Lemma evict_ext c c' :
  matchResults c' = matchResults c -> maxCacheSize c' = maxCacheSize c ->
  evict c' = evict c.
Proof. unfold evict. by intros -> ->. Qed.

(** A call that inserts [k] found [k] absent, and the result map after
    it is the map after eviction with [k] appended; the boolean stored
    is the one returned. *)
Lemma test_insertion p u c k :
  inserted p u c = Some k ->
  JsMap.get k (matchResults c) = None
  /\ matchResults (test p u c).2 = JsMap.set k (test p u c).1 (evict c).
Proof.
  unfold inserted, test.
  pose proof (compile_results p c) as [Hr Hm].
  destruct (compile p c) as [[compiled|] c1]; simpl in *; [|done].
  destruct (JsMap.get _ (matchResults c1)) eqn:E; [done|].
  intros [= <-]. rewrite <- Hr. split; [done|]. simpl.
  by rewrite (evict_ext c c1).
Qed.

Lemma evict_keys c :
  0 < maxCacheSize c ->
  NoDup (JsMap.keys (matchResults c)) ->
  JsMap.size (matchResults c) <= maxCacheSize c ->
  JsMap.keys (evict c)
  = drop (S (JsMap.size (matchResults c)) - maxCacheSize c)
      (JsMap.keys (matchResults c)).
Proof.
  intros Hpos Hnd Hsz. unfold evict.
  destruct (Nat.leb_spec (maxCacheSize c) (JsMap.size (matchResults c))) as [Hle|Hlt].
  - assert (S (JsMap.size (matchResults c)) - maxCacheSize c = 1) as -> by lia.
    destruct (matchResults c) as [|[k0 v0] m] eqn:E; simpl in *; [lia|].
    rewrite String.eqb_refl. rewrite delete_absent; [by rewrite drop_0|].
    by apply NoDup_cons in Hnd as [? _].
  - by assert (S (JsMap.size (matchResults c)) - maxCacheSize c = 0) as -> by lia.
Qed.

Lemma get_evict_None k c :
  JsMap.get k (matchResults c) = None -> JsMap.get k (evict c) = None.
Proof.
  intros H. unfold evict. destruct (_ <=? _)%nat; [|done].
  destruct (JsMap.first_key _); [|done]. by apply get_delete_None.
Qed.

Lemma test_keys p u c :
  0 < maxCacheSize c -> bounded c ->
  JsMap.keys (matchResults (test p u c).2)
  = match inserted p u c with
    | Some k =>
        drop (S (JsMap.size (matchResults c)) - maxCacheSize c)
          (JsMap.keys (matchResults c) ++ [k])
    | None => JsMap.keys (matchResults c)
    end.
Proof.
  intros Hpos [Hnd Hsz]. destruct (inserted p u c) as [k|] eqn:E.
  - apply test_insertion in E as [Habs ->].
    rewrite set_absent by (by apply get_evict_None).
    unfold JsMap.keys at 1. rewrite fmap_app. simpl.
    change ((evict c).*1) with (JsMap.keys (evict c)).
    rewrite evict_keys by done. simpl.
    rewrite drop_app_le; [done|].
    unfold JsMap.keys, JsMap.size in *. rewrite length_fmap. lia.
  - by rewrite test_no_insertion.
Qed.

Lemma test_bounded p u c :
  0 < maxCacheSize c -> bounded c -> bounded (test p u c).2.
Proof.
  intros Hpos Hb. pose proof (test_keys p u c Hpos Hb) as Hk.
  destruct Hb as [Hnd Hsz]. unfold bounded. rewrite test_maxCacheSize.
  assert (JsMap.size (matchResults (test p u c).2)
          = length (JsMap.keys (matchResults (test p u c).2))) as ->.
  { unfold JsMap.size, JsMap.keys. by rewrite length_fmap. }
  rewrite Hk. destruct (inserted p u c) as [k|] eqn:E.
  - apply test_insertion in E as [Habs%get_None _]. split.
    + apply (sublist_NoDup _ (JsMap.keys (matchResults c) ++ [k]));
        [|apply sublist_drop].
      apply NoDup_app. split_and!; [done| |apply NoDup_singleton].
      intros x Hx ->%list_elem_of_singleton. done.
    + rewrite length_drop, length_app. simpl.
      unfold JsMap.size, JsMap.keys in *. rewrite length_fmap. lia.
  - split; [done|]. unfold JsMap.size, JsMap.keys in *.
    by rewrite length_fmap.
Qed.

(** After any sequence of calls the keys held are the last
    [maxCacheSize] of the keys held at the start followed by the keys
    inserted, in that order. *)
Lemma run_keys (calls : list (Pattern * string)) c :
  0 < maxCacheSize c -> bounded c ->
  bounded (run calls c)
  /\ maxCacheSize (run calls c) = maxCacheSize c
  /\ JsMap.keys (matchResults (run calls c))
     = drop (length (JsMap.keys (matchResults c) ++ insertions calls c)
             - maxCacheSize c)
         (JsMap.keys (matchResults c) ++ insertions calls c).
Proof.
  revert c. induction calls as [|[p u] calls IH]; intros c Hpos Hb.
  - simpl. split_and!; [done..|]. rewrite app_nil_r.
    destruct Hb as [_ Hsz]. unfold JsMap.size, JsMap.keys in *.
    rewrite length_fmap.
    by assert (length (matchResults c) - maxCacheSize c = 0) as -> by lia.
  - simpl. pose proof (test_keys p u c Hpos Hb) as Hk.
    pose proof (test_bounded p u c Hpos Hb) as Hb'.
    pose proof (test_maxCacheSize p u c) as Hm.
    destruct (IH (test p u c).2) as (Hb2 & Hm2 & Hk2); [lia|done|].
    split_and!; [done|congruence|]. rewrite Hk2, Hm, Hk.
    destruct Hb as [_ Hsz]. unfold JsMap.size, JsMap.keys in *.
    destruct (inserted p u c) as [k|]; [|done].
    set (old := (matchResults c).*1) in *.
    set (ins := insertions calls (test p u c).2).
    assert (length old = length (matchResults c)) as Hlen
      by (unfold old; by rewrite length_fmap).
    rewrite <- Hlen in *.
    rewrite <- drop_app_le by (rewrite length_app; simpl; lia).
    rewrite drop_drop, length_drop.
    rewrite <- (assoc_L (++) old [k] ins). simpl.
    f_equal. rewrite !length_app. simpl. lia.
Qed.

Lemma bounded_new (max : nat) : bounded (new max).
Proof. split; simpl; [apply NoDup_nil_2|lia]. Qed.

(** C5. With a bound of at least one, after any sequence of [test]
    calls on a fresh cache the result map holds no more entries than the
    bound, and its keys are the last [bound] keys inserted, in insertion
    order: the keys that were evicted are the earliest inserted. *)
Theorem eviction_bound (max : nat) (calls : list (Pattern * string)) :
  0 < max ->
  JsMap.size (matchResults (run calls (new max))) <= max
  /\ JsMap.keys (matchResults (run calls (new max)))
     = drop (length (insertions calls (new max)) - max)
         (insertions calls (new max))
  /\ insertions calls (new max)
     = take (length (insertions calls (new max)) - max)
         (insertions calls (new max))
       ++ JsMap.keys (matchResults (run calls (new max))).
Proof.
  intros Hpos.
  destruct (run_keys calls (new max)) as ([_ Hsz] & Hm & Hk);
    [done|apply bounded_new|].
  simpl in *. rewrite Hm in Hsz. split_and!; [done|done|].
  rewrite Hk. by rewrite take_drop.
Qed.

End Facts.
End RegexCacheFacts.

(** ** RegexCache: what [test] answers *)
Module RegexCacheVerdicts.
Import RegexCache JsMapFacts RegexCacheFacts Aux.

Section Facts.
Context {B : RegExpBuiltin}.
Implicit Types (c : t) (p : Pattern) (u url : string).

(** A pattern that does not compile is answered [false]. *)
Lemma test_uncompiled p u c :
  (compile p c).1 = None -> (test p u c).1 = false.
Proof. unfold test. destruct (compile p c) as [[r|] c1]; simpl; done. Qed.

(** On a miss the compiled pattern is evaluated on the url. *)
Lemma test_miss p u c compiled :
  (compile p c).1 = Some compiled ->
  JsMap.get (cacheKey compiled u) (matchResults c) = None ->
  (test p u c).1 = regexp_exec compiled u.
Proof.
  unfold test. pose proof (compile_results p c) as [Hr _].
  destruct (compile p c) as [[r|] c1]; simpl in *; [|done].
  intros [= ->]. rewrite Hr. by intros ->.
Qed.

(** On a hit the stored boolean is returned, whatever pattern and url
    it was stored for, and the cache is not written. *)
Lemma test_hit p u c compiled cached :
  (compile p c).1 = Some compiled ->
  JsMap.get (cacheKey compiled u) (matchResults c) = Some cached ->
  (test p u c).1 = cached
  /\ matchResults (test p u c).2 = matchResults c.
Proof.
  unfold test. pose proof (compile_results p c) as [Hr _].
  destruct (compile p c) as [[r|] c1]; simpl in *; [|done].
  intros [= ->]. rewrite Hr. by intros ->.
Qed.

(** After a miss the verdict is stored under [source::url]. *)
Lemma test_stores p u c compiled :
  (compile p c).1 = Some compiled ->
  JsMap.get (cacheKey compiled u) (matchResults c) = None ->
  JsMap.get (cacheKey compiled u) (matchResults (test p u c).2)
  = Some (regexp_exec compiled u).
Proof.
  unfold test. pose proof (compile_results p c) as [Hr _].
  destruct (compile p c) as [[r|] c1]; simpl in *; [|done].
  intros [= ->]. rewrite Hr. intros ->. simpl. apply get_set_eq.
Qed.

(** Two expressions with one source share their entries: on a fresh
    cache, the verdict of the first is served for the second. *)
Lemma test_same_source (r1 r2 : RegExp) u (max : nat) :
  0 < max -> source r1 = source r2 ->
  (test (PRegExp r2) u (test (PRegExp r1) u (new max)).2).1 = regexp_exec r1 u.
Proof.
  intros Hpos Hsrc. unfold test at 2. simpl.
  rewrite lookup_empty. simpl. rewrite lookup_insert_eq. simpl.
  unfold evict. simpl. destruct (Nat.leb_spec max 0) as [|_]; [lia|]. simpl.
  unfold test. simpl.
  destruct (decide (source r1 +:+ flags r1 = source r2 +:+ flags r2)) as [E|E].
  - rewrite <- E, lookup_insert_eq. simpl.
    rewrite lookup_insert_eq. simpl. by rewrite String.eqb_refl.
  - rewrite lookup_insert_ne by done. rewrite lookup_empty. simpl.
    rewrite lookup_insert_eq. simpl. unfold cacheKey. rewrite Hsrc.
    by rewrite String.eqb_refl.
Qed.

End Facts.

(** C3, on the code.  After [test(/A/i, "a")], which is [true], the call
    [test(/A/, "a")] finds the entry ["A::a"] and answers [true], although
    [/A/] compiles to itself and does not match ["a"]. *)
Theorem test_answers_for_other_flags :
  (test (B := LiteralRegExp.builtin) (PRegExp A_i) "a" default).1 = true
  /\ matchResults afterFirst = [("A::a", true)]
  /\ (compile (B := LiteralRegExp.builtin) (PRegExp A_) afterFirst).1 = Some A_
  /\ regexp_exec (RegExpBuiltin := LiteralRegExp.builtin) A_ "a" = false
  /\ (test (B := LiteralRegExp.builtin) (PRegExp A_) "a" afterFirst).1 = true.
Proof. split_and!; vm_compute; reflexivity. Qed.

(** The same on two pattern strings: the key of (["x"], ["y::x"]) is the
    key of (["x::y"], ["x"]). *)
Example test_answers_for_other_url :
  let c1 := (test (B := LiteralRegExp.builtin) (PString "x") "y::x" default).2 in
  matchResults c1 = [("x::y::x", true)]
  /\ (compile (B := LiteralRegExp.builtin) (PString "x::y") c1).1
     = Some (mkRegExp "x::y" "")
  /\ regexp_exec (RegExpBuiltin := LiteralRegExp.builtin) (mkRegExp "x::y" "") "x" = false
  /\ (test (B := LiteralRegExp.builtin) (PString "x::y") "x" c1).1 = true.
Proof. split_and!; vm_compute; reflexivity. Qed.

Lemma eviction_bound_witness :
  0 < 2
  /\ JsMap.keys (matchResults
       (run (B := LiteralRegExp.builtin)
          [(PString "a", "u1"); (PString "a", "u2"); (PString "a", "u1");
           (PString "a", "u3")] (new 2)))
     = drop (length (insertions (B := LiteralRegExp.builtin)
          [(PString "a", "u1"); (PString "a", "u2"); (PString "a", "u1");
           (PString "a", "u3")] (new 2)) - 2)
         (insertions (B := LiteralRegExp.builtin)
          [(PString "a", "u1"); (PString "a", "u2"); (PString "a", "u1");
           (PString "a", "u3")] (new 2)).
Proof.
  split; [lia|].
  apply (RegexCacheFacts.eviction_bound (B := LiteralRegExp.builtin) 2
           [(PString "a", "u1"); (PString "a", "u2"); (PString "a", "u1");
            (PString "a", "u3")]). lia.
Defined.

(** Three keys through a cache of two: the first one inserted is the one
    that is gone; the hit on [u1] in between did not refresh it. *)
Example eviction_order :
  insertions (B := LiteralRegExp.builtin)
    [(PString "a", "u1"); (PString "a", "u2"); (PString "a", "u1");
     (PString "a", "u3")] (new 2) = ["a::u1"; "a::u2"; "a::u3"]
  /\ JsMap.keys (matchResults
       (run (B := LiteralRegExp.builtin)
          [(PString "a", "u1"); (PString "a", "u2"); (PString "a", "u1");
           (PString "a", "u3")] (new 2))) = ["a::u2"; "a::u3"].
Proof. split; vm_compute; reflexivity. Qed.

(** With a bound of zero the bound is exceeded: [test] evicts before it
    inserts, so the entry of the call itself is in the map when the call
    returns, one more than the bound allows. *)
Example eviction_bound_zero :
  maxCacheSize (run (B := LiteralRegExp.builtin) [(PString "a", "u1")] (new 0)) = 0
  /\ insertions (B := LiteralRegExp.builtin) [(PString "a", "u1")] (new 0)
     = ["a::u1"]
  /\ JsMap.keys (matchResults
       (run (B := LiteralRegExp.builtin) [(PString "a", "u1")] (new 0)))
     = ["a::u1"]
  /\ JsMap.size (matchResults
       (run (B := LiteralRegExp.builtin) [(PString "a", "u1")] (new 0))) = 1.
Proof. split_and!; vm_compute; reflexivity. Qed.

End RegexCacheVerdicts.

(** ** SiteIndexes: the lookup tables *)
Module SiteIndexesTables.
Import SiteIndexes Aux.

Section Writes.
Context {V : Type}.
Implicit Types (m : gmap string V) (l : list (string * V)).

Lemma setAll_app l1 l2 m : setAll (l1 ++ l2) m = setAll l2 (setAll l1 m).
Proof. unfold setAll. by rewrite foldl_app. Qed.

Lemma lastWrite_app k l1 l2 :
  lastWrite k (l1 ++ l2)
  = match lastWrite k l2 with Some v => Some v | None => lastWrite k l1 end.
Proof.
  induction l1 as [|[k' v] l1 IH]; simpl.
  - by destruct (lastWrite k l2).
  - rewrite IH. destruct (lastWrite k l2); [done|]. done.
Qed.

(** A table after a list of writes: the last write to the key, or what the
    table held. *)
Lemma lookup_setAll k l m :
  setAll l m !! k = match lastWrite k l with Some v => Some v | None => m !! k end.
Proof.
  revert m. induction l as [|[k' v] l IH] using rev_ind; intros m; [done|].
  rewrite setAll_app, lastWrite_app. simpl.
  destruct (String.eqb_spec k' k) as [->|Hne].
  - by rewrite lookup_insert_eq.
  - rewrite lookup_insert_ne by done. apply IH.
Qed.

(** Writing a list twice is writing it once. *)
Lemma setAll_twice l m : setAll l (setAll l m) = setAll l m.
Proof.
  apply map_eq. intros k. rewrite !lookup_setAll.
  by destruct (lastWrite k l).
Qed.

Lemma setAll_keeps k l m : is_Some (m !! k) -> is_Some (setAll l m !! k).
Proof.
  intros H. rewrite lookup_setAll. by destruct (lastWrite k l).
Qed.

Lemma lastWrite_Some_elem k v l : lastWrite k l = Some v -> (k, v) ∈ l.
Proof.
  induction l as [|[k' v'] l IH]; simpl; [done|].
  destruct (lastWrite k l) as [w|].
  - intros [= ->]. apply list_elem_of_further. by apply IH.
  - destruct (String.eqb_spec k' k) as [->|]; [|done].
    intros [= ->]. apply list_elem_of_here.
Qed.

End Writes.

Section Facts.
Context {B : RegExpBuiltin}.
Implicit Types (st : State) (s : t) (config : Config) (d url : string).

Lemma indexDomain_core config d st : sameCore st.1 (indexDomain config d st).1.
Proof.
  unfold indexDomain, setBlockRule, setCookieRules, setUserAgent. simpl.
  destruct (useragent config) as [ua|]; [destruct (ua_truthy _)|];
    (destruct (pattern_truthy _); [destruct (RegexCache.compile _ _) as [[?|] ?]|]);
    by repeat split.
Qed.

Lemma indexFeatures_core config st : sameCore st.1 (indexFeatures config st).1.
Proof.
  unfold indexFeatures. destruct (negb _); [by repeat split|].
  generalize (match group config with
              | Some g => g
              | None => [default "" (domain config)]
              end). intros ds.
  induction ds as [|d ds IH] using rev_ind; [by repeat split|].
  rewrite foldl_app. simpl.
  destruct IH as (?&?&?&?&?).
  destruct (indexDomain_core config d
              (foldl (fun st d => indexDomain config d st) st ds)) as (?&?&?&?&?).
  repeat split; congruence.
Qed.

Lemma registerGroup_tables siteName config g s :
  domainMap (registerGroup siteName config g s) = domainMap s
  /\ groupMap (registerGroup siteName config g s)
     = setAll ((fun d => (d, siteName)) <$> g) (groupMap s)
  /\ groupConfigs (registerGroup siteName config g s)
     = <[siteName := config]> (groupConfigs s)
  /\ indexedDomains (registerGroup siteName config g s)
     = list_to_set g ∪ indexedDomains s.
Proof.
  unfold registerGroup. simpl.
  revert s. induction g as [|d g IH]; intros s.
  - simpl. split_and!; [done..|]. set_solver.
  - simpl. destruct (IH (registerGroupDomain siteName s d)) as (H1&H2&H3&H4).
    rewrite H1, H2, H3, H4. simpl. split_and!; [done..|]. set_solver.
Qed.

(** One entry of the catalog, as writes to the four tables. *)
Lemma buildEntry_tables st (entry : string * Config) :
  domainMap (buildEntry st entry).1 = setAll (domainWrites entry) (domainMap st.1)
  /\ groupMap (buildEntry st entry).1 = setAll (groupWrites entry) (groupMap st.1)
  /\ groupConfigs (buildEntry st entry).1
     = setAll (groupConfigWrites entry) (groupConfigs st.1)
  /\ indexedDomains (buildEntry st entry).1
     = list_to_set (registered entry) ∪ indexedDomains st.1.
Proof.
  destruct entry as [siteName config].
  unfold buildEntry, domainWrites, groupWrites, groupConfigWrites, registered,
    domainWrites, groupWrites. simpl.
  destruct (isMetadata config) eqn:Em; simpl.
  { split_and!; [done..|]. set_solver. }
  destruct (indexFeatures_core config (register siteName config st.1, st.2))
    as (H1&H2&H3&H4&_). simpl in *. rewrite H1, H2, H3, H4.
  unfold register. destruct (group config) as [g|].
  - destruct (registerGroup_tables siteName config g st.1) as (G1&G2&G3&G4).
    rewrite G1, G2, G3, G4. split_and!; [done..|].
    rewrite <- list_fmap_compose. simpl.
    f_equal. f_equal. clear. induction g as [|d g IH]; simpl; [done|].
    by f_equal.
  - destruct (domain config) as [d|]; simpl.
    + destruct (negb (String.eqb d "")); simpl; split_and!; try done; set_solver.
    + split_and!; [done..|]. set_solver.
Qed.

(** The whole catalog, as writes to the four tables. *)
Lemma buildIndexes_tables (siteConfigs : Catalog) st :
  domainMap (buildIndexes siteConfigs st).1
  = setAll (siteConfigs ≫= domainWrites) (domainMap st.1)
  /\ groupMap (buildIndexes siteConfigs st).1
     = setAll (siteConfigs ≫= groupWrites) (groupMap st.1)
  /\ groupConfigs (buildIndexes siteConfigs st).1
     = setAll (siteConfigs ≫= groupConfigWrites) (groupConfigs st.1)
  /\ indexedDomains (buildIndexes siteConfigs st).1
     = list_to_set (siteConfigs ≫= registered) ∪ indexedDomains st.1.
Proof.
  unfold buildIndexes. revert st.
  induction siteConfigs as [|entry rest IH]; intros st.
  - simpl. split_and!; [done..|]. set_solver.
  - simpl. destruct (IH (buildEntry st entry)) as (H1&H2&H3&H4).
    destruct (buildEntry_tables st entry) as (E1&E2&E3&E4).
    rewrite H1, H2, H3, H4, E1, E2, E3, E4.
    rewrite !setAll_app. split_and!; [done..|].
    rewrite list_to_set_app_L. clear. set_solver.
Qed.

(** Building the same catalog twice leaves the four tables as building it
    once did. *)
Lemma buildIndexes_twice_tables (siteConfigs : Catalog) st :
  let once := buildIndexes siteConfigs st in
  let twice := buildIndexes siteConfigs once in
  domainMap twice.1 = domainMap once.1
  /\ groupMap twice.1 = groupMap once.1
  /\ groupConfigs twice.1 = groupConfigs once.1
  /\ indexedDomains twice.1 = indexedDomains once.1.
Proof.
  simpl.
  destruct (buildIndexes_tables siteConfigs (buildIndexes siteConfigs st))
    as (H1&H2&H3&H4).
  destruct (buildIndexes_tables siteConfigs st) as (E1&E2&E3&E4).
  rewrite H1, H2, H3, H4, E1, E2, E3, E4.
  rewrite !setAll_twice. split_and!; [done..|]. clear. set_solver.
Qed.

(** [getSiteConfig] and [hasDomain] read the four tables only. *)
Lemma buildIndexes_twice_lookups (siteConfigs : Catalog) st d :
  getSiteConfig d (buildIndexes siteConfigs (buildIndexes siteConfigs st)).1
  = getSiteConfig d (buildIndexes siteConfigs st).1
  /\ hasDomain d (buildIndexes siteConfigs (buildIndexes siteConfigs st)).1
     = hasDomain d (buildIndexes siteConfigs st).1.
Proof.
  destruct (buildIndexes_twice_tables siteConfigs st) as (H1&H2&H3&H4).
  simpl in *. unfold getSiteConfig, hasDomain. by rewrite H1, H2, H3, H4.
Qed.

(** A further build keeps every indexed domain indexed. *)
Lemma buildIndexes_keeps_domain (partition : Catalog) st d :
  hasDomain d st.1 = true -> hasDomain d (buildIndexes partition st).1 = true.
Proof.
  unfold hasDomain. rewrite !bool_decide_eq_true.
  destruct (buildIndexes_tables partition st) as (_&_&_&->). set_solver.
Qed.

Lemma groupsResolve_new : groupsResolve new.
Proof. intros d g. simpl. by rewrite lookup_empty. Qed.

Lemma groupWrites_resolve (siteConfigs : Catalog) d g :
  lastWrite d (siteConfigs ≫= groupWrites) = Some g ->
  is_Some (lastWrite g (siteConfigs ≫= groupConfigWrites)).
Proof.
  intros H%lastWrite_Some_elem. apply list_elem_of_bind in H as (entry & Hin & He).
  destruct (list_elem_of_split _ _ He) as (l1 & l2 & ->).
  rewrite bind_app, bind_cons, !lastWrite_app.
  destruct (lastWrite g (l2 ≫= groupConfigWrites)); [done|].
  unfold groupWrites, groupConfigWrites in *.
  destruct (isMetadata entry.2); [by apply elem_of_nil in Hin|].
  destruct (group entry.2) as [grp|]; [|by apply elem_of_nil in Hin].
  apply list_elem_of_fmap in Hin as (d' & [= -> ->] & _).
  simpl. by rewrite String.eqb_refl.
Qed.

Lemma buildIndexes_groupsResolve (siteConfigs : Catalog) st :
  groupsResolve st.1 -> groupsResolve (buildIndexes siteConfigs st).1.
Proof.
  intros Hinv d g. destruct (buildIndexes_tables siteConfigs st) as (_&->&->&_).
  rewrite !lookup_setAll.
  destruct (lastWrite d (siteConfigs ≫= groupWrites)) as [g'|] eqn:E.
  - intros [= ->]. apply groupWrites_resolve in E as [c ->]. done.
  - intros H. apply Hinv in H.
    by destruct (lastWrite g (siteConfigs ≫= groupConfigWrites)).
Qed.

(** A further build keeps every domain that resolved to a configuration
    resolving to one. *)
Lemma buildIndexes_keeps_config (partition : Catalog) st d :
  groupsResolve st.1 ->
  is_Some (getSiteConfig d st.1) ->
  is_Some (getSiteConfig d (buildIndexes partition st).1).
Proof.
  intros Hinv. pose proof (buildIndexes_groupsResolve partition st Hinv) as Hinv'.
  unfold getSiteConfig.
  destruct (buildIndexes_tables partition st) as (H1&H2&_&_).
  destruct (domainMap st.1 !! d) as [c|] eqn:Ed.
  - intros _. destruct (setAll_keeps d (partition ≫= domainWrites) (domainMap st.1))
      as [c' Hc']; [by rewrite Ed|].
    rewrite H1, Hc'. done.
  - destruct (groupMap st.1 !! d) as [g|] eqn:Eg; [|by intros [? ?]].
    intros _.
    destruct (domainMap (buildIndexes partition st).1 !! d); [done|].
    destruct (setAll_keeps d (partition ≫= groupWrites) (groupMap st.1))
      as [g' Hg']; [by rewrite Eg|].
    rewrite H2, Hg'. apply (Hinv' d g'). by rewrite H2.
Qed.

End Facts.
End SiteIndexesTables.

(** ** SiteIndexes: block rules *)
Module SiteIndexesBlocking.
Import SiteIndexes Aux.

Section Facts.
Context {B : RegExpBuiltin}.
Implicit Types (st : State) (rc : RegexCache.t) (rules : list RegExp) (url : string).

Lemma tested_snoc rules r url rc :
  tested (rules ++ [r]) url rc
  = (RegexCache.test (PRegExp r) url (tested rules url rc)).2.
Proof. unfold tested. by rewrite foldl_app. Qed.

(** No rule is answered [true] at its turn: the loop tests them all and
    returns [false]. *)
Lemma anyMatch_none rules url rc :
  (forall i r, rules !! i = Some r ->
               verdict r url (tested (take i rules) url rc) = false) ->
  anyMatch rules url rc = (false, tested rules url rc).
Proof.
  revert rc. induction rules as [|r rules IH]; intros rc H; [done|].
  simpl. pose proof (H 0 r eq_refl) as H0. unfold verdict in H0. simpl in H0.
  destruct (RegexCache.test (PRegExp r) url rc) as [hit rc'] eqn:E.
  simpl in H0. subst hit. rewrite IH.
  - unfold tested; simpl; rewrite ?E; done.
  - intros i q Hq. specialize (H (S i) q Hq). simpl in H.
    unfold tested in H; simpl in H; rewrite ?E in H; done.
Qed.

(** The first rule answered [true] ends the loop: the rules after it are
    not tested. *)
Lemma anyMatch_first rules url rc i r :
  rules !! i = Some r ->
  (forall j q, j < i -> rules !! j = Some q ->
               verdict q url (tested (take j rules) url rc) = false) ->
  verdict r url (tested (take i rules) url rc) = true ->
  anyMatch rules url rc = (true, tested (take (S i) rules) url rc).
Proof.
  revert rc i. induction rules as [|r0 rules IH]; intros rc i Hi Hbefore Hr; [done|].
  simpl. destruct i as [|i].
  - injection Hi as ->. unfold verdict in Hr. simpl in Hr.
    destruct (RegexCache.test (PRegExp r) url rc) as [hit rc'] eqn:E.
    simpl in Hr. subst hit. unfold tested. simpl. rewrite ?E, ?take_0; done.
  - pose proof (Hbefore 0 r0 ltac:(lia) eq_refl) as H0.
    unfold verdict in H0. simpl in H0.
    destruct (RegexCache.test (PRegExp r0) url rc) as [hit rc'] eqn:E.
    simpl in H0. subst hit. simpl in Hi. rewrite (IH rc' i Hi).
    + unfold tested; simpl; rewrite ?E; done.
    + intros j q Hj Hq. specialize (Hbefore (S j) q ltac:(lia) Hq).
      simpl in Hbefore; unfold tested in Hbefore; simpl in Hbefore;
      rewrite ?E in Hbefore; done.
    + simpl in Hr; unfold tested in Hr; simpl in Hr; rewrite ?E in Hr; done.
Qed.

(** The loop returns [true] exactly when some rule is answered [true] at
    its turn. *)
Lemma anyMatch_true rules url rc :
  (anyMatch rules url rc).1 = true
  <-> exists i r, rules !! i = Some r
        /\ verdict r url (tested (take i rules) url rc) = true
        /\ forall j q, j < i -> rules !! j = Some q ->
             verdict q url (tested (take j rules) url rc) = false.
Proof.
  split.
  - revert rc. induction rules as [|r0 rules IH]; intros rc; [done|].
    simpl. destruct (RegexCache.test (PRegExp r0) url rc) as [hit rc'] eqn:E.
    destruct hit.
    + intros _. exists 0, r0. split_and!; [done| |intros; lia].
      unfold verdict; simpl; rewrite ?E; done.
    + intros (i & r & Hi & Hr & Hb)%IH. exists (S i), r. split_and!; [done| |].
      * simpl. unfold tested; simpl; rewrite ?E; done.
      * intros [|j] q Hj Hq.
        -- injection Hq as <-. unfold verdict; simpl; rewrite ?E; done.
        -- simpl; unfold tested; simpl; rewrite ?E; apply Hb; [lia|done].
  - intros (i & r & Hi & Hr & Hb). by rewrite (anyMatch_first rules url rc i r).
Qed.

(** [shouldBlockRequest] on a domain: [false] at once when no block rule is
    registered for it; otherwise the domain's rules are put to the Pattern
    Cache in order, the first one answered [true] makes the result [true]
    and ends the loop, and the result is [false] when none is. *)
Lemma shouldBlockRequest_first_match (d url : string) st :
  (getBlockRules d st.1 = [] -> shouldBlockRequest d url st = (false, st.2))
  /\ (forall i r,
        getBlockRules d st.1 !! i = Some r ->
        (forall j q, j < i -> getBlockRules d st.1 !! j = Some q ->
           verdict q url (tested (take j (getBlockRules d st.1)) url st.2) = false) ->
        verdict r url (tested (take i (getBlockRules d st.1)) url st.2) = true ->
        shouldBlockRequest d url st
        = (true, tested (take (S i) (getBlockRules d st.1)) url st.2))
  /\ ((forall i r, getBlockRules d st.1 !! i = Some r ->
         verdict r url (tested (take i (getBlockRules d st.1)) url st.2) = false) ->
      shouldBlockRequest d url st = (false, tested (getBlockRules d st.1) url st.2)).
Proof.
  unfold shouldBlockRequest. split_and!.
  - by intros ->.
  - intros i r Hi Hb Hr. destruct (getBlockRules d st.1) as [|r0 rules] eqn:E; [done|].
    by apply (anyMatch_first _ _ _ i r).
  - intros H. destruct (getBlockRules d st.1) as [|r0 rules] eqn:E; [done|].
    by apply anyMatch_none.
Qed.

End Facts.

(** The scenario of the specification, on a fresh index and cache. *)
Example shouldBlock_nytimes :
  let st := buildIndexes (B := LiteralRegExp.builtin) nytCatalog fresh in
  (shouldBlockRequest (B := LiteralRegExp.builtin)
     "nytimes.com" "https://px.tinypass.com/xyz" st).1 = true
  /\ (shouldBlockRequest (B := LiteralRegExp.builtin)
        "nytimes.com" "https://nytimes.com/article" st).1 = false
  /\ (shouldBlockRequest (B := LiteralRegExp.builtin)
        "example.com" "https://px.tinypass.com/xyz" st).1 = false.
Proof. split_and!; vm_compute; reflexivity. Qed.

(** C7, on the code.  [x.com] blocks [/A/i], [y.com] blocks [/A/].  The
    request for ["a"] on [x.com] is blocked and leaves ["A::a"] in the
    Pattern Cache; the same request on [y.com] is then blocked as well,
    although the only pattern of [y.com] does not match ["a"]. *)
Theorem shouldBlockRequest_other_site_verdict :
  let st := buildIndexes (B := LiteralRegExp.builtin) flagsCatalog fresh in
  let first := shouldBlockRequest (B := LiteralRegExp.builtin) "x.com" "a" st in
  getBlockRules "y.com" st.1 = [A_]
  /\ regexp_exec (RegExpBuiltin := LiteralRegExp.builtin) A_ "a" = false
  /\ first.1 = true
  /\ (shouldBlockRequest (B := LiteralRegExp.builtin) "y.com" "a" (st.1, first.2)).1
     = true
  /\ (shouldBlockRequest (B := LiteralRegExp.builtin) "y.com" "a" st).1 = false.
Proof. split_and!; vm_compute; reflexivity. Qed.

End SiteIndexesBlocking.

(** ** SiteIndexes: the feature tables *)
Module SiteIndexesFeatures.
Import SiteIndexes Aux.

Section Facts.
Context {B : RegExpBuiltin}.
Implicit Types (st : State) (config : Config) (d : string).









End Facts.

(** C4, on the code.  The entry ["g"] declares the group [a.com], [b.com]
    with a user agent, a cookie directive and a block pattern, and no
    [domain].  [buildIndexes] registers both domains, and none of the three
    feature tables holds anything for them.  With a [domain] beside the
    group all three are there. *)
Theorem indexFeatures_skips_group_without_domain :
  let st := buildIndexes (B := LiteralRegExp.builtin) groupCatalog fresh in
  let st' := buildIndexes (B := LiteralRegExp.builtin) [("g", groupWithDomain)] fresh in
  hasDomain "b.com" st.1 = true
  /\ getSiteConfig "b.com" st.1 = Some groupOnly
  /\ getUserAgent "b.com" st.1 = None
  /\ getCookieRules "b.com" st.1 = None
  /\ getBlockRules "b.com" st.1 = []
  /\ getUserAgent "b.com" st'.1 = Some (UAString "googlebot")
  /\ getCookieRules "b.com" st'.1
     = Some {| type := Some allow; selectHold := None; selectDrop := None |}
  /\ getBlockRules "b.com" st'.1 = [mkRegExp "paywall" ""].
Proof. split_and!; vm_compute; reflexivity. Qed.

End SiteIndexesFeatures.

(** ** SiteIndexes: building twice *)
Module SiteIndexesRebuild.
Import SiteIndexes Aux.

(** C6, on the code.  In the busy session the partition is built once or
    twice.  The Pattern Cache is the same, the block list of [x.com] holds
    its two patterns once or twice.  Built once, the request for ["a"] on
    [x.com] is not blocked: [/A/i] is answered from the entry ["A::a"] that
    [/A/] left, and the miss on [/b/] evicts that entry.  Built twice, the
    loop goes on, reaches [/A/i] again, now evaluates it, and blocks. *)
Theorem buildIndexes_twice_changes_verdict :
  let once := buildIndexes (B := LiteralRegExp.builtin) laterCatalog busy in
  let twice := buildIndexes (B := LiteralRegExp.builtin) laterCatalog once in
  JsMap.size (RegexCache.matchResults busy.2) = 1000
  /\ JsMap.first_key (RegexCache.matchResults busy.2) = Some "A::a"
  /\ twice.2 = once.2
  /\ getBlockRules "x.com" once.1 = [A_i; b_]
  /\ getBlockRules "x.com" twice.1 = [A_i; b_; A_i; b_]
  /\ (shouldBlockRequest (B := LiteralRegExp.builtin) "x.com" "a" once).1 = false
  /\ (shouldBlockRequest (B := LiteralRegExp.builtin) "x.com" "a" twice).1 = true.
Proof. split_and!; vm_compute; reflexivity. Qed.

End SiteIndexesRebuild.

(** ** HeaderRuleEngine *)
Module HeaderRuleEngineFacts.
Import HeaderRuleEngine Aux.

Lemma keep_overridden (rule : Rule) (header : Header) :
  keep rule header = negb (overridden rule header).
Proof.
  unfold keep, overridden.
  destruct (ua_truthy _ && _); [done|].
  destruct (truthy _ && _); [done|].
  by destruct (hasPool _ && _).
Qed.

Lemma pushUserAgent_app (rule : Rule) (l : list Header) :
  pushUserAgent rule l = l ++ pushUserAgent rule [].
Proof.
  unfold pushUserAgent. destruct (userAgent rule); [|by rewrite app_nil_r].
  destruct (ua_truthy _); [done|by rewrite app_nil_r].
Qed.

Lemma pushReferer_app (rule : Rule) (l : list Header) :
  pushReferer rule l = l ++ pushReferer rule [].
Proof.
  unfold pushReferer. destruct (referer rule); [|by rewrite app_nil_r].
  destruct (truthy _); [done|by rewrite app_nil_r].
Qed.

Lemma pushForwardedFor_app (rule : Rule) (now : N) (l : list Header) :
  pushForwardedFor rule now l = l ++ pushForwardedFor rule now [].
Proof.
  unfold pushForwardedFor. destruct (randomIP rule); [done|by rewrite app_nil_r].
Qed.

(** What the statements of [applyHeaders] compute: the input itself when the
    domain has no rule; otherwise the input without the headers whose
    lower-cased name is one the rule overrides, followed by one header for
    each feature of the rule, the forwarded address being the pool entry at
    [now mod poolSize]. *)
Lemma applyHeadersStatements_spec (rules : gmap string Rule) (now : N)
    (domain : string) (headers : list Header) :
  (rules !! domain = None ->
     applyHeadersStatements rules now domain headers = headers)
  /\ (forall rule, rules !! domain = Some rule ->
        applyHeadersStatements rules now domain headers
        = List.filter (fun h => negb (overridden rule h)) headers
          ++ (if ua_truthy (userAgent rule)
              then [{| name := "User-Agent";
                       value := from_option uaValue VUndefined (userAgent rule) |}]
              else [])
          ++ (if truthy (referer rule)
              then [{| name := "Referer";
                       value := VString (default "" (referer rule)) |}]
              else [])
          ++ match randomIP rule with
             | Some pool =>
                 [{| name := "X-Forwarded-For";
                     value := pickIP pool now |}]
             | None => []
             end).
Proof.
  unfold applyHeadersStatements. split; [by intros ->|].
  intros rule ->.
  rewrite pushForwardedFor_app, pushReferer_app, pushUserAgent_app.
  rewrite <- !app_assoc. f_equal.
  { apply filter_ext. intros h. apply keep_overridden. }
  unfold pushUserAgent, pushReferer, pushForwardedFor.
  destruct rule as [[ua|] [r|] [pool|]]; simpl;
    repeat (match goal with
            | |- context [ua_truthy ?x] => destruct (ua_truthy x)
            | |- context [negb ?x] => destruct (negb x)
            end; simpl); done.
Qed.

Example applyHeadersStatements_bot :
  applyHeadersStatements botRules 1700000000005%N "wsj.com" requestHeaders
  = [ {| name := "Accept"; value := VString "*/*" |};
      {| name := "User-Agent";
         value := VString "Mozilla/5.0 (compatible; Googlebot/2.1; +http://www.google.com/bot.html)" |};
      {| name := "Referer"; value := VString "https://www.google.com/" |};
      {| name := "X-Forwarded-For"; value := VString "10.0.0.2" |} ]
  /\ applyHeadersStatements botRules 1700000000005%N "example.com" requestHeaders
     = requestHeaders.
Proof. split; vm_compute; reflexivity. Qed.

(** C2, on the code.  The body of [applyHeaders] declares [modified] twice
    with [let] (lines 77 and 78), an early error of the script: no call
    returns a header list, with a rule for the domain or without. *)
Theorem applyHeaders_redeclares_modified (rules : gmap string Rule) (now : N)
    (domain : string) (headers : list Header) :
  redeclaration lexicallyDeclaredNames = Some "modified"
  /\ applyHeaders rules now domain headers = Thrown (SyntaxError "modified")
  /\ applyHeaders botRules 1700000000005%N "wsj.com" requestHeaders
     = Thrown (SyntaxError "modified").
Proof. split_and!; reflexivity. Qed.

End HeaderRuleEngineFacts.

(** ** ChunkLoader: one call at a time *)
Module ChunkLoaderFacts.
Import ChunkLoader Aux.

Section Facts.
Context {B : RegExpBuiltin}.
Implicit Types (w : World) (host : nat -> Import).

(** When every [importScript] throws, the loop of [loadChunk] runs out of
    attempts and returns [false]; nothing but the count of imports
    changes. *)
Lemma attempts_all_throw host (chunkName : string) (retries remaining attempt : nat) w :
  attempt + remaining = retries ->
  (forall n, n < remaining -> host (imports w + n) = ImportThrows) ->
  attempts host chunkName retries attempt remaining w
  = (false, afterImports remaining w).
Proof.
  revert attempt w. induction remaining as [|k IH]; intros attempt w Hsum Hhost.
  - simpl. unfold afterImports. destruct w. simpl. by rewrite Nat.add_0_r.
  - simpl. pose proof (Hhost 0 ltac:(lia)) as H0. rewrite Nat.add_0_r in H0.
    rewrite H0. cbn [afterImport].
    destruct (Nat.eqb_spec attempt (retries - 1)) as [E|E].
    + assert (k = 0) as -> by lia. done.
    + rewrite (IH (attempt + 1) (countImport w)); [|lia|].
      * unfold afterImports, countImport. simpl. do 2 f_equal. lia.
      * intros n Hn. simpl. rewrite <- Nat.add_assoc. apply Hhost. lia.
Qed.

(** C1, on the code.  A domain the manifest maps to a partition that is
    neither loaded nor being loaded, and not indexed: when every one of the
    [retries] attempts to import the partition throws, [ensureChunkLoaded]
    returns [false].  No catalog is loaded in its place: the index and the
    set of loaded partitions are what they were. *)
Theorem ensureChunkLoaded_gives_up host (d chunkName : string) (retries : nat) w :
  SiteIndexes.hasDomain d (sites w).1 = false ->
  siteToChunkMap (loader w) !! d = Some chunkName ->
  truthy (Some chunkName) = true ->
  isChunkLoaded chunkName (loader w) = false ->
  loading (loader w) !! chunkName = None ->
  (forall n, n < retries -> host (imports w + n) = ImportThrows) ->
  exists w',
    ensureChunkLoaded host d retries w = Some (false, w')
    /\ loader w' = loader w
    /\ sites w' = sites w
    /\ isChunkLoaded chunkName (loader w') = false
    /\ SiteIndexes.hasDomain d (sites w').1 = false.
Proof.
  intros Hidx Hmap Htruthy Hloaded Hloading Hhost.
  unfold ensureChunkLoaded, resolve. rewrite Hidx, Hmap, Htruthy, Hloaded, Hloading.
  simpl. unfold loadChunk. simpl.
  destruct (knownChunk chunkName (chunkManifest (loader w))).
  - rewrite (attempts_all_throw host chunkName retries retries 0); [|done|done].
    eexists. split; [reflexivity|]. simpl.
    split_and!; [|done|done|done].
    unfold withLoading. simpl. rewrite delete_insert_eq, delete_id by done.
    by destruct (loader w).
  - eexists. split; [reflexivity|]. simpl.
    split_and!; [|done|done|done].
    unfold withLoading. simpl. rewrite delete_insert_eq, delete_id by done.
    by destruct (loader w).
Qed.

End Facts.

Lemma ensureChunkLoaded_gives_up_witness :
  exists w',
    ensureChunkLoaded (B := LiteralRegExp.builtin) offline "example.in" 3 ready
    = Some (false, w')
    /\ loader w' = loader ready
    /\ sites w' = sites ready
    /\ isChunkLoaded "india" (loader w') = false
    /\ SiteIndexes.hasDomain "example.in" (sites w').1 = false.
Proof.
  apply (ensureChunkLoaded_gives_up (B := LiteralRegExp.builtin)
           offline "example.in" "india" 3 ready); try reflexivity.
Defined.

(** The scenario of the specification: the partition loads at the first
    attempt, the call returns [true] and the domain is indexed.  On a host
    that always throws, the call makes its three attempts and returns
    [false]. *)
Example ensureChunkLoaded_india :
  (fst <$> ensureChunkLoaded (B := LiteralRegExp.builtin) online "example.in" 3 ready)
  = Some true
  /\ ((fun r => SiteIndexes.hasDomain "example.in" (sites r.2).1)
        <$> ensureChunkLoaded (B := LiteralRegExp.builtin) online "example.in" 3 ready)
     = Some true
  /\ (fst <$> ensureChunkLoaded (B := LiteralRegExp.builtin) offline "example.in" 3 ready)
     = Some false
  /\ ((fun r => imports r.2)
        <$> ensureChunkLoaded (B := LiteralRegExp.builtin) offline "example.in" 3 ready)
     = Some 3
  /\ (fst <$> ensureChunkLoaded (B := LiteralRegExp.builtin) online "unknown.org" 3 ready)
     = Some false.
Proof. split_and!; vm_compute; reflexivity. Qed.

End ChunkLoaderFacts.

(** ** ChunkLoader: calls that overlap *)
Module ChunkLoaderCoalescing.
Import ChunkLoader Aux.

Section Facts.
Context {B : RegExpBuiltin}.
Implicit Types (w : World) (m : Machine) (e : Event) (es : list Event).

(** What [MustLoad] says about the world. *)
Lemma resolve_MustLoad (d c : string) w :
  resolve d w = MustLoad c ->
  SiteIndexes.hasDomain d (sites w).1 = false
  /\ siteToChunkMap (loader w) !! d = Some c
  /\ truthy (Some c) = true
  /\ isChunkLoaded c (loader w) = false
  /\ loading (loader w) !! c = None.
Proof.
  unfold resolve. destruct (SiteIndexes.hasDomain d (sites w).1); [done|].
  destruct (siteToChunkMap (loader w) !! d) as [c'|]; [|done].
  destruct (truthy (Some c')) eqn:Et; simpl; [|done].
  destruct (isChunkLoaded c' (loader w)) eqn:El; [done|].
  destruct (loading (loader w) !! c') eqn:Eg; [done|].
  intros [= <-]. done.
Qed.

(** The first call starts the one load, which makes its first import at
    once. *)
Lemma first_call (d1 c : string) (r1 : nat) w0 m :
  window w0 = true ->
  resolve d1 w0 = MustLoad c ->
  knownChunk c (chunkManifest (loader w0)) = true ->
  0 < r1 ->
  step (Calls d1 r1) (start w0) = Some m ->
  coalesced w0 c r1 1 m /\ callers m !! 0 = Some (AwaitsOwn c 0).
Proof.
  intros Hwin Hres Hknown Hr. simpl. rewrite Hres. unfold startLoad.
  rewrite Hknown. destruct (Nat.ltb_spec 0 r1); [|lia]. simpl.
  intros [= <-]. simpl. split; [|done]. split_and!; [done..|].
  eexists. split_and!; [reflexivity|done|done| | |].
  - unfold loadInv. simpl. split_and!; [done|lia|done|done].
  - left. split; [done|]. simpl. by rewrite lookup_insert_eq.
  - intros x. simpl. done.
Qed.

(** No event other than a call starts a load or loses the invariant. *)
Lemma step_coalesced w0 (c : string) (r1 n : nat) e m m' :
  n <= 2 ->
  isCall e = false ->
  step e m = Some m' ->
  coalesced w0 c r1 n m -> coalesced w0 c r1 n m'.
Proof.
  intros Hn Hnc Hstep (Hmap & Hwin & Hlen & ld & Hloads & Hc & Hr & Hl & Hf & Hs).
  destruct e as [d r|p outcome|p|i]; [done| | |]; simpl in Hstep.
  - (* the import of the load settles *)
    rewrite Hloads in Hstep. destruct p as [|p]; simpl in Hstep; [|done].
    destruct (progress ld) as [a|a|b] eqn:Ep; try done.
    unfold loadInv in Hl. rewrite Ep in Hl. destruct Hl as (Ha & Hi & Hsites & Hld).
    unfold afterImport in Hstep. rewrite Hwin in Hstep.
    destruct outcome as [|chunk]; injection Hstep as <-.
    + split_and!; [done|done|done|].
      exists (withProgress ld (if (a =? retries ld - 1)%nat
                                then Settled false else BackingOff a)).
      split_and!; [done|done|done| | |].
      * unfold loadInv. simpl. destruct (Nat.eqb_spec a (retries ld - 1)); simpl;
          split_and!; try done; lia.
      * destruct Hf as [Hf|(b & Hb & Hp)]; [by left|congruence].
      * intros x Hx. destruct (Hs x Hx) as [->|(b & -> & Hp)]; [by left|congruence].
    + split_and!; [done|done|done|].
      exists (withProgress ld (Settled true)).
      split_and!; [done|done|done| | |].
      * unfold loadInv. simpl. split_and!; [lia|lia|].
        unfold isChunkLoaded. apply bool_decide_eq_true. set_solver.
      * destruct Hf as [Hf|(b & Hb & Hp)]; [by left|congruence].
      * intros x Hx. destruct (Hs x Hx) as [->|(b & -> & Hp)]; [by left|congruence].
  - (* the retry timer of the load fires *)
    rewrite Hloads in Hstep. destruct p as [|p]; simpl in Hstep; [|done].
    destruct (progress ld) as [a|a|b] eqn:Ep; try done.
    unfold loadInv in Hl. rewrite Ep in Hl. destruct Hl as (Ha & Hi & Hsites & Hld).
    destruct (Nat.ltb_spec (a + 1) (retries ld)); injection Hstep as <-.
    + split_and!; [done|done|done|].
      exists (withProgress ld (Importing (a + 1))).
      split_and!; [done|done|done| | |].
      * unfold loadInv. simpl. split_and!; try done; lia.
      * destruct Hf as [Hf|(b & Hb & Hp)]; [by left|congruence].
      * intros x Hx. destruct (Hs x Hx) as [->|(b & -> & Hp)]; [by left|congruence].
    + split_and!; [done|done|done|].
      exists (withProgress ld (Settled false)).
      split_and!; [done|done|done| | |].
      * unfold loadInv. simpl. split_and!; try done; lia.
      * destruct Hf as [Hf|(b & Hb & Hp)]; [by left|congruence].
      * intros x Hx. destruct (Hs x Hx) as [->|(b & -> & Hp)]; [by left|congruence].
  - (* a caller resumes *)
    destruct (callers m !! i) as [x|] eqn:Ei; [|done].
    pose proof (lookup_lt_Some _ _ _ Ei) as Hlt.
    assert (i = 0 \/ i = 1) as [-> | ->] by lia.
    + (* the caller that started the load *)
      destruct Hf as [[Hf Hg]|(b' & Hb & Hp)]; [|by rewrite Hb in Ei; injection Ei as <-].
      rewrite Hf in Ei. injection Ei as <-.
      rewrite Hloads in Hstep. simpl in Hstep.
      destruct (progress ld) as [a|a|b] eqn:Ep; try done.
      injection Hstep as <-. unfold coalesced. cbn [world loads callers].
      split_and!; [done|done|by rewrite length_insert|].
      exists ld. split_and!; [done..| | |].
      * unfold loadInv in *. cbn [world]. rewrite Ep in *. by destruct b.
      * right. exists b. cbn [callers]. split; [|done].
        by apply list_lookup_insert_eq.
      * intros x. cbn [callers]. rewrite list_lookup_insert_ne by done. apply Hs.
    + (* the caller that found the load in flight *)
      destruct (Hs _ Ei) as [->|(b & -> & Hp)]; [|done].
      rewrite Hloads in Hstep. simpl in Hstep.
      destruct (progress ld) as [a|a|b] eqn:Ep; try done.
      injection Hstep as <-. unfold coalesced. cbn [world loads callers].
      split_and!; [done|done|by rewrite length_insert|].
      exists ld. split_and!; [done..| | |].
      * unfold loadInv in *. cbn [world]. rewrite Ep in *. by destruct b.
      * destruct Hf as [[Hf Hg]|(b' & Hb & Hp)].
        -- left. cbn [callers world]. split; [|done].
           by rewrite list_lookup_insert_ne.
        -- right. exists b'. cbn [callers]. split; [|done].
           by rewrite list_lookup_insert_ne.
      * intros x. cbn [callers]. rewrite list_lookup_insert_eq by done.
        intros [= <-]. right. by exists b.
Qed.

(** A run of events that are no calls keeps the invariant. *)
Lemma exec_coalesced w0 (c : string) (r1 n : nat) es m m' :
  n <= 2 ->
  forallb (fun e => negb (isCall e)) es = true ->
  exec es m = Some m' ->
  coalesced w0 c r1 n m -> coalesced w0 c r1 n m'.
Proof.
  intros Hn. revert m. induction es as [|e es IH]; intros m Hes Hexec Hinv.
  - by injection Hexec as <-.
  - simpl in *. apply andb_prop in Hes as [He Hes].
    destruct (step e m) as [m1|] eqn:Es; [|done].
    apply (IH m1); [done|done|].
    apply (step_coalesced w0 c r1 n e m m1); [done| |done|done].
    by destruct (isCall e).
Qed.

(** The second call, made while the first caller waits, starts nothing: it
    joins the load in flight, or finds the partition loaded. *)
Lemma second_call w0 (d2 c : string) (r1 r2 : nat) m m' :
  siteToChunkMap (loader w0) !! d2 = Some c ->
  truthy (Some c) = true ->
  isChunkLoaded c (loader w0) = false ->
  SiteIndexes.hasDomain d2 (sites w0).1 = false ->
  coalesced w0 c r1 1 m ->
  callers m !! 0 = Some (AwaitsOwn c 0) ->
  step (Calls d2 r2) m = Some m' ->
  coalesced w0 c r1 2 m'.
Proof.
  intros Hmap2 Htruthy Hnl Hni
    (Hmap & Hwin & Hlen & ld & Hloads & Hc & Hr & Hl & Hf & Hs) Hfirst.
  destruct Hf as [[_ Hg]|(b & Hb & _)]; [|congruence].
  assert (callers m = [AwaitsOwn c 0]) as Hcs.
  { destruct (callers m) as [|x [|y rest]]; simpl in *; try done. congruence. }
  assert (progress ld = Settled true
          \/ (SiteIndexes.hasDomain d2 (sites (world m)).1 = false
              /\ isChunkLoaded c (loader (world m)) = false)) as Hcase.
  { unfold loadInv in Hl. unfold isChunkLoaded in *.
    destruct (progress ld) as [a|a|[|]]; [right|right|by left|right].
    - destruct Hl as (_ & _ & Hs1 & Hs2). by rewrite Hs1, Hs2.
    - destruct Hl as (_ & _ & Hs1 & Hs2). by rewrite Hs1, Hs2.
    - destruct Hl as (_ & Hs1 & Hs2). by rewrite Hs1, Hs2. }
  intros Hstep.
  assert (exists x,
            m' = {| world := world m; loads := loads m; callers := callers m ++ [x] |}
            /\ (x = AwaitsInFlight 0
                \/ (x = Completed true /\ progress ld = Settled true)))
    as (x & -> & Hx).
  { revert Hstep. simpl. unfold resolve. rewrite Hmap, Hmap2, Htruthy. simpl.
    destruct Hcase as [Hdone|[Hni' Hnl']].
    - destruct (SiteIndexes.hasDomain d2 (sites (world m)).1).
      { intros [= <-]. eexists. split; [reflexivity|by right]. }
      destruct (isChunkLoaded c (loader (world m))).
      { intros [= <-]. eexists. split; [reflexivity|by right]. }
      rewrite Hg. intros [= <-]. eexists. split; [reflexivity|by left].
    - rewrite Hni', Hnl', Hg. intros [= <-]. eexists. split; [reflexivity|by left]. }
  unfold coalesced. cbn [world loads callers].
  split_and!; [done|done|rewrite length_app, Hlen; done|].
  exists ld. split_and!; [done..| | |].
  - done.
  - left. cbn [world callers]. by rewrite Hcs.
  - intros y. cbn [callers]. rewrite Hcs. simpl. intros [= <-].
    destruct Hx as [->|[-> Hp]]; [by left|right; by exists true].
Qed.

(** Once the load has settled, a caller has its result or receives it when
    it resumes. *)
Lemma coalesced_delivers w0 (c : string) (r1 : nat) m ld (b : bool) (i : nat) :
  coalesced w0 c r1 2 m ->
  loads m = [ld] ->
  progress ld = Settled b ->
  i < 2 ->
  callers m !! i = Some (Completed b)
  \/ exists m', step (Resumes i) m = Some m'
                /\ callers m' !! i = Some (Completed b).
Proof.
  intros (_ & _ & Hlen & ld' & Hloads & _ & _ & _ & Hf & Hs) Hld Hp Hi.
  rewrite Hld in Hloads. injection Hloads as <-.
  assert (i = 0 \/ i = 1) as [-> | ->] by lia.
  - destruct Hf as [[Hf _]|(b' & Hb & Hp')]; [|left; congruence].
    right. simpl. rewrite Hf, Hld. simpl. rewrite Hp.
    eexists. split; [reflexivity|]. simpl.
    apply list_lookup_insert_eq. by apply lookup_lt_Some in Hf.
  - destruct (lookup_lt_is_Some_2 (callers m) 1 ltac:(lia)) as [x Hx].
    destruct (Hs x Hx) as [->|(b' & -> & Hp')]; [|left; congruence].
    right. simpl. rewrite Hx, Hld. simpl. rewrite Hp.
    eexists. split; [reflexivity|]. simpl.
    apply list_lookup_insert_eq. by apply lookup_lt_Some in Hx.
Qed.

(** X26. In a page, two calls that overlap, for domains of one partition
    of the manifest that is not loaded: the first call starts the load of
    the partition; the second, made while the first caller still waits,
    starts none.  Whatever the order in which imports settle, timers fire
    and callers resume, there is one load of the partition; the
    [importScript] calls made are the attempts of that load, one at least
    and [r1] at most; the second caller waits for the promise of that load
    or has its result, and so does the first; and once the load has
    settled, each caller that still waits receives its result when it
    resumes. *)
Theorem overlapping_calls_one_load w0 (d1 d2 c : string) (r1 r2 : nat)
    es1 es2 m1 m :
  window w0 = true ->
  resolve d1 w0 = MustLoad c ->
  knownChunk c (chunkManifest (loader w0)) = true ->
  0 < r1 ->
  siteToChunkMap (loader w0) !! d2 = Some c ->
  SiteIndexes.hasDomain d2 (sites w0).1 = false ->
  forallb (fun e => negb (isCall e)) es1 = true ->
  forallb (fun e => negb (isCall e)) es2 = true ->
  exec (Calls d1 r1 :: es1) (start w0) = Some m1 ->
  callers m1 !! 0 = Some (AwaitsOwn c 0) ->
  exec (Calls d2 r2 :: es2) m1 = Some m ->
  exists ld,
    loads m = [ld] /\ chunk ld = c /\ retries ld = r1
    /\ imports w0 + 1 <= imports (world m) /\ imports (world m) <= imports w0 + r1
    /\ length (callers m) = 2
    /\ (callers m !! 0 = Some (AwaitsOwn c 0)
        \/ exists b, callers m !! 0 = Some (Completed b) /\ progress ld = Settled b)
    /\ (callers m !! 1 = Some (AwaitsInFlight 0)
        \/ exists b, callers m !! 1 = Some (Completed b) /\ progress ld = Settled b)
    /\ (forall b i, progress ld = Settled b -> i < 2 ->
          callers m !! i = Some (Completed b)
          \/ exists m', step (Resumes i) m = Some m'
                        /\ callers m' !! i = Some (Completed b))
    /\ (progress ld = Settled true -> isChunkLoaded c (loader (world m)) = true).
Proof.
  intros Hwin Hres Hknown Hr1 Hmap2 Hni Hes1 Hes2 Hexec1 Hwait Hexec2.
  destruct (resolve_MustLoad d1 c w0 Hres) as (_ & _ & Htruthy & Hnl & _).
  change (match step (Calls d1 r1) (start w0) with
          | Some m' => exec es1 m'
          | None => None
          end = Some m1) in Hexec1.
  destruct (step (Calls d1 r1) (start w0)) as [ma|] eqn:Ea; [|done].
  destruct (first_call d1 c r1 w0 ma Hwin Hres Hknown Hr1 Ea) as [Hinv _].
  pose proof (exec_coalesced w0 c r1 1 es1 ma m1 ltac:(lia) Hes1 Hexec1 Hinv) as Hinv1.
  change (match step (Calls d2 r2) m1 with
          | Some m' => exec es2 m'
          | None => None
          end = Some m) in Hexec2.
  destruct (step (Calls d2 r2) m1) as [mb|] eqn:Eb; [|done].
  pose proof (second_call w0 d2 c r1 r2 m1 mb Hmap2 Htruthy Hnl Hni Hinv1 Hwait Eb)
    as Hinv2.
  pose proof (exec_coalesced w0 c r1 2 es2 mb m ltac:(lia) Hes2 Hexec2 Hinv2) as Hinv3.
  destruct Hinv3 as (Hm & Hw & Hlen & ld & Hloads & Hc & Hr & Hl & Hf & Hs).
  exists ld. split_and!; [done|done|done| | |done| | | |].
  - unfold loadInv in Hl. destruct (progress ld) as [?|?|[|]]; lia.
  - unfold loadInv in Hl. destruct (progress ld) as [?|?|[|]]; lia.
  - destruct Hf as [[Hf _]|Hf]; [by left|by right].
  - destruct (lookup_lt_is_Some_2 (callers m) 1 ltac:(lia)) as [x Hx].
    destruct (Hs x Hx) as [->|(b & -> & Hp)]; [by left|right; by exists b].
  - intros b i Hp Hi. apply (coalesced_delivers w0 c r1 m ld b i); [|done..].
    split_and!; [done..|]. by exists ld.
  - intros Hp. unfold loadInv in Hl. rewrite Hp in Hl. rewrite <- Hc. apply Hl.
Qed.

End Facts.

Lemma overlapping_calls_one_load_witness :
  exists ld,
    loads afterBothCalls = [ld] /\ chunk ld = "india" /\ retries ld = 3
    /\ imports ready + 1 <= imports (world afterBothCalls)
    /\ imports (world afterBothCalls) <= imports ready + 3
    /\ length (callers afterBothCalls) = 2
    /\ (callers afterBothCalls !! 0 = Some (AwaitsOwn "india" 0)
        \/ exists b, callers afterBothCalls !! 0 = Some (Completed b)
                     /\ progress ld = Settled b)
    /\ (callers afterBothCalls !! 1 = Some (AwaitsInFlight 0)
        \/ exists b, callers afterBothCalls !! 1 = Some (Completed b)
                     /\ progress ld = Settled b)
    /\ (forall b i, progress ld = Settled b -> i < 2 ->
          callers afterBothCalls !! i = Some (Completed b)
          \/ exists m', step (B := LiteralRegExp.builtin) (Resumes i) afterBothCalls
                        = Some m'
                        /\ callers m' !! i = Some (Completed b))
    /\ (progress ld = Settled true ->
        isChunkLoaded "india" (loader (world afterBothCalls)) = true).
Proof.
  apply (overlapping_calls_one_load (B := LiteralRegExp.builtin)
           ready "example.in" "other.in" "india" 3 3 []
           [ImportSettles 0 (ImportDone (Some indiaChunk)); Resumes 0; Resumes 1]
           afterFirstCall afterBothCalls); vm_compute; reflexivity || lia.
Defined.

(** The two calls in a page on a host that loads the partition: one load,
    one import, both callers receive [true] and both domains are indexed.
    On a host where every import throws: one load, its three attempts, and
    both callers receive [false]. *)
Example two_calls_one_load :
  loads afterBothCalls = [{| chunk := "india"; retries := 3; progress := Settled true |}]
  /\ imports (world afterBothCalls) = 1
  /\ callers afterBothCalls = [Completed true; Completed true]
  /\ SiteIndexes.hasDomain "other.in" (sites (world afterBothCalls)).1 = true
  /\ loads afterBothCallsOffline
     = [{| chunk := "india"; retries := 3; progress := Settled false |}]
  /\ imports (world afterBothCallsOffline) = 3
  /\ callers afterBothCallsOffline = [Completed false; Completed false].
Proof. split_and!; vm_compute; reflexivity. Qed.

(** C9, on the code.  In a service worker, where [window] is not bound:
    [example.in] and [other.in] belong to the partition [india], which is
    not loaded.  The first call starts the load; the script of the
    partition runs, line 86 marks the partition loaded and line 89 throws,
    so the load waits for its first retry.  The second call, made now,
    finds the partition marked loaded and returns [true] at line 49
    without waiting for the load in flight; the load makes its three
    imports and ends with [false], which the first caller receives.  One
    load was started, and the two callers hold different results. *)
Theorem ensureChunkLoaded_overlap_in_worker :
  (callers <$> exec (B := LiteralRegExp.builtin) overlapInWorker (start readyInWorker))
  = Some [Completed false; Completed true]
  /\ (loads <$> exec (B := LiteralRegExp.builtin) overlapInWorker (start readyInWorker))
     = Some [{| chunk := "india"; retries := 3; progress := Settled false |}]
  /\ ((fun m => imports (world m))
        <$> exec (B := LiteralRegExp.builtin) overlapInWorker (start readyInWorker))
     = Some 3
  /\ ((fun m => SiteIndexes.hasDomain "other.in" (sites (world m)).1)
        <$> exec (B := LiteralRegExp.builtin) overlapInWorker (start readyInWorker))
     = Some false
  /\ resolve "example.in" readyInWorker = MustLoad "india"
  /\ resolve "other.in" readyInWorker = MustLoad "india".
Proof. split_and!; vm_compute; reflexivity. Qed.

End ChunkLoaderCoalescing.

(** ** RegexCache: repeated calls and clearing *)
Module RegexCacheMemo.
Import RegexCache JsMapFacts RegexCacheFacts Aux.

Section Facts.
Context {B : RegExpBuiltin}.
Implicit Types (c : t) (p : Pattern) (u url : string).

(** [compile] reads the table of compiled patterns only: on a cache with
    the same table it returns the same expression. *)
Lemma compile_same_table p c c' :
  cache c' = cache c ->
  (compile p c').1 = (compile p c).1
  /\ cache (compile p c').2 = cache (compile p c).2.
Proof.
  intros E. destruct p as [|s|r]; simpl; [done| |].
  - destruct (String.eqb s ""); [done|]. rewrite E.
    destruct (cache c !! s); [done|]. destruct (regexp_new s); simpl; by rewrite ?E.
  - rewrite E. destruct (cache c !! (source r +:+ flags r)); simpl; by rewrite ?E.
Qed.

(** A pattern that compiled leaves the table unchanged when it is compiled
    again. *)
Lemma compile_settled p c c' :
  cache c' = cache (compile p c).2 -> compile p c' = ((compile p c).1, c').
Proof.
  intros E. destruct p as [|s|r]; simpl in *; [done| |].
  - destruct (String.eqb s ""); [done|].
    destruct (cache c !! s) as [r|] eqn:Ec; simpl in *.
    + by rewrite E, Ec.
    + destruct (regexp_new s) as [r|] eqn:En; simpl in *;
        rewrite E, ?lookup_insert_eq, ?Ec, ?En; done.
  - destruct (cache c !! (source r +:+ flags r)) as [r'|] eqn:Ec; simpl in *;
      rewrite E, ?lookup_insert_eq, ?Ec; simpl;
      rewrite ?E, ?lookup_insert_eq, ?Ec; done.
Qed.

Lemma test_table p u c : cache (test p u c).2 = cache (compile p c).2.
Proof.
  unfold test. destruct (compile p c) as [[r|] c1]; simpl; [|done].
  by destruct (JsMap.get _ _).
Qed.

(** X1. A call repeated at once is answered as before and changes nothing:
    the second [test(p, u)] returns the boolean of the first and leaves the
    cache as the first left it. *)
Theorem test_repeated p u c : test p u (test p u c).2 = test p u c.
Proof.
  unfold test at 1.
  rewrite (compile_settled p c (test p u c).2) by apply test_table.
  unfold test. pose proof (compile_results p c) as [Hr Hm].
  destruct (compile p c) as [[compiled|] c1] eqn:Ec; simpl in *; [|done].
  destruct (JsMap.get (cacheKey compiled u) (matchResults c1)) as [cached|] eqn:Eg;
    simpl.
  - by rewrite Eg.
  - by rewrite get_set_eq.
Qed.

(** X2. For expressions without the [g] and the [y] flag.  After
    [clearMatchCache()] the next [test(p, u)] evaluates the expression [p]
    compiles to; after [clearAll()] (the [clearCache] message) it evaluates
    [p] itself: a [RegExp] is run as it is, a string is run as [new RegExp]
    compiles it, and a string that does not compile is answered [false]. *)
Theorem test_after_clear p u c (r : RegExp) (s : string) :
  statelessIf (compile p c).1 = true ->
  stateless r = true ->
  statelessIf (regexp_new s) = true ->
  (test p u (clearMatchCache c)).1
  = match (compile p c).1 with
    | Some compiled => regexp_exec compiled u
    | None => false
    end
  /\ (test (PRegExp r) u (clearAll c)).1 = regexp_exec r u
  /\ (test (PString s) u (clearAll c)).1
     = match regexp_new s with
       | Some compiled => negb (String.eqb s "") && regexp_exec compiled u
       | None => false
       end.
Proof.
  intros _ _ _. split_and!.
  - unfold test.
    destruct (compile_same_table p c (clearMatchCache c)) as [E _]; [done|].
    pose proof (compile_results p (clearMatchCache c)) as [Hr _].
    rewrite <- E.
    destruct (compile p (clearMatchCache c)) as [[compiled|] c1]; simpl in *; [|done].
    by rewrite Hr.
  - unfold test. simpl. rewrite lookup_empty. simpl. by rewrite lookup_insert_eq.
  - unfold test. simpl. destruct (String.eqb s ""); simpl.
    { by destruct (regexp_new s). }
    rewrite lookup_empty. by destruct (regexp_new s).
Qed.

(** The table of compiled patterns only grows. *)
Lemma compile_grows p c : cache c ⊆ cache (compile p c).2.
Proof.
  destruct p as [|s|r]; simpl; [done| |].
  - destruct (String.eqb s ""); [done|].
    destruct (cache c !! s) eqn:Ec; [done|].
    destruct (regexp_new s); [|done]. simpl. by apply insert_subseteq.
  - destruct (cache c !! (source r +:+ flags r)) eqn:Ec; [done|].
    simpl. by apply insert_subseteq.
Qed.

Lemma run_grows (calls : list (Pattern * string)) c : cache c ⊆ cache (run calls c).
Proof.
  revert c. induction calls as [|[p u] calls IH]; intros c; [done|].
  simpl. etrans; [|apply IH]. rewrite test_table. apply compile_grows.
Qed.

Lemma compile_Some_key p c r :
  (compile p c).1 = Some r ->
  pattern_truthy p = true /\ cache (compile p c).2 !! compileKey p = Some r.
Proof.
  destruct p as [|s|r0]; simpl; [done| |].
  - destruct (String.eqb s ""); [done|]. simpl.
    destruct (cache c !! s) as [r'|] eqn:Ec; simpl.
    + by intros [= ->].
    + destruct (regexp_new s) as [r'|]; simpl; [|done].
      intros [= ->]. by rewrite lookup_insert_eq.
  - destruct (cache c !! (source r0 +:+ flags r0)) as [r'|] eqn:Ec; simpl.
    + rewrite Ec. by intros [= ->].
    + rewrite !lookup_insert_eq. by intros [= ->].
Qed.

Lemma compile_filed p c r :
  pattern_truthy p = true -> cache c !! compileKey p = Some r ->
  compile p c = (Some r, c).
Proof.
  destruct p as [|s|r0]; simpl; [done| |].
  - intros Hs%negb_true_iff E. by rewrite Hs, E.
  - intros _ E. rewrite E. simpl. by rewrite E.
Qed.

(** X3. No call of [test] replaces or drops a compiled pattern: a pattern
    that compiled to [r] compiles to [r] after any further calls, without
    the table being written. *)
Theorem compile_stable p (calls : list (Pattern * string)) c r :
  (compile p c).1 = Some r ->
  compile p (run calls (compile p c).2) = (Some r, run calls (compile p c).2).
Proof.
  intros [Ht Hk]%compile_Some_key. apply compile_filed; [done|].
  by apply (lookup_weaken _ _ _ _ Hk), run_grows.
Qed.

End Facts.

Lemma compile_stable_witness :
  (compile (B := LiteralRegExp.builtin) (PString "paywall") default).1
  = Some (mkRegExp "paywall" "")
  /\ compile (B := LiteralRegExp.builtin) (PString "paywall")
       (run (B := LiteralRegExp.builtin) [(PRegExp A_i, "a"); (PString "x", "y")]
          (compile (B := LiteralRegExp.builtin) (PString "paywall") default).2)
     = (Some (mkRegExp "paywall" ""),
        run (B := LiteralRegExp.builtin) [(PRegExp A_i, "a"); (PString "x", "y")]
          (compile (B := LiteralRegExp.builtin) (PString "paywall") default).2).
Proof.
  split; [reflexivity|].
  apply (compile_stable (B := LiteralRegExp.builtin) (PString "paywall")
           [(PRegExp A_i, "a"); (PString "x", "y")] default).
  reflexivity.
Defined.

Lemma test_after_clear_witness :
  (test (B := LiteralRegExp.builtin) (PString "tinypass") "https://px.tinypass.com/"
     (clearMatchCache afterFirst)).1 = true
  /\ (test (B := LiteralRegExp.builtin) (PRegExp A_) "a" (clearAll afterFirst)).1
     = false
  /\ (test (B := LiteralRegExp.builtin) (PString "(") "(" (clearAll afterFirst)).1
     = false.
Proof.
  exact (test_after_clear (B := LiteralRegExp.builtin) (PString "tinypass")
           "https://px.tinypass.com/" afterFirst A_ "(" eq_refl eq_refl eq_refl).
Defined.

End RegexCacheMemo.

(** ** RegexCache and the performance monitor *)
Module MonitoredFacts.
Import RegexCache Aux.

Section Facts.
Context {B : RegExpBuiltin}.
Implicit Types (c : t) (p : Pattern) (u url : string)
  (pm : PerformanceMonitor.t).

(** One call: the boolean and the cache are those of [test] without a
    monitor, and the monitor counts a miss when the call inserts a key,
    a hit when it answers from the result map, nothing when the pattern
    does not compile. *)
Lemma test_recorded p u c (pm : option PerformanceMonitor.t) :
  (Monitored.test p u (c, pm)).1 = (test p u c).1
  /\ (Monitored.test p u (c, pm)).2.1 = (test p u c).2
  /\ (Monitored.test p u (c, pm)).2.2
     = match (compile p c).1, inserted p u c with
       | None, _ => pm
       | Some _, Some _ => PerformanceMonitor.recordCacheMiss <$> pm
       | Some _, None => PerformanceMonitor.recordCacheHit <$> pm
       end.
Proof.
  unfold Monitored.test, test, inserted. simpl.
  destruct (compile p c) as [[compiled|] c1]; simpl; [|done].
  by destruct (JsMap.get _ _).
Qed.

(** X4. Recording does not change what [test] does, and the counters
    account for the calls: over any sequence of [test] calls the cache
    ends as it does without a monitor, [cacheMisses]
    grows by the number of keys inserted, [cacheHits] by the number of calls
    answered from the result map, and nothing else in the monitor
    changes. *)
Theorem run_recorded (calls : list (Pattern * string)) c pm :
  (Monitored.run calls (c, Some pm)).1 = run calls c
  /\ (Monitored.run calls (c, None)) = (run calls c, None)
  /\ exists pm',
       (Monitored.run calls (c, Some pm)).2 = Some pm'
       /\ PerformanceMonitor.cacheMisses (PerformanceMonitor.metrics pm')
          = PerformanceMonitor.cacheMisses (PerformanceMonitor.metrics pm)
            + length (insertions calls c)
       /\ PerformanceMonitor.cacheHits (PerformanceMonitor.metrics pm')
          = PerformanceMonitor.cacheHits (PerformanceMonitor.metrics pm)
            + answeredFromCache calls c
       /\ sameButCounters pm pm'.
Proof.
  revert c pm. induction calls as [|[p u] calls IH]; intros c pm.
  { simpl. split_and!; [done..|]. exists pm. unfold sameButCounters.
    split_and!; try done; lia. }
  simpl. destruct (test_recorded p u c (Some pm)) as (_ & Hc & Hpm).
  destruct (test_recorded p u c None) as (_ & Hc0 & Hpm0).
  destruct (Monitored.test p u (c, Some pm)) as [b [c1 pm1]].
  destruct (Monitored.test p u (c, None)) as [b0 [c0 pm0]].
  simpl in *. subst c1 c0.
  assert (pm0 = None) as -> by (rewrite Hpm0; by repeat case_match).
  destruct (IH (test p u c).2 pm) as (_ & IH0 & _). split_and!; [|done|].
  - destruct pm1 as [pm1|].
    + by destruct (IH (test p u c).2 pm1) as (-> & _).
    + by rewrite IH0.
  - destruct (compile p c).1 as [compiled|] eqn:Ecomp.
    + destruct (inserted p u c) as [k|] eqn:Eins; simpl in Hpm; subst pm1.
      * destruct (IH (test p u c).2 (PerformanceMonitor.recordCacheMiss pm))
          as (_ & _ & pm' & E & Hm & Hh & Hs).
        exists pm'. split_and!; [done|simpl in *; lia|done|].
        unfold sameButCounters in *. simpl in *. done.
      * destruct (IH (test p u c).2 (PerformanceMonitor.recordCacheHit pm))
          as (_ & _ & pm' & E & Hm & Hh & Hs).
        exists pm'. split_and!; [done|done|simpl in *; lia|].
        unfold sameButCounters in *. simpl in *. done.
    + subst pm1.
      destruct (IH (test p u c).2 pm) as (_ & _ & pm' & E & Hm & Hh & Hs).
      exists pm'. assert (inserted p u c = None) as ->.
      { unfold inserted. by destruct (compile p c) as [[?|] ?]. }
      done.
Qed.

End Facts.
End MonitoredFacts.

(** ** SiteIndexes: what the tables hold together *)
Module SiteIndexesInvariants.
Import SiteIndexes Aux SiteIndexesTables.

Section Facts.
Context {B : RegExpBuiltin}.
Implicit Types (st : State) (s : t) (config : Config) (d url : string).

Lemma dom_setAll {V} (l : list (string * V)) (m : gmap string V) :
  dom (setAll l m) = list_to_set l.*1 ∪ dom m.
Proof.
  revert m. induction l as [|[k v] l IH]; intros m; simpl.
  - set_solver.
  - unfold setAll in *. simpl. rewrite IH, dom_insert_L. set_solver.
Qed.

Lemma indexedAreRegistered_new : indexedAreRegistered new.
Proof. unfold indexedAreRegistered. simpl. set_solver. Qed.

Lemma buildIndexes_indexedAreRegistered (siteConfigs : Catalog) st :
  indexedAreRegistered st.1 ->
  indexedAreRegistered (buildIndexes siteConfigs st).1.
Proof.
  unfold indexedAreRegistered. intros Hinv.
  destruct (buildIndexes_tables siteConfigs st) as (-> & -> & _ & ->).
  rewrite !dom_setAll, Hinv.
  assert (list_to_set (C := gset string) (siteConfigs ≫= registered)
          = list_to_set (siteConfigs ≫= domainWrites).*1
            ∪ list_to_set (siteConfigs ≫= groupWrites).*1) as ->.
  { clear. induction siteConfigs as [|e l IH]; [set_solver|].
    rewrite !bind_cons, !fmap_app, !list_to_set_app_L, IH. unfold registered.
    rewrite list_to_set_app_L. set_solver. }
  set_solver.
Qed.

(** X5. A domain is indexed exactly when it has a configuration: after
    the core catalog and any further partition have been built on a new
    index, [hasDomain(d)] is true if and only if [getSiteConfig(d)] is not
    [null]. *)
Theorem hasDomain_iff_getSiteConfig (core partition : Catalog)
    (rc : RegexCache.t) d :
  hasDomain d (buildIndexes partition (buildIndexes core (new, rc))).1 = true
  <-> is_Some (getSiteConfig d
                 (buildIndexes partition (buildIndexes core (new, rc))).1).
Proof.
  set (st := buildIndexes partition (buildIndexes core (new, rc))).
  assert (indexedAreRegistered st.1) as Hreg.
  { apply buildIndexes_indexedAreRegistered, buildIndexes_indexedAreRegistered,
      indexedAreRegistered_new. }
  assert (groupsResolve st.1) as Hres.
  { apply buildIndexes_groupsResolve, buildIndexes_groupsResolve, groupsResolve_new. }
  unfold hasDomain, getSiteConfig. rewrite bool_decide_eq_true, Hreg.
  rewrite elem_of_union, !elem_of_dom.
  destruct (domainMap st.1 !! d) as [c|] eqn:Ed.
  - split; [done|]. intros _. by left.
  - destruct (groupMap st.1 !! d) as [g|] eqn:Eg.
    + split; [|intros _; by right]. intros _. by apply (Hres d g).
    + split; [by intros [[? [=]]|[? [=]]]|by intros [? [=]]].
Qed.

Lemma indexDomain_doms config d st :
  dom (botUserAgents (indexDomain config d st).1) ⊆ {[d]} ∪ dom (botUserAgents st.1)
  /\ dom (cookieRules (indexDomain config d st).1) ⊆ {[d]} ∪ dom (cookieRules st.1)
  /\ dom (blockRules (indexDomain config d st).1) ⊆ {[d]} ∪ dom (blockRules st.1).
Proof.
  unfold indexDomain, setBlockRule, setCookieRules, setSelectDrop, setSelectHold,
    setCookieType, setUserAgent. simpl.
  split_and!;
    repeat (case_match; simpl; rewrite ?dom_insert_L); clear; set_solver.
Qed.

Lemma indexDomains_doms config (ds : list string) st :
  let st' := foldl (fun st d => indexDomain config d st) st ds in
  dom (botUserAgents st'.1) ⊆ list_to_set ds ∪ dom (botUserAgents st.1)
  /\ dom (cookieRules st'.1) ⊆ list_to_set ds ∪ dom (cookieRules st.1)
  /\ dom (blockRules st'.1) ⊆ list_to_set ds ∪ dom (blockRules st.1).
Proof.
  simpl. induction ds as [|d ds IH] using rev_ind; [set_solver|].
  rewrite foldl_app. simpl.
  destruct (indexDomain_doms config d
              (foldl (fun st d => indexDomain config d st) st ds)) as (H1 & H2 & H3).
  destruct IH as (I1 & I2 & I3). rewrite list_to_set_app_L.
  split_and!; [clear -H1 I1|clear -H2 I2|clear -H3 I3]; set_solver.
Qed.

Lemma buildEntry_featuresIndexed st (entry : string * Config) :
  featuresIndexed st.1 -> featuresIndexed (buildEntry st entry).1.
Proof.
  intros (F1 & F2 & F3). unfold featuresIndexed.
  destruct (buildEntry_tables st entry) as (_ & _ & _ & ->).
  destruct entry as [siteName config].
  unfold buildEntry, registered, domainWrites, groupWrites. simpl.
  destruct (isMetadata config) eqn:Em; simpl; [set_solver|].
  unfold indexFeatures.
  destruct (truthy (domain config)) eqn:Et; simpl.
  - pose proof (indexDomains_doms config
                  (match group config with
                   | Some g => g
                   | None => [default "" (domain config)]
                   end) (register siteName config st.1, st.2)) as (H1 & H2 & H3).
    simpl in *.
    assert (botUserAgents (register siteName config st.1) = botUserAgents st.1
            /\ cookieRules (register siteName config st.1) = cookieRules st.1
            /\ blockRules (register siteName config st.1) = blockRules st.1)
      as (R1 & R2 & R3).
    { unfold register. destruct (group config) as [g|].
      - unfold registerGroup. simpl. clear.
        generalize st.1. induction g as [|d g IH]; intros s; [done|].
        simpl. destruct (IH (registerGroupDomain siteName s d)) as (-> & -> & ->).
        done.
      - destruct (domain config) as [d|]; [|done]. by destruct (truthy (Some d)). }
    rewrite R1, R2, R3 in *.
    destruct (group config) as [g|].
    + rewrite <- list_fmap_compose.
      assert ((fst ∘ (fun d : string => (d, siteName))) <$> g = g) as ->.
      { clear. induction g; simpl; [done|]. by f_equal. }
      split_and!; [clear -H1 F1|clear -H2 F2|clear -H3 F3]; set_solver.
    + destruct (domain config) as [d|]; [|done]. simpl in *. rewrite Et. simpl.
      split_and!; [clear -H1 F1|clear -H2 F2|clear -H3 F3]; set_solver.
  - assert (botUserAgents (register siteName config st.1) = botUserAgents st.1
            /\ cookieRules (register siteName config st.1) = cookieRules st.1
            /\ blockRules (register siteName config st.1) = blockRules st.1)
      as (R1 & R2 & R3).
    { unfold register. destruct (group config) as [g|].
      - unfold registerGroup. simpl. clear.
        generalize st.1. induction g as [|d g IH]; intros s; [done|].
        simpl. destruct (IH (registerGroupDomain siteName s d)) as (-> & -> & ->).
        done.
      - destruct (domain config) as [d|]; [|done]. by destruct (truthy (Some d)). }
    rewrite R1, R2, R3.
    split_and!; [clear -F1|clear -F2|clear -F3]; set_solver.
Qed.

Lemma buildIndexes_featuresIndexed (siteConfigs : Catalog) st :
  featuresIndexed st.1 -> featuresIndexed (buildIndexes siteConfigs st).1.
Proof.
  unfold buildIndexes. revert st.
  induction siteConfigs as [|entry rest IH]; intros st H; [done|].
  simpl. by apply IH, buildEntry_featuresIndexed.
Qed.

Lemma featuresIndexed_new : featuresIndexed new.
Proof. unfold featuresIndexed. simpl. set_solver. Qed.

(** X6. The feature tables hold entries for indexed domains only: after
    the core catalog and any further partition have been built on a new
    index, a domain that is not indexed has no user agent, no cookie
    directive and no block pattern, and no request to it is blocked (the
    Pattern Cache is not consulted). *)
Theorem features_only_for_indexed (core partition : Catalog)
    (rc : RegexCache.t) d url :
  hasDomain d (buildIndexes partition (buildIndexes core (new, rc))).1 = false ->
  getUserAgent d (buildIndexes partition (buildIndexes core (new, rc))).1 = None
  /\ getCookieRules d (buildIndexes partition (buildIndexes core (new, rc))).1 = None
  /\ getBlockRules d (buildIndexes partition (buildIndexes core (new, rc))).1 = []
  /\ shouldBlockRequest d url (buildIndexes partition (buildIndexes core (new, rc)))
     = (false, (buildIndexes partition (buildIndexes core (new, rc))).2).
Proof.
  set (st := buildIndexes partition (buildIndexes core (new, rc))).
  assert (featuresIndexed st.1) as (F1 & F2 & F3).
  { apply buildIndexes_featuresIndexed, buildIndexes_featuresIndexed,
      featuresIndexed_new. }
  unfold hasDomain. rewrite bool_decide_eq_false. intros Hd.
  assert (botUserAgents st.1 !! d = None) as E1.
  { apply not_elem_of_dom. set_solver. }
  assert (cookieRules st.1 !! d = None) as E2.
  { apply not_elem_of_dom. set_solver. }
  assert (blockRules st.1 !! d = None) as E3.
  { apply not_elem_of_dom. set_solver. }
  unfold shouldBlockRequest, getUserAgent, getCookieRules, getBlockRules.
  by rewrite E1, E2, E3.
Qed.

End Facts.

Lemma features_only_for_indexed_witness :
  hasDomain "example.com"
    (buildIndexes (B := LiteralRegExp.builtin) []
       (buildIndexes (B := LiteralRegExp.builtin) nytCatalog
          (new, RegexCache.default))).1 = false
  /\ getBlockRules "example.com"
       (buildIndexes (B := LiteralRegExp.builtin) []
          (buildIndexes (B := LiteralRegExp.builtin) nytCatalog
             (new, RegexCache.default))).1 = [].
Proof.
  split; [reflexivity|].
  apply (features_only_for_indexed (B := LiteralRegExp.builtin) nytCatalog []
           RegexCache.default "example.com" "https://example.com/").
  reflexivity.
Defined.

End SiteIndexesInvariants.

(** ** The Pattern Cache on a coherent rule list *)
Module PatternCacheExact.
Import RegexCache SiteIndexes Aux JsMapFacts RegexCacheFacts.



Section Facts.
Context {B : RegExpBuiltin}.
Implicit Types (st : State) (rc : RegexCache.t) (rules : list RegExp)
  (r : RegExp) (url d : string).





End Facts.


End PatternCacheExact.

(** ** SiteIndexes: the catalog and the lookups *)
Module SiteIndexesCatalog.
Import SiteIndexes Aux SiteIndexesTables.

Section Facts.
Context {B : RegExpBuiltin}.
Implicit Types (st : State) (s : t) (config : Config) (d url : string).

Lemma buildEntry_ignored st (entry : string * Config) :
  ignored entry = true -> buildEntry st entry = st.
Proof.
  destruct entry as [siteName config]. unfold ignored, buildEntry. simpl.
  destruct (isMetadata config); [done|]. simpl.
  destruct (truthy (domain config)) eqn:Et; [done|]. simpl.
  destruct (group config) as [g|] eqn:Eg; [done|]. intros _.
  unfold indexFeatures, register. rewrite Et, Eg. simpl.
  destruct st as [s rc]. simpl.
  destruct (domain config) as [d0|]; [|done]. simpl in Et. by rewrite Et.
Qed.

(** X8. Entries that carry no domain to register are passed over: metadata
    entries (a [domain] that starts with [#], whatever group they declare)
    and entries with neither a group nor a domain change nothing, so
    building a catalog is building it without them. *)
Theorem buildIndexes_ignores (siteConfigs : Catalog) st :
  buildIndexes siteConfigs st
  = buildIndexes (List.filter (fun e => negb (ignored e)) siteConfigs) st.
Proof.
  unfold buildIndexes. revert st.
  induction siteConfigs as [|e l IH]; intros st; [done|].
  simpl. destruct (ignored e) eqn:E; simpl.
  - rewrite buildEntry_ignored by done. apply IH.
  - apply IH.
Qed.

Lemma registerGroup_totalSites siteName config g s :
  totalSites (registerGroup siteName config g s) = totalSites s + length g.
Proof.
  unfold registerGroup. simpl. f_equal. revert s.
  induction g as [|d g IH]; intros s; [done|]. simpl. by rewrite IH.
Qed.

Lemma buildEntry_totalSites st (entry : string * Config) :
  totalSites (buildEntry st entry).1 = totalSites st.1 + registrations entry.
Proof.
  destruct entry as [siteName config]. unfold buildEntry, registrations. simpl.
  destruct (isMetadata config); [lia|].
  destruct (indexFeatures_core config (register siteName config st.1, st.2))
    as (_ & _ & _ & _ & ->). simpl.
  unfold register. destruct (group config) as [g|].
  - apply registerGroup_totalSites.
  - destruct (domain config) as [d0|]; simpl; [|lia].
    destruct (negb (String.eqb d0 "")); simpl; lia.
Qed.

Lemma buildIndexes_totalSites (siteConfigs : Catalog) st :
  totalSites (buildIndexes siteConfigs st).1
  = totalSites st.1 + sum_list (registrations <$> siteConfigs).
Proof.
  unfold buildIndexes. revert st.
  induction siteConfigs as [|e l IH]; intros st; simpl; [lia|].
  rewrite IH, buildEntry_totalSites. by rewrite <- Nat.add_assoc.
Qed.

Lemma size_setAll {V} (l : list (string * V)) (m : gmap string V) :
  size (setAll l m) <= size m + length l.
Proof.
  revert m. induction l as [|[k v] l IH]; intros m; simpl; [lia|].
  unfold setAll in *. simpl. etrans; [apply IH|].
  destruct (m !! k) eqn:E.
  - rewrite <- (insert_delete_id m k v0) at 1 by done.
    rewrite insert_insert_eq, map_size_insert_None by apply lookup_delete_eq.
    rewrite <- (insert_delete_id m k v0) at 2 by done.
    rewrite map_size_insert_None by apply lookup_delete_eq. lia.
  - rewrite map_size_insert_None by done. lia.
Qed.

Lemma registrations_writes (siteConfigs : Catalog) :
  sum_list (registrations <$> siteConfigs)
  = length (siteConfigs ≫= domainWrites) + length (siteConfigs ≫= groupWrites).
Proof.
  induction siteConfigs as [|e l IH]; [done|].
  rewrite !bind_cons, !length_app, fmap_cons. simpl. rewrite IH.
  unfold registrations, domainWrites, groupWrites.
  destruct (isMetadata e.2); simpl; [lia|].
  destruct (group e.2) as [g|]; simpl.
  - rewrite length_fmap. lia.
  - destruct (domain e.2) as [d0|]; simpl; [|lia].
    destruct (negb (String.eqb d0 "")); simpl; lia.
Qed.

(** X9. [totalSites] counts registrations, not domains: a build adds to it
    one for every entry with a single domain and the length of the group
    for every entry with a group, also when the domains were registered
    before.  On a new index [directDomains] plus [groupedDomains] is at most
    [totalSites], and building the same catalog again adds the
    registrations a second time while the two sizes stay as they are. *)
Theorem getStats_totalSites (siteConfigs : Catalog) st (rc : RegexCache.t) :
  Stats.totalSites (getStats (buildIndexes siteConfigs st).1)
  = Stats.totalSites (getStats st.1) + sum_list (registrations <$> siteConfigs)
  /\ Stats.directDomains (getStats (buildIndexes siteConfigs (new, rc)).1)
     + Stats.groupedDomains (getStats (buildIndexes siteConfigs (new, rc)).1)
     <= Stats.totalSites (getStats (buildIndexes siteConfigs (new, rc)).1)
  /\ Stats.totalSites
       (getStats (buildIndexes siteConfigs (buildIndexes siteConfigs (new, rc))).1)
     = 2 * Stats.totalSites (getStats (buildIndexes siteConfigs (new, rc)).1)
  /\ Stats.directDomains
       (getStats (buildIndexes siteConfigs (buildIndexes siteConfigs (new, rc))).1)
     = Stats.directDomains (getStats (buildIndexes siteConfigs (new, rc)).1)
  /\ Stats.groupedDomains
       (getStats (buildIndexes siteConfigs (buildIndexes siteConfigs (new, rc))).1)
     = Stats.groupedDomains (getStats (buildIndexes siteConfigs (new, rc)).1).
Proof.
  unfold getStats. simpl. split_and!.
  - apply buildIndexes_totalSites.
  - rewrite buildIndexes_totalSites. simpl.
    destruct (buildIndexes_tables siteConfigs (new, rc)) as (-> & -> & _ & _).
    simpl. rewrite registrations_writes.
    pose proof (size_setAll (siteConfigs ≫= domainWrites) (∅ : gmap string Config)) as H1.
    pose proof (size_setAll (siteConfigs ≫= groupWrites) (∅ : gmap string string)) as H2.
    rewrite map_size_empty in H1. rewrite map_size_empty in H2. simpl in H1, H2. lia.
  - rewrite !buildIndexes_totalSites. simpl. lia.
  - by destruct (buildIndexes_twice_tables siteConfigs (new, rc)) as (-> & _).
  - by destruct (buildIndexes_twice_tables siteConfigs (new, rc)) as (_ & -> & _).
Qed.

(** X10. Which entry answers [getSiteConfig(d)] after a catalog has been
    built on a new index: the last entry that registers [d] as its single
    domain; if there is none, the last entry registered under the name of
    the last group that lists [d]; otherwise [null]. *)
Theorem getSiteConfig_of_catalog (siteConfigs : Catalog) (rc : RegexCache.t) d :
  getSiteConfig d (buildIndexes siteConfigs (new, rc)).1
  = match lastWrite d (siteConfigs ≫= domainWrites) with
    | Some config => Some config
    | None =>
        match lastWrite d (siteConfigs ≫= groupWrites) with
        | Some groupName => lastWrite groupName (siteConfigs ≫= groupConfigWrites)
        | None => None
        end
    end.
Proof.
  unfold getSiteConfig.
  destruct (buildIndexes_tables siteConfigs (new, rc)) as (-> & -> & -> & _).
  simpl. rewrite !lookup_setAll, !lookup_empty.
  destruct (lastWrite d (siteConfigs ≫= domainWrites)); [done|].
  destruct (lastWrite d (siteConfigs ≫= groupWrites)) as [g|]; [|done].
  rewrite lookup_setAll, lookup_empty.
  by destruct (lastWrite g (siteConfigs ≫= groupConfigWrites)).
Qed.

End Facts.
End SiteIndexesCatalog.

(** ** SiteIndexes: the features of an entry after the whole build *)
Module SiteIndexesPopulated.
Import SiteIndexes Aux SiteIndexesTables SiteIndexesFeatures.

Section Facts.
Context {B : RegExpBuiltin}.
Implicit Types (st : State) (s : t) (config : Config) (d url : string).






End Facts.


End SiteIndexesPopulated.

(** ** ChunkLoader: the reverse index and the retry loop *)
Module ChunkLoaderIndex.
Import ChunkLoader Aux.

Lemma mapDomains_lookup (m : gmap string string) (entry : string * ChunkData) d :
  mapDomains m entry !! d
  = match domains entry.2 with
    | Some ds => if bool_decide (d ∈ ds) then Some entry.1 else m !! d
    | None => m !! d
    end.
Proof.
  unfold mapDomains. destruct (domains entry.2) as [ds|]; [|done].
  revert m. induction ds as [|d0 ds IH]; intros m; simpl; [done|].
  rewrite IH. destruct (decide (d = d0)) as [->|Hne].
  - rewrite (bool_decide_eq_true_2 (d0 ∈ d0 :: ds)) by apply list_elem_of_here.
    case_bool_decide; [done|]. by rewrite lookup_insert_eq.
  - rewrite lookup_insert_ne by done.
    case_bool_decide as H1; case_bool_decide as H2; try done.
    + exfalso. apply H2. by apply list_elem_of_further.
    + apply elem_of_cons in H2 as [?|?]; done.
Qed.

Lemma foldl_mapDomains_lookup (manifest : Manifest) (m : gmap string string) d :
  foldl mapDomains m manifest !! d
  = match lastListing d manifest with Some c => Some c | None => m !! d end.
Proof.
  revert m. induction manifest as [|[c data] rest IH]; intros m; simpl; [done|].
  rewrite IH. destruct (lastListing d rest); [done|].
  rewrite mapDomains_lookup. simpl.
  destruct (domains data) as [ds|]; [|done]. by case_bool_decide.
Qed.

Lemma lastListing_Some d (manifest : Manifest) c :
  lastListing d manifest = Some c ->
  exists data ds, (c, data) ∈ manifest /\ domains data = Some ds /\ d ∈ ds.
Proof.
  induction manifest as [|[c0 data0] rest IH]; simpl; [done|].
  destruct (lastListing d rest) as [later|].
  - intros [= ->]. destruct IH as (data & ds & Hin & Hds & Hd); [done|].
    exists data, ds. split_and!; [|done..]. by apply list_elem_of_further.
  - destruct (domains data0) as [ds|] eqn:E; [|done].
    case_bool_decide; [|done]. intros [= ->].
    exists data0, ds. split_and!; [|done..]. apply list_elem_of_here.
Qed.

Lemma lastListing_listed d (manifest : Manifest) c data ds :
  (c, data) ∈ manifest -> domains data = Some ds -> d ∈ ds ->
  is_Some (lastListing d manifest).
Proof.
  intros Hin Hds Hd. induction manifest as [|[c0 data0] rest IH]; simpl.
  { by apply elem_of_nil in Hin. }
  apply elem_of_cons in Hin as [[= <- <-]|Hin].
  - destruct (lastListing d rest); [done|]. rewrite Hds.
    by rewrite bool_decide_eq_true_2.
  - destruct (IH Hin) as [c' ->]. done.
Qed.

(** X12. The reverse index [init] builds: a domain is mapped to the last
    partition of the manifest whose [domains] array lists it, and a domain
    no partition lists keeps the mapping an earlier [init] gave it.  On a
    new loader a domain is mapped exactly when some partition lists it, to a
    partition that does. *)
Theorem init_maps_domains (manifest : Manifest) (l : t) d :
  getChunkForDomain d (init manifest l)
  = match lastListing d manifest with
    | Some c => Some c
    | None => getChunkForDomain d l
    end
  /\ (forall c, getChunkForDomain d (init manifest new) = Some c ->
        exists data ds, (c, data) ∈ manifest /\ domains data = Some ds /\ d ∈ ds)
  /\ (forall c data ds,
        (c, data) ∈ manifest -> domains data = Some ds -> d ∈ ds ->
        is_Some (getChunkForDomain d (init manifest l))).
Proof.
  unfold getChunkForDomain, init. simpl. split_and!.
  - apply foldl_mapDomains_lookup.
  - intros c. rewrite foldl_mapDomains_lookup, lookup_empty.
    destruct (lastListing d manifest) as [c'|] eqn:E; [|done].
    intros [= ->]. by apply lastListing_Some.
  - intros c data ds Hin Hds Hd. rewrite foldl_mapDomains_lookup.
    by destruct (lastListing_listed d manifest c data ds Hin Hds Hd) as [c' ->].
Qed.

Section Facts.
Context {B : RegExpBuiltin}.
Implicit Types (w : World) (host : nat -> Import).

Lemma afterImports_S n w : afterImports (S n) w = afterImports n (countImport w).
Proof. unfold afterImports, countImport. simpl. f_equal. lia. Qed.

(** In a page the loop of [loadChunk] stops at the first import that
    succeeds. *)
Lemma attempts_first_success host (chunkName : string)
    (retries remaining attempt k : nat) (chunk : option Catalog) w :
  window w = true ->
  attempt + remaining = retries -> k < remaining ->
  (forall j, j < k -> host (imports w + j) = ImportThrows) ->
  host (imports w + k) = ImportDone chunk ->
  attempts host chunkName retries attempt remaining w
  = (true, imported chunkName chunk (afterImports (S k) w)).
Proof.
  revert attempt remaining w.
  induction k as [|k IH]; intros attempt remaining w Hwin Hsum Hk Hbefore Hdone.
  - destruct remaining as [|remaining]; [lia|]. simpl.
    rewrite Nat.add_0_r in Hdone. rewrite Hdone. simpl. rewrite Hwin.
    do 2 f_equal.
  - destruct remaining as [|remaining]; [lia|]. simpl.
    pose proof (Hbefore 0 ltac:(lia)) as H0. rewrite Nat.add_0_r in H0. rewrite H0.
    cbn [afterImport].
    destruct (Nat.eqb_spec attempt (retries - 1)) as [E|E]; [lia|].
    rewrite (IH (attempt + 1) remaining (countImport w)); [|done|lia|lia| |].
    + by rewrite <- afterImports_S.
    + intros j Hj. simpl. rewrite <- Nat.add_assoc. apply Hbefore. lia.
    + simpl. rewrite <- Nat.add_assoc. exact Hdone.
Qed.

(** In a service worker no attempt returns: the loop makes every one of its
    imports and ends with [false]; the index is not touched, and the
    partition is marked loaded as soon as its script has run once. *)
Lemma attempts_in_worker host (chunkName : string)
    (retries remaining attempt : nat) w :
  window w = false ->
  attempt + remaining = retries ->
  (attempts host chunkName retries attempt remaining w).1 = false
  /\ imports (attempts host chunkName retries attempt remaining w).2
     = imports w + remaining
  /\ sites (attempts host chunkName retries attempt remaining w).2 = sites w
  /\ (isChunkLoaded chunkName
        (loader (attempts host chunkName retries attempt remaining w).2) = true
      <-> isChunkLoaded chunkName (loader w) = true
          \/ exists n chunk, n < remaining /\ host (imports w + n) = ImportDone chunk).
Proof.
  revert attempt w.
  induction remaining as [|k IH]; intros attempt w Hwin Hsum.
  - simpl. split_and!; [done|lia|done|]. split; [by left|].
    intros [H|(n & chunk & Hn & _)]; [done|lia].
  - simpl. destruct (host (imports w)) as [|chunk] eqn:Eh; cbn [afterImport].
    + destruct (Nat.eqb_spec attempt (retries - 1)) as [E|E].
      * simpl. split_and!; [done|lia|done|]. split; [by left|].
        intros [H|(n & chunk & Hn & Hd)]; [done|].
        assert (n = 0) as -> by lia. rewrite Nat.add_0_r in Hd. congruence.
      * destruct (IH (attempt + 1) (countImport w) Hwin ltac:(lia))
          as (H1 & H2 & H3 & H4).
        split_and!; [done|simpl in H2; lia|done|].
        rewrite H4. simpl. split.
        -- intros [H|(n & chunk & Hn & Hd)]; [by left|].
           right. exists (S n), chunk. split; [lia|].
           by replace (imports w + S n) with (imports w + 1 + n) by lia.
        -- intros [H|(n & chunk & Hn & Hd)]; [by left|].
           destruct n as [|n]; [rewrite Nat.add_0_r in Hd; congruence|].
           right. exists n, chunk. split; [lia|].
           by replace (imports w + 1 + n) with (imports w + S n) by lia.
    + simpl. rewrite Hwin.
      assert (isChunkLoaded chunkName (loader (marked chunkName (countImport w)))
              = true) as Hm.
      { unfold isChunkLoaded. apply bool_decide_eq_true. simpl. set_solver. }
      assert (exists n chunk', n < S k /\ host (imports w + n) = ImportDone chunk')
        as Hex.
      { exists 0, chunk. split; [lia|]. by rewrite Nat.add_0_r. }
      destruct (Nat.eqb_spec attempt (retries - 1)) as [E|E].
      * simpl. split_and!; [done|lia|done|]. split; [by right|]. intros _.
        unfold isChunkLoaded. apply bool_decide_eq_true. simpl. set_solver.
      * destruct (IH (attempt + 1) (marked chunkName (countImport w)) Hwin ltac:(lia))
          as (H1 & H2 & H3 & H4).
        split_and!; [done|simpl in H2; lia|done|].
        rewrite H4. split; [by right|]. intros _. by left.
Qed.

(** X13. The retry loop of [loadChunk], for a partition the manifest
    knows.  When all [retries] imports throw it returns [false] after
    [retries] imports and nothing else has changed.  In a page, when the
    import number [k] is the first that does not throw, it returns [true]
    after [k + 1] imports, with the partition added to the loaded set and
    the sites the script left built into the index; no import is made after
    the first success.  In a service worker it returns [false] after
    [retries] imports whatever the host does, the index is not touched, and
    the partition is marked loaded exactly when it was before or one of the
    imports did not throw. *)
Theorem loadChunk_retries host (chunkName : string) (retries : nat) w :
  knownChunk chunkName (chunkManifest (loader w)) = true ->
  ((forall n, n < retries -> host (imports w + n) = ImportThrows) ->
   (loadChunk host chunkName retries w).1 = false
   /\ imports (loadChunk host chunkName retries w).2 = imports w + retries
   /\ loader (loadChunk host chunkName retries w).2 = loader w
   /\ sites (loadChunk host chunkName retries w).2 = sites w)
  /\ (window w = true ->
      forall k chunk,
        k < retries ->
        (forall j, j < k -> host (imports w + j) = ImportThrows) ->
        host (imports w + k) = ImportDone chunk ->
        (loadChunk host chunkName retries w).1 = true
        /\ imports (loadChunk host chunkName retries w).2 = imports w + k + 1
        /\ isChunkLoaded chunkName (loader (loadChunk host chunkName retries w).2)
           = true
        /\ loadedChunks (loader (loadChunk host chunkName retries w).2)
           = {[chunkName]} ∪ loadedChunks (loader w)
        /\ siteToChunkMap (loader (loadChunk host chunkName retries w).2)
           = siteToChunkMap (loader w)
        /\ loading (loader (loadChunk host chunkName retries w).2)
           = loading (loader w)
        /\ sites (loadChunk host chunkName retries w).2
           = match chunk with
             | Some c => SiteIndexes.buildIndexes c (sites w)
             | None => sites w
             end)
  /\ (window w = false ->
      (loadChunk host chunkName retries w).1 = false
      /\ imports (loadChunk host chunkName retries w).2 = imports w + retries
      /\ sites (loadChunk host chunkName retries w).2 = sites w
      /\ (isChunkLoaded chunkName (loader (loadChunk host chunkName retries w).2)
          = true
          <-> isChunkLoaded chunkName (loader w) = true
              \/ exists n chunk,
                   n < retries /\ host (imports w + n) = ImportDone chunk)).
Proof.
  intros Hknown. unfold loadChunk. rewrite Hknown. split_and!.
  - intros Hall.
    by rewrite (ChunkLoaderFacts.attempts_all_throw host chunkName retries retries 0).
  - intros Hwin k chunk Hk Hbefore Hdone.
    rewrite (attempts_first_success host chunkName retries retries 0 k chunk)
      by done.
    simpl. split_and!; [done|lia| |done..].
    unfold isChunkLoaded. apply bool_decide_eq_true. simpl. set_solver.
  - intros Hwin. by apply attempts_in_worker.
Qed.

End Facts.

Lemma loadChunk_retries_witness :
  (loadChunk (B := LiteralRegExp.builtin) online "india" 3 ready).1 = true
  /\ imports (loadChunk (B := LiteralRegExp.builtin) online "india" 3 ready).2 = 1
  /\ isChunkLoaded "india"
       (loader (loadChunk (B := LiteralRegExp.builtin) online "india" 3 ready).2)
     = true
  /\ sites (loadChunk (B := LiteralRegExp.builtin) online "india" 3 ready).2
     = SiteIndexes.buildIndexes (B := LiteralRegExp.builtin) indiaChunk fresh
  /\ (loadChunk (B := LiteralRegExp.builtin) online "india" 3 readyInWorker).1 = false
  /\ imports (loadChunk (B := LiteralRegExp.builtin) online "india" 3 readyInWorker).2
     = 3.
Proof.
  destruct (loadChunk_retries (B := LiteralRegExp.builtin) online "india" 3 ready
              eq_refl) as (_ & Hpage & _).
  destruct (Hpage eq_refl 0 (Some indiaChunk) ltac:(lia)
              ltac:(intros j Hj; lia) eq_refl)
    as (H1 & H2 & H3 & _ & _ & _ & H4).
  destruct (loadChunk_retries (B := LiteralRegExp.builtin) online "india" 3
              readyInWorker eq_refl) as (_ & _ & Hworker).
  destruct (Hworker eq_refl) as (H5 & H6 & _).
  split_and!; [exact H1|exact H2|exact H3|exact H4|exact H5|exact H6].
Defined.

End ChunkLoaderIndex.

(** ** ChunkLoader: a partition that has loaded *)
Module ChunkLoaderLoaded.
Import ChunkLoader Aux.

Section Facts.
Context {B : RegExpBuiltin}.
Implicit Types (w : World) (host : nat -> Import).

(** The loop of [loadChunk] writes to the loader only by marking the
    partition loaded, which it has done when it returns [true]; it never
    drops an indexed domain. *)
Lemma attempts_loader host (chunkName : string) (retries attempt remaining : nat) w :
  let r := attempts host chunkName retries attempt remaining w in
  siteToChunkMap (loader r.2) = siteToChunkMap (loader w)
  /\ loading (loader r.2) = loading (loader w)
  /\ (r.1 = true -> chunkName ∈ loadedChunks (loader r.2))
  /\ (forall d, SiteIndexes.hasDomain d (sites w).1 = true ->
                SiteIndexes.hasDomain d (sites r.2).1 = true).
Proof.
  simpl. revert attempt w.
  induction remaining as [|k IH]; intros attempt w; simpl; [done|].
  destruct (host (imports w)) as [|chunk]; cbn [afterImport].
  - destruct (attempt =? retries - 1)%nat; simpl; [done|].
    destruct (IH (attempt + 1) (countImport w)) as (H1 & H2 & H3 & H4).
    simpl in *. done.
  - simpl. destruct (window w); simpl.
    + split_and!; [done|done|set_solver|].
      intros d Hd. destruct chunk as [c|]; [|done].
      by apply SiteIndexesTables.buildIndexes_keeps_domain.
    + destruct (attempt =? retries - 1)%nat; simpl; [done|].
      destruct (IH (attempt + 1) (marked chunkName (countImport w)))
        as (H1 & H2 & H3 & H4).
      simpl in *. done.
Qed.

(** X14. A partition that has loaded stays loaded: when a call of
    [ensureChunkLoaded] that had to load the partition returns [true], the
    partition is marked loaded, no load is in flight, and every later call
    for a domain of the same partition returns [true] at once, without an
    import, on whatever host. *)
Theorem loaded_partition_answers host host' (d d' c : string) (r r' : nat) w w' :
  resolve d w = MustLoad c ->
  ensureChunkLoaded host d r w = Some (true, w') ->
  getChunkForDomain d' (loader w) = Some c ->
  isChunkLoaded c (loader w') = true
  /\ loading (loader w') !! c = None
  /\ ensureChunkLoaded host' d' r' w' = Some (true, w').
Proof.
  intros Hres Hcall Hd'. unfold ensureChunkLoaded in Hcall. rewrite Hres in Hcall.
  assert (truthy (Some c) = true) as Htruthy.
  { unfold resolve in Hres. destruct (SiteIndexes.hasDomain d (sites w).1); [done|].
    destruct (siteToChunkMap (loader w) !! d) as [c0|]; [|done].
    destruct (truthy (Some c0)) eqn:Et; [|done]. simpl in Hres.
    destruct (isChunkLoaded c0 (loader w)); [done|].
    destruct (loading (loader w) !! c0); [done|]. by injection Hres as <-. }
  set (w1 := withLoader w (withLoading (loader w) (<[c:=0]> (loading (loader w))))) in *.
  unfold loadChunk in Hcall.
  destruct (knownChunk c (chunkManifest (loader w1))); [|done].
  pose proof (attempts_loader host c r 0 r w1) as (Hm & Hl & Hin & _). simpl in *.
  destruct (attempts host c r 0 r w1) as [b w2]. simpl in *.
  injection Hcall as -> <-. simpl.
  assert (isChunkLoaded c (loader w2) = true) as Hloaded.
  { unfold isChunkLoaded. rewrite bool_decide_eq_true. by apply Hin. }
  split_and!.
  - unfold isChunkLoaded in *. done.
  - apply lookup_delete_eq.
  - unfold ensureChunkLoaded, resolve. simpl.
    destruct (SiteIndexes.hasDomain d' (sites w2).1); [done|].
    unfold getChunkForDomain in Hd'. rewrite Hm, Hd', Htruthy. simpl.
    unfold isChunkLoaded in *. simpl in *. by rewrite Hloaded.
Qed.

End Facts.

Lemma loaded_partition_answers_witness :
  exists w',
    ensureChunkLoaded (B := LiteralRegExp.builtin) online "example.in" 3 ready
    = Some (true, w')
    /\ isChunkLoaded "india" (loader w') = true
    /\ ensureChunkLoaded (B := LiteralRegExp.builtin) offline "other.in" 3 w'
       = Some (true, w').
Proof.
  eexists. split; [reflexivity|].
  destruct (loaded_partition_answers (B := LiteralRegExp.builtin) online offline
              "example.in" "other.in" "india" 3 3 ready _ eq_refl eq_refl eq_refl)
    as (H1 & _ & H3).
  split; [exact H1|exact H3].
Defined.

End ChunkLoaderLoaded.

(** ** UsageLearner: the storage, a restart, the statistics *)
Module UsageLearnerStorage.
Import UsageLearner Aux UsageLearnerFacts.

#[local] Arguments Nat.div : simpl never.
#[local] Arguments Nat.modulo : simpl never.
#[local] Arguments Nat.mul : simpl never.

Lemma persisted_new (T : nat) (ws : list bool) :
  Forall (eq true) ws -> persisted (new T ws).
Proof.
  intros Hws. split_and!; [done|done|]. intros d.
  unfold storedCount, getVisitCount. simpl. rewrite lookup_empty. simpl.
  pose proof (Nat.Div0.mul_div_le 0 10). lia.
Qed.

Lemma Forall_hd_tl (ws : list bool) :
  Forall (eq true) ws -> hd true ws = true /\ Forall (eq true) (tl ws).
Proof. intros H. destruct H as [|b ws <- H]; simpl; done. Qed.

Lemma persisted_trackVisit (d : string) (u : t) :
  persisted u -> persisted (trackVisit d u).
Proof.
  intros (Hws & Hp & Hc). unfold trackVisit.
  destruct (enabled u) eqn:Een; cbn [negb]; [|done]. cbv zeta. cbn [visitCounts promotionThreshold].
  destruct (Forall_hd_tl _ Hws) as [Hhd Htl].
  destruct (Forall_hd_tl _ Htl) as [Hhd' Htl'].
  assert (forall d', getVisitCount d' u <= default 0 (<[d := default 0 (visitCounts u !! d) + 1]> (visitCounts u) !! d')
                     /\ (d' <> d -> default 0 (<[d := default 0 (visitCounts u !! d) + 1]> (visitCounts u) !! d') = getVisitCount d' u)
                     /\ default 0 (<[d := default 0 (visitCounts u !! d) + 1]> (visitCounts u) !! d)
                        = getVisitCount d u + 1) as Hcount.
  { intros d'. unfold getVisitCount. split_and!.
    - destruct (decide (d = d')) as [->|Hne].
      + rewrite lookup_insert_eq. simpl. lia.
      + by rewrite lookup_insert_ne.
    - intros Hne. by rewrite lookup_insert_ne.
    - by rewrite lookup_insert_eq. }
  set (counts := <[d := default 0 (visitCounts u !! d) + 1]> (visitCounts u)) in *.
  destruct ((default 0 (visitCounts u !! d) + 1) mod 10 =? 0)%nat eqn:Emod.
  - (* the counter reached a multiple of ten: everything is written *)
    destruct ((promotionThreshold u <=? default 0 (visitCounts u !! d) + 1)%nat
              && negb (isPromoted d _)) eqn:Epromote.
    + unfold persist, promoteToCore, storageSet, persisted, storedPromoted,
        storedCount, getVisitCount. simpl. rewrite Hhd, Hhd'. simpl.
      split_and!; [by apply Forall_hd_tl|done|]. intros d'. split; [done|].
      pose proof (Nat.Div0.mul_div_le (default 0 (counts !! d')) 10). lia.
    + unfold persist, storageSet, persisted, storedPromoted, storedCount,
        getVisitCount. simpl. rewrite Hhd. simpl.
      split_and!; [done|done|]. intros d'. split; [done|].
      pose proof (Nat.Div0.mul_div_le (default 0 (counts !! d')) 10). lia.
  - (* no counter at a multiple of ten: at most the promoted set is written *)
    apply Nat.eqb_neq in Emod.
    assert (forall d', storedCount d' u <= default 0 (counts !! d')
                       /\ 10 * (default 0 (counts !! d') / 10) <= storedCount d' u)
      as Hc'.
    { intros d'. destruct (Hc d') as [H1 H2]. destruct (Hcount d') as (G1 & G2 & G3).
      split; [lia|]. destruct (decide (d' = d)) as [->|Hne].
      - rewrite G3. unfold getVisitCount in *.
        pose proof (Nat.div_mod_eq (default 0 (visitCounts u !! d)) 10).
        pose proof (Nat.div_mod_eq (default 0 (visitCounts u !! d) + 1) 10).
        pose proof (Nat.mod_upper_bound (default 0 (visitCounts u !! d)) 10 ltac:(lia)).
        pose proof (Nat.mod_upper_bound (default 0 (visitCounts u !! d) + 1) 10 ltac:(lia)).
        lia.
      - by rewrite G2. }
    destruct ((promotionThreshold u <=? default 0 (visitCounts u !! d) + 1)%nat
              && negb (isPromoted d _)) eqn:Epromote.
    + unfold promoteToCore, storageSet, persisted, storedPromoted, storedCount,
        getVisitCount. simpl. rewrite Hhd. simpl.
      split_and!; [done|done|]. apply Hc'.
    + unfold persisted, storedPromoted, storedCount, getVisitCount. simpl.
      split_and!; [done|done|]. apply Hc'.
Qed.

Lemma persisted_calls (cs : list Call) (u : t) :
  persisted u -> persisted (calls cs u).
Proof.
  revert u. induction cs as [|c cs IH]; intros u H; [done|].
  simpl. apply IH. destruct c as [d|b]; simpl; [|done].
  by apply persisted_trackVisit.
Qed.

(** X15. What a restart keeps when no write to the storage fails: after any
    sequence of [trackVisit] and [setEnabled] calls on a new learner, a new
    learner that runs [init] on the same storage has the same promoted
    domains, and for every domain a count that is not above the count
    before the restart and not more than nine below it. *)
Theorem restart_keeps_promotions (T T' : nat) (ws ws' : list bool)
    (cs : list Call) (d : string) :
  Forall (eq true) ws ->
  isPromoted d (init true (reopen T' (storage (calls cs (new T ws))) ws'))
  = isPromoted d (calls cs (new T ws))
  /\ getVisitCount d (init true (reopen T' (storage (calls cs (new T ws))) ws'))
     <= getVisitCount d (calls cs (new T ws))
  /\ getVisitCount d (calls cs (new T ws))
     <= getVisitCount d (init true (reopen T' (storage (calls cs (new T ws))) ws')) + 9.
Proof.
  intros Hws.
  destruct (persisted_calls cs (new T ws) (persisted_new T ws Hws)) as (_ & Hp & Hc).
  set (u := calls cs (new T ws)) in *.
  destruct (Hc d) as [H1 H2].
  unfold storedPromoted, storedCount in *.
  assert (getVisitCount d (init true (reopen T' (storage u) ws'))
          = default 0 (default ∅ (usageData (storage u)) !! d)) as ->.
  { unfold getVisitCount, init, reopen. simpl. done. }
  split_and!.
  - unfold isPromoted, init, reopen. simpl. by rewrite Hp.
  - done.
  - pose proof (Nat.div_mod_eq (getVisitCount d u) 10).
    pose proof (Nat.mod_upper_bound (getVisitCount d u) 10 ltac:(lia)). lia.
Qed.

Lemma restart_keeps_promotions_witness :
  Forall (eq true) [true; true]
  /\ isPromoted "nytimes.com"
       (init true (reopen 5
          (storage (calls (replicate 7 (TrackVisit "nytimes.com")) (new 5 [true; true])))
          []))
     = isPromoted "nytimes.com"
         (calls (replicate 7 (TrackVisit "nytimes.com")) (new 5 [true; true])).
Proof.
  split; [by repeat constructor|].
  apply (restart_keeps_promotions 5 5 [true; true] []
           (replicate 7 (TrackVisit "nytimes.com")) "nytimes.com").
  by repeat constructor.
Defined.

Lemma sameMemory_call (u u' : t) (c : Call) :
  sameMemory u u' -> sameMemory (call u c) (call u' c).
Proof.
  intros (Hv & Hp & Ht & He). destruct c as [d|b]; simpl.
  - unfold sameMemory.
    rewrite !trackVisit_counts, !trackVisit_promoted, !trackVisit_threshold,
      !trackVisit_enabled. unfold getVisitCount. by rewrite Hv, Hp, Ht, He.
  - by split_and!.
Qed.

(** X16. A failure of the storage is only logged: whichever writes fail,
    the counters, the promoted set and the switch after a sequence of calls
    are the same, so [getVisitCount] and [isPromoted] do not depend on the
    storage. *)
Theorem storage_failures_only_logged (T : nat) (ws ws' : list bool)
    (cs : list Call) (d : string) :
  visitCounts (calls cs (new T ws')) = visitCounts (calls cs (new T ws))
  /\ promotedSites (calls cs (new T ws')) = promotedSites (calls cs (new T ws))
  /\ getVisitCount d (calls cs (new T ws')) = getVisitCount d (calls cs (new T ws))
  /\ isPromoted d (calls cs (new T ws')) = isPromoted d (calls cs (new T ws)).
Proof.
  assert (sameMemory (calls cs (new T ws)) (calls cs (new T ws'))) as (Hv & Hp & _).
  { assert (sameMemory (new T ws) (new T ws')) as H0 by by split_and!.
    revert H0. generalize (new T ws) (new T ws').
    induction cs as [|c cs IH]; intros u u' H; [done|].
    simpl. by apply IH, sameMemory_call. }
  unfold getVisitCount, isPromoted. by rewrite Hv, Hp.
Qed.

End UsageLearnerStorage.

(** ** UsageLearner: the statistics *)
Module UsageLearnerStats.
Import UsageLearner Aux UsageLearnerFacts.

Ltac refold_fmap :=
  repeat match goal with
         | |- context [list_fmap ?A ?B ?f ?l] =>
             change (list_fmap A B f l) with (f <$> l)
         end.

Lemma foldl_add (l : list nat) (a : nat) : foldl Nat.add a l = a + sum_list l.
Proof.
  revert a. induction l as [|x l IH]; intros a; simpl; [lia|].
  rewrite IH. lia.
Qed.

Lemma total_insert (m : gmap string nat) (d : string) (c : nat) :
  sum_list (map_to_list (<[d := c]> m)).*2 + default 0 (m !! d)
  = sum_list (map_to_list m).*2 + c.
Proof.
  destruct (m !! d) as [c0|] eqn:E; simpl.
  - rewrite <- (insert_delete_id m d c0) at 1 2 by done.
    rewrite insert_insert_eq.
    rewrite !map_to_list_insert by apply lookup_delete_eq. simpl.
    refold_fmap. lia.
  - rewrite map_to_list_insert by done. simpl. refold_fmap. lia.
Qed.

Lemma counted_new (T : nat) (ws : list bool) : counted 0 ∅ (new T ws).
Proof.
  unfold counted, totalVisits. simpl. rewrite map_to_list_empty, dom_empty_L.
  done.
Qed.

Lemma counted_trackVisit (n : nat) (ds : gset string) (d : string) (u : t) :
  counted n ds u -> counted (n + 1) ({[d]} ∪ ds) (trackVisit d u).
Proof.
  intros (Hn & Hd & Hp & He). unfold counted.
  rewrite trackVisit_enabled. unfold totalVisits in *.
  rewrite trackVisit_counts, trackVisit_promoted, He. simpl.
  rewrite foldl_add in *. simpl in *.
  pose proof (total_insert (visitCounts u) d (getVisitCount d u + 1)) as Ht.
  unfold getVisitCount in *. rewrite dom_insert_L, Hd.
  split_and!; [lia|done| |done].
  case_match; set_solver.
Qed.

(** X17. The statistics of a learner: after a sequence of [trackVisit]
    calls on a new learner, [totalVisits] is the number of calls,
    [trackedSites] is the number of different domains visited, and
    [promotedSites] is at most [trackedSites], whatever the threshold. *)
Theorem getStats_counts (T : nat) (ws : list bool) (ds : list string) :
  Stats.totalVisits (getStats (calls (TrackVisit <$> ds) (new T ws))) = length ds
  /\ Stats.trackedSites (getStats (calls (TrackVisit <$> ds) (new T ws)))
     = size (list_to_set ds : gset string)
  /\ Stats.promotedSites (getStats (calls (TrackVisit <$> ds) (new T ws)))
     <= Stats.trackedSites (getStats (calls (TrackVisit <$> ds) (new T ws)))
  /\ Stats.promotionThreshold (getStats (calls (TrackVisit <$> ds) (new T ws))) = T.
Proof.
  assert (forall u n seen, counted n seen u ->
            counted (n + length ds) (list_to_set ds ∪ seen)
              (calls (TrackVisit <$> ds) u)
            /\ promotionThreshold (calls (TrackVisit <$> ds) u)
               = promotionThreshold u) as H.
  { induction ds as [|d ds IH]; intros u n seen Hu; simpl.
    - rewrite Nat.add_0_r, union_empty_l_L. done.
    - destruct (IH (trackVisit d u) (n + 1) ({[d]} ∪ seen)) as [Hc Ht].
      { by apply counted_trackVisit. }
      refold_fmap. rewrite Ht, trackVisit_threshold. split; [|done].
      assert (n + S (length ds) = n + 1 + length ds) as -> by lia.
      assert ({[d]} ∪ list_to_set ds ∪ seen
              = list_to_set ds ∪ ({[d]} ∪ seen)) as -> by set_solver.
      done. }
  destruct (H (new T ws) 0 ∅ (counted_new T ws)) as [(Hn & Hd & Hp & _) Ht].
  unfold getStats. simpl. rewrite Ht. split_and!; [done| | |done].
  - rewrite <- size_dom, Hd. f_equal. set_solver.
  - rewrite <- (size_dom (visitCounts _)). by apply subseteq_size.
Qed.

End UsageLearnerStats.

(** ** Migration: comparing versions *)
Module MigrationVersions.
Import Migration Aux.

Lemma ltb_irrefl (x : JsNumber.t) : JsNumber.ltb x x = false.
Proof.
  destruct x as [|q|[|]]; simpl; [done| |done..].
  apply negb_false_iff, Qle_bool_iff, Qle_refl.
Qed.

Lemma ltb_asym (x y : JsNumber.t) :
  JsNumber.ltb x y = true -> JsNumber.ltb y x = false.
Proof.
  destruct x as [|p|[|]], y as [|q|[|]]; simpl; try done.
  rewrite negb_true_iff, negb_false_iff, Qle_bool_iff.
  intros H. destruct (Qlt_le_dec p q) as [Hlt|Hle].
  - by apply Qlt_le_weak.
  - apply Qle_bool_iff in Hle. congruence.
Qed.

Section Facts.
Context {NB : NumberBuiltin}.
Implicit Types (a b : option string) (aParts bParts : list JsNumber.t).

Lemma compareFrom_swap aParts bParts (i remaining : nat) :
  compareFrom bParts aParts i remaining
  = (- compareFrom aParts bParts i remaining)%Z.
Proof.
  revert i. induction remaining as [|n IH]; intros i; simpl; [done|].
  destruct (JsNumber.ltb (orZero (aParts !! i)) (orZero (bParts !! i))) eqn:E1.
  - by rewrite (ltb_asym _ _ E1).
  - destruct (JsNumber.ltb (orZero (bParts !! i)) (orZero (aParts !! i))); [done|].
    apply IH.
Qed.

Lemma compareVersions_same a : truthy a = true -> compareVersions a a = 0%Z.
Proof.
  intros Ha. unfold compareVersions. rewrite Ha. simpl.
  pose proof (compareFrom_swap (Number <$> split "." (default "" a))
                (Number <$> split "." (default "" a)) 0
                (length (Number <$> split "." (default "" a))
                   `max` length (Number <$> split "." (default "" a)))) as H.
  lia.
Qed.

(** X18. [compareVersions] on two versions that are not empty: swapping
    the arguments negates the result, a version compares equal to itself,
    and the result is [-1], [0] or [1].  When the first version is missing
    or empty the result is [-1], also when the second is missing too. *)
Theorem compareVersions_antisymmetric a b :
  truthy a = true -> truthy b = true ->
  compareVersions b a = (- compareVersions a b)%Z
  /\ compareVersions a a = 0%Z
  /\ (compareVersions a b = (-1)%Z \/ compareVersions a b = 0%Z
      \/ compareVersions a b = 1%Z)
  /\ compareVersions None b = (-1)%Z
  /\ compareVersions (Some "") None = (-1)%Z.
Proof.
  intros Ha Hb. unfold compareVersions. rewrite Ha, Hb. simpl.
  split_and!; [| | |done|done].
  - rewrite Nat.max_comm. apply compareFrom_swap.
  - pose proof (compareFrom_swap (Number <$> split "." (default "" a))
                  (Number <$> split "." (default "" a)) 0
                  (length (Number <$> split "." (default "" a))
                     `max` length (Number <$> split "." (default "" a)))) as H.
    lia.
  - generalize (length (Number <$> split "." (default "" a))
                  `max` length (Number <$> split "." (default "" b))).
    generalize 0. intros i n. revert i.
    induction n as [|n IH]; intros i; simpl; [by right; left|].
    destruct (JsNumber.ltb _ _); [by left|].
    destruct (JsNumber.ltb _ _); [by right; right|]. apply IH.
Qed.

End Facts.

Lemma compareVersions_antisymmetric_witness :
  compareVersions (NB := DecimalNumber.builtin) (Some "4.0.0") (Some "3.9.12")
  = (- compareVersions (NB := DecimalNumber.builtin) (Some "3.9.12") (Some "4.0.0"))%Z.
Proof.
  apply (compareVersions_antisymmetric (NB := DecimalNumber.builtin)
           (Some "3.9.12") (Some "4.0.0")); reflexivity.
Defined.

End MigrationVersions.

(** ** Migration: the order [compareVersions] computes *)
Module MigrationOrder.
Import Migration Aux MigrationVersions.

Lemma level_spec (x y : JsNumber.t) :
  level x y = true <-> JsNumber.ltb x y = false /\ JsNumber.ltb y x = false.
Proof.
  unfold level. rewrite andb_true_iff, !negb_true_iff. done.
Qed.

Section Facts.
Context {NB : NumberBuiltin}.
Implicit Types (a b : option string) (aParts bParts : list JsNumber.t).

(** The loop from index [k], when the parts from [k + remaining] on are
    level. *)
Lemma compareFrom_spec aParts bParts (k remaining : nat) :
  (forall i, k + remaining <= i ->
             level (orZero (aParts !! i)) (orZero (bParts !! i)) = true) ->
  (compareFrom aParts bParts k remaining = (-1)%Z
   <-> exists i, k <= i
         /\ JsNumber.ltb (orZero (aParts !! i)) (orZero (bParts !! i)) = true
         /\ forall j, k <= j -> j < i ->
              level (orZero (aParts !! j)) (orZero (bParts !! j)) = true)
  /\ (compareFrom aParts bParts k remaining = 1%Z
      <-> exists i, k <= i
            /\ JsNumber.ltb (orZero (bParts !! i)) (orZero (aParts !! i)) = true
            /\ forall j, k <= j -> j < i ->
                 level (orZero (aParts !! j)) (orZero (bParts !! j)) = true)
  /\ (compareFrom aParts bParts k remaining = 0%Z
      <-> forall i, k <= i ->
            level (orZero (aParts !! i)) (orZero (bParts !! i)) = true).
Proof.
  revert k. induction remaining as [|n IH]; intros k Hrest.
  - simpl. split_and!.
    + split; [done|]. intros (i & Hi & Hlt & _).
      specialize (Hrest i ltac:(lia)). apply level_spec in Hrest as [? ?].
      congruence.
    + split; [done|]. intros (i & Hi & Hlt & _).
      specialize (Hrest i ltac:(lia)). apply level_spec in Hrest as [? ?].
      congruence.
    + split; [|done]. intros _ i Hi. apply Hrest. lia.
  - simpl.
    destruct (IH (k + 1)) as (IH1 & IH2 & IH3).
    { intros i Hi. apply Hrest. lia. }
    destruct (JsNumber.ltb (orZero (aParts !! k)) (orZero (bParts !! k))) eqn:E1;
      [|destruct (JsNumber.ltb (orZero (bParts !! k)) (orZero (aParts !! k))) eqn:E2].
    + pose proof (ltb_asym _ _ E1) as E2. split_and!.
      * split; [|done]. intros _. exists k. split_and!; [lia|done|lia].
      * split; [done|]. intros (i & Hi & Hlt & Hbefore).
        destruct (decide (i = k)) as [->|Hne]; [congruence|].
        specialize (Hbefore k ltac:(lia) ltac:(lia)).
        apply level_spec in Hbefore as [? ?]. congruence.
      * split; [done|]. intros H. specialize (H k ltac:(lia)).
        apply level_spec in H as [? ?]. congruence.
    + split_and!.
      * split; [done|]. intros (i & Hi & Hlt & Hbefore).
        destruct (decide (i = k)) as [->|Hne]; [congruence|].
        specialize (Hbefore k ltac:(lia) ltac:(lia)).
        apply level_spec in Hbefore as [? ?]. congruence.
      * split; [|done]. intros _. exists k. split_and!; [lia|done|lia].
      * split; [done|]. intros H. specialize (H k ltac:(lia)).
        apply level_spec in H as [? ?]. congruence.
    + assert (level (orZero (aParts !! k)) (orZero (bParts !! k)) = true) as Hk.
      { by apply level_spec. }
      split_and!.
      * rewrite IH1. split.
        -- intros (i & Hi & Hlt & Hbefore). exists i. split_and!; [lia|done|].
           intros j Hj1 Hj2. destruct (decide (j = k)) as [->|Hne]; [done|].
           apply Hbefore; lia.
        -- intros (i & Hi & Hlt & Hbefore).
           destruct (decide (i = k)) as [->|Hne]; [congruence|].
           exists i. split_and!; [lia|done|]. intros j Hj1 Hj2. apply Hbefore; lia.
      * rewrite IH2. split.
        -- intros (i & Hi & Hlt & Hbefore). exists i. split_and!; [lia|done|].
           intros j Hj1 Hj2. destruct (decide (j = k)) as [->|Hne]; [done|].
           apply Hbefore; lia.
        -- intros (i & Hi & Hlt & Hbefore).
           destruct (decide (i = k)) as [->|Hne]; [congruence|].
           exists i. split_and!; [lia|done|]. intros j Hj1 Hj2. apply Hbefore; lia.
      * rewrite IH3. split.
        -- intros H i Hi. destruct (decide (i = k)) as [->|Hne]; [done|].
           apply H. lia.
        -- intros H i Hi. apply H. lia.
Qed.

(** X19. [compareVersions] is the lexicographic order of the numeric parts:
    on two versions that are not empty it returns [-1] when at the first
    index where the parts differ the part of [a] is the smaller, [1] when
    it is the larger, and [0] when the parts are level at every index.  A
    part that is missing, or that converts to [NaN] or to zero, counts as
    [0], so [4.0] and [4.0.0] compare equal. *)
Theorem compareVersions_lexicographic a b :
  truthy a = true -> truthy b = true ->
  (compareVersions a b = (-1)%Z
   <-> exists i, JsNumber.ltb (part a i) (part b i) = true
         /\ forall j, j < i -> level (part a j) (part b j) = true)
  /\ (compareVersions a b = 1%Z
      <-> exists i, JsNumber.ltb (part b i) (part a i) = true
            /\ forall j, j < i -> level (part a j) (part b j) = true)
  /\ (compareVersions a b = 0%Z
      <-> forall i, level (part a i) (part b i) = true).
Proof.
  intros Ha Hb. unfold compareVersions, part. rewrite Ha, Hb. simpl.
  set (aParts := Number <$> split "." (default "" a)).
  set (bParts := Number <$> split "." (default "" b)).
  destruct (compareFrom_spec aParts bParts 0 (length aParts `max` length bParts))
    as (H1 & H2 & H3).
  { intros i Hi. simpl in Hi.
    rewrite (lookup_ge_None_2 aParts i), (lookup_ge_None_2 bParts i) by lia.
    done. }
  rewrite H1, H2, H3. split_and!.
  - split.
    + intros (i & _ & Hlt & Hbefore). exists i. split; [done|].
      intros j Hj. apply Hbefore; lia.
    + intros (i & Hlt & Hbefore). exists i. split_and!; [lia|done|].
      intros j _ Hj. by apply Hbefore.
  - split.
    + intros (i & _ & Hlt & Hbefore). exists i. split; [done|].
      intros j Hj. apply Hbefore; lia.
    + intros (i & Hlt & Hbefore). exists i. split_and!; [lia|done|].
      intros j _ Hj. by apply Hbefore.
  - split.
    + intros H i. apply H. lia.
    + intros H i _. apply H.
Qed.

End Facts.

Lemma compareVersions_lexicographic_witness :
  compareVersions (NB := DecimalNumber.builtin) (Some "4.0") (Some "4.0.0") = 0%Z
  <-> forall i, level (part (NB := DecimalNumber.builtin) (Some "4.0") i)
                  (part (NB := DecimalNumber.builtin) (Some "4.0.0") i) = true.
Proof.
  apply (compareVersions_lexicographic (NB := DecimalNumber.builtin)
           (Some "4.0") (Some "4.0.0")); reflexivity.
Defined.

End MigrationOrder.

(** ** Migration: what a run does *)
Module MigrationRun.
Import Migration Aux.

Lemma storageCall_returns {A} (f : World -> A * World) (w : World) :
  calls w = [] -> storageCall f w = (Some (f w).1, (f w).2).
Proof.
  intros H. unfold storageCall. rewrite H. simpl.
  assert (withCalls w [] = w) as ->. { destruct w. simpl in *. by subst. }
  by destruct (f w).
Qed.

Lemma storageCall_stores {A} (f : World -> A * World) (w : World) :
  (forall w0, sameStores w0 (f w0).2) -> sameStores w (storageCall f w).2.
Proof.
  intros Hf. unfold storageCall. destruct (hd true (calls w)).
  - specialize (Hf (withCalls w (tl (calls w)))).
    destruct (f (withCalls w (tl (calls w)))) as [a w2]. simpl in *. done.
  - by split_and!.
Qed.

Lemma sameStores_trans (w1 w2 w3 : World) :
  sameStores w1 w2 -> sameStores w2 w3 -> sameStores w1 w3.
Proof.
  intros (A1 & A2 & A3 & A4) (B1 & B2 & B3 & B4). unfold sameStores.
  split_and!; congruence.
Qed.

Lemma migrateSite_returns (o : gmap string Settings.Override)
    (entry : string * SiteValue) (w : World) :
  calls w = [] ->
  migrateSite o entry w = (Some (overridesOf (disabledSites (local w)) [entry] o), w).
Proof.
  intros H. unfold migrateSite, overridesOf. simpl.
  destruct entry.2 as [domain|]; [|done].
  unfold bind, localGet. rewrite storageCall_returns by done. simpl.
  rewrite storageCall_returns by done. simpl.
  destruct (disabledSites (local w)) as [names|]; [|done].
  by case_bool_decide.
Qed.

Lemma migrateSites_returns (o : gmap string Settings.Override)
    (entries : Sites) (w : World) :
  calls w = [] ->
  migrateSites o entries w = (Some (overridesOf (disabledSites (local w)) entries o), w).
Proof.
  intros H. revert o. induction entries as [|entry rest IH]; intros o; [done|].
  simpl. unfold bind. rewrite migrateSite_returns by done. apply IH.
Qed.

Lemma migrateSite_stores (o : gmap string Settings.Override)
    (entry : string * SiteValue) (w : World) :
  sameStores w (migrateSite o entry w).2.
Proof.
  unfold migrateSite. destruct entry.2 as [domain|]; [|by split_and!].
  unfold bind, localGet, storageCall.
  destruct (hd true (calls w)); simpl; [|by split_and!].
  destruct (hd true (tl (calls w))); simpl; [|by split_and!].
  destruct (disabledSites (local w)) as [names|]; [|by split_and!].
  case_bool_decide; by split_and!.
Qed.

Lemma migrateSites_stores (o : gmap string Settings.Override)
    (entries : Sites) (w : World) :
  sameStores w (migrateSites o entries w).2.
Proof.
  revert o w. induction entries as [|entry rest IH]; intros o w; [by split_and!|].
  simpl. unfold bind.
  pose proof (migrateSite_stores o entry w) as H.
  destruct (migrateSite o entry w) as [[o'|] w1]; simpl in *; [|done].
  eapply sameStores_trans; [exact H|apply IH].
Qed.

Lemma disabledDomain_snoc (names : list string) (rest : Sites)
    (entry : string * SiteValue) (d : string) :
  disabledDomain names (rest ++ [entry]) d
  <-> disabledDomain names rest d
      \/ (d <> "__proto__" /\ entry.2 = Domain d /\ entry.1 ∈ names).
Proof.
  unfold disabledDomain. split.
  - intros (Hd & s & Hin & Hs).
    apply elem_of_app in Hin as [Hin|Hin%list_elem_of_singleton].
    + left. split; [done|]. by exists s.
    + right. subst entry. done.
  - intros [(Hd & s & Hin & Hs)|(Hd & He & Hs)].
    + split; [done|]. exists s. split; [|done]. apply elem_of_app. by left.
    + split; [done|]. exists entry.1. split; [|done].
      apply elem_of_app. right. destruct entry as [s v]. simpl in *. subst v.
      apply list_elem_of_here.
Qed.

Lemma overridesOf_lookup (names : list string) (entries : Sites)
    (start : gmap string Settings.Override) (d : string) :
  (overridesOf (Some names) entries start !! d
   = Some {| Settings.disabled := Some true; Settings.redirect := None |}
   /\ disabledDomain names entries d)
  \/ (overridesOf (Some names) entries start !! d = start !! d
      /\ ~ disabledDomain names entries d).
Proof.
  induction entries as [|[siteName v] rest IH] using rev_ind.
  { right. split; [done|]. intros (_ & s & Hin & _). by apply elem_of_nil in Hin. }
  unfold overridesOf in *. rewrite foldl_app. simpl.
  set (before := foldl _ start rest) in *.
  rewrite disabledDomain_snoc. simpl.
  destruct v as [domain|]; [|destruct IH as [[? ?]|[? ?]]; [left|right]; naive_solver].
  case_bool_decide as Hname;
    [|destruct IH as [[? ?]|[? ?]]; [left|right]; naive_solver].
  unfold disable. destruct (String.eqb_spec domain "__proto__") as [->|Hp].
  { destruct IH as [[? ?]|[? ?]]; [left|right]; naive_solver. }
  destruct (decide (d = domain)) as [->|Hne].
  - left. rewrite lookup_insert_eq. naive_solver.
  - rewrite lookup_insert_ne by done.
    destruct IH as [[? ?]|[? ?]]; [left|right]; naive_solver.
Qed.

Section Facts.
Context {NB : NumberBuiltin}.

Lemma checkAndMigrate_returns (w : World) :
  calls w = [] -> migrationNeeded w = true ->
  checkAndMigrate w = (Some tt, migrated w).
Proof.
  destruct w as [s l n lo cs ck]. simpl. intros -> Hneeded.
  unfold migrationNeeded in Hneeded. simpl in Hneeded.
  unfold checkAndMigrate, tryCatch, bind, localGet, storageCall. simpl.
  rewrite Hneeded.
  unfold runMigration, tryCatch, bind, backupSettings, tryCatch, bind, syncGet,
    localSet, storageCall, dateNow. simpl.
  unfold migrateSettings, bind, syncGet, storageCall. simpl.
  unfold migrated. simpl.
  destruct (sites s) as [entries|] eqn:Es; simpl.
  - rewrite migrateSites_returns by done. simpl. by rewrite Es.
  - by rewrite Es.
Qed.

Lemma checkAndMigrate_current (w : World) :
  bpc_migration_status (local w) = Some CURRENT_VERSION ->
  sameStores w (checkAndMigrate w).2.
Proof.
  intros Hstatus.
  unfold checkAndMigrate, tryCatch, bind, localGet, storageCall.
  destruct (hd true (calls w)); simpl; [|by split_and!].
  rewrite Hstatus. simpl.
  assert (compareVersions (Some CURRENT_VERSION) (Some CURRENT_VERSION) = 0%Z) as ->.
  { by apply (MigrationVersions.compareVersions_same (Some CURRENT_VERSION)). }
  simpl. by split_and!.
Qed.

Lemma checkAndMigrate_not_needed (w : World) :
  migrationNeeded w = false -> sameStores w (checkAndMigrate w).2.
Proof.
  intros Hneeded. unfold migrationNeeded in Hneeded.
  unfold checkAndMigrate, tryCatch, bind, localGet, storageCall.
  destruct (hd true (calls w)); simpl; [|by split_and!].
  rewrite Hneeded. simpl. by split_and!.
Qed.

(** X20. A migration in which no storage call throws, started because the
    stored version is missing or older than [4.0.0]: the old [sites] are
    backed up and left as they are, the version is marked, and the settings
    saved are the migration's own, whatever [userSettings] held before:
    all features on, the region detected from the locale, and an override
    [{ disabled: true }] for exactly the domains of the old sites whose name
    is in [disabledSites]. *)
Theorem checkAndMigrate_migrates (w : World) :
  calls w = [] -> migrationNeeded w = true ->
  (checkAndMigrate w).1 = Some tt
  /\ bpc_migration_status (local (checkAndMigrate w).2) = Some CURRENT_VERSION
  /\ settings_backup_v3 (local (checkAndMigrate w).2) = Some (sites (sync w))
  /\ sites (sync (checkAndMigrate w).2) = sites (sync w)
  /\ exists settings,
       userSettings (sync (checkAndMigrate w).2) = Some settings
       /\ Settings.features settings
          = Settings.features (newSettings (detectRegion (locale w)))
       /\ Settings.performance settings
          = Settings.performance (newSettings (detectRegion (locale w)))
       /\ Settings.preferredRegion settings = detectRegion (locale w)
       /\ forall d x,
            Settings.siteOverrides settings !! d = Some x
            <-> x = {| Settings.disabled := Some true; Settings.redirect := None |}
                /\ exists names entries,
                     sites (sync w) = Some entries
                     /\ disabledSites (local w) = Some names
                     /\ disabledDomain names entries d.
Proof.
  intros Hcalls Hneeded. rewrite checkAndMigrate_returns by done.
  unfold migrated. simpl. split_and!; [done..|].
  eexists. split_and!; [done..|]. intros d x. simpl.
  destruct (disabledSites (local w)) as [names|] eqn:En.
  - destruct (sites (sync w)) as [entries|] eqn:Es; simpl.
    + destruct (overridesOf_lookup names entries ∅ d) as [[-> Hd]|[-> Hd]].
      * split; [intros [= <-]|intros [-> _]; done].
        split; [done|]. by exists names, entries.
      * rewrite lookup_empty. split; [done|].
        intros (_ & names' & entries' & [= <-] & [= <-] & Hd'). done.
    + unfold overridesOf. simpl. rewrite lookup_empty. split; [done|].
      by intros (_ & names' & entries' & [=] & _).
  - assert (overridesOf None (default [] (sites (sync w))) ∅ = ∅) as ->.
    { unfold overridesOf. generalize (default [] (sites (sync w))). intros l.
      induction l as [|e l IH]; simpl; [done|]. by destruct e.2. }
    rewrite lookup_empty. split; [done|].
    by intros (_ & names' & entries' & _ & [=] & _).
Qed.

(** X21. A migration is run once: when no storage call throws, a second
    [checkAndMigrate] finds the version marked and changes neither of the
    two storage areas and shows no notification. *)
Theorem checkAndMigrate_once (w : World) :
  calls w = [] ->
  sync (checkAndMigrate (checkAndMigrate w).2).2 = sync (checkAndMigrate w).2
  /\ local (checkAndMigrate (checkAndMigrate w).2).2 = local (checkAndMigrate w).2
  /\ notifications (checkAndMigrate (checkAndMigrate w).2).2
     = notifications (checkAndMigrate w).2.
Proof.
  intros Hcalls. destruct (migrationNeeded w) eqn:Hneeded.
  - rewrite (checkAndMigrate_returns w) by done. cbn [snd].
    by destruct (checkAndMigrate_current (migrated w) eq_refl) as (? & ? & ? & _).
  - assert (checkAndMigrate w = (Some tt, w)) as ->.
    { unfold migrationNeeded in Hneeded.
      unfold checkAndMigrate, tryCatch, bind, localGet.
      rewrite storageCall_returns by done. simpl. by rewrite Hneeded. }
    cbn [snd].
    by destruct (checkAndMigrate_not_needed w Hneeded) as (? & ? & ? & _).
Qed.

End Facts.

Lemma checkAndMigrate_migrates_witness :
  bpc_migration_status
    (local (checkAndMigrate (NB := DecimalNumber.builtin) upgrading).2)
  = Some CURRENT_VERSION.
Proof.
  apply (checkAndMigrate_migrates (NB := DecimalNumber.builtin) upgrading);
    reflexivity.
Defined.

Lemma checkAndMigrate_once_witness :
  sync (checkAndMigrate (NB := DecimalNumber.builtin)
          (checkAndMigrate (NB := DecimalNumber.builtin) upgrading).2).2
  = sync (checkAndMigrate (NB := DecimalNumber.builtin) upgrading).2.
Proof.
  apply (checkAndMigrate_once (NB := DecimalNumber.builtin) upgrading).
  reflexivity.
Defined.

End MigrationRun.

(** ** Migration: when storage calls throw *)
Module MigrationFailures.
Import Migration Aux MigrationRun.

Section Facts.
Context {NB : NumberBuiltin}.

(** [backupSettings] returns, and writes nothing but the backup. *)
Lemma backupSettings_frame (w : World) :
  (backupSettings w).1 = Some tt
  /\ sync (backupSettings w).2 = sync w
  /\ bpc_migration_status (local (backupSettings w).2) = bpc_migration_status (local w)
  /\ disabledSites (local (backupSettings w).2) = disabledSites (local w)
  /\ locale (backupSettings w).2 = locale w.
Proof.
  unfold backupSettings, tryCatch, bind, syncGet, localSet, storageCall, dateNow.
  destruct (hd true (calls w)); simpl; [|done].
  destruct (hd true (tl (calls w))); simpl; done.
Qed.

(** [migrateSettings] writes nothing but [userSettings], and that only at
    its end. *)
Lemma migrateSettings_frame (v : option string) (w : World) :
  sites (sync (migrateSettings v w).2) = sites (sync w)
  /\ local (migrateSettings v w).2 = local w
  /\ locale (migrateSettings v w).2 = locale w
  /\ ((migrateSettings v w).1 = Some tt ->
      exists overrides,
        userSettings (sync (migrateSettings v w).2)
        = Some (withOverrides (newSettings (detectRegion (locale w))) overrides)).
Proof.
  unfold migrateSettings, bind, syncGet, syncSet, storageCall.
  destruct (hd true (calls w)); simpl; [|done].
  set (w1 := withCalls w (tl (calls w))).
  assert (sameStores w1
            (match sites (sync w) with
             | Some entries => migrateSites ∅ entries
             | None => ret ∅
             end w1).2) as Hs.
  { destruct (sites (sync w)); [apply migrateSites_stores|by split_and!]. }
  destruct (match sites (sync w) with
            | Some entries => migrateSites ∅ entries
            | None => ret ∅
            end w1) as [[overrides|] w2]; simpl in *.
  - destruct Hs as (S1 & S2 & S3 & S4).
    destruct (hd true (calls w2)); simpl.
    + rewrite S1, S2. split_and!; [done..|]. intros _. by exists overrides.
    + rewrite S1, S2. done.
  - destruct Hs as (S1 & S2 & S3 & S4). rewrite S1, S2. done.
Qed.

(** X22. The version is marked last: whichever storage calls throw,
    [checkAndMigrate] itself never throws, leaves the old [sites] and
    [disabledSites] as they are, and either leaves the stored version as it
    was, so that the next start tries again, or has marked [4.0.0] after the
    migrated settings were saved. *)
Theorem checkAndMigrate_marks_last (w : World) :
  (checkAndMigrate w).1 = Some tt
  /\ sites (sync (checkAndMigrate w).2) = sites (sync w)
  /\ disabledSites (local (checkAndMigrate w).2) = disabledSites (local w)
  /\ (bpc_migration_status (local (checkAndMigrate w).2)
      = bpc_migration_status (local w)
      \/ (bpc_migration_status (local (checkAndMigrate w).2) = Some CURRENT_VERSION
          /\ exists overrides,
               userSettings (sync (checkAndMigrate w).2)
               = Some (withOverrides (newSettings (detectRegion (locale w)))
                         overrides))).
Proof.
  unfold checkAndMigrate, tryCatch, bind, localGet, storageCall.
  destruct (hd true (calls w)); simpl; [|split_and!; [done..|by left]].
  destruct (negb (truthy (bpc_migration_status (local w)))
            || (compareVersions (bpc_migration_status (local w))
                  (Some CURRENT_VERSION) <? 0)%Z);
    simpl; [|split_and!; [done..|by left]].
  set (w1 := withCalls w (tl (calls w))).
  unfold runMigration, tryCatch, bind.
  destruct (backupSettings_frame w1) as (B1 & B2 & B3 & B4 & B5).
  destruct (backupSettings w1) as [r2 w2]. simpl in *. subst r2.
  destruct (migrateSettings_frame (bpc_migration_status (local w)) w2)
    as (M1 & M2 & M3 & M4).
  destruct (migrateSettings (bpc_migration_status (local w)) w2) as [[[]|] w3];
    simpl in *.
  - destruct (M4 eq_refl) as [overrides Ho].
    unfold localSet, storageCall, dateNow, showNotification. simpl.
    destruct (hd true (calls w3)); simpl.
    + split_and!; [done|congruence|congruence|]. right. split; [done|].
      exists overrides. rewrite Ho. by rewrite B5.
    + split_and!; [done|congruence|congruence|]. left. congruence.
  - unfold showNotification, throw. simpl.
    split_and!; [done|congruence|congruence|]. left. congruence.
Qed.

(** X23. A rollback after a migration in which no storage call threw reports
    success, and leaves both storage areas as the migration left them:
    the old [sites] were never changed, and the new [userSettings] and the
    stored version stay. *)
Theorem rollback_after_migration (w : World) :
  calls w = [] -> migrationNeeded w = true ->
  (rollback (checkAndMigrate w).2).1 = Some true
  /\ sync (rollback (checkAndMigrate w).2).2 = sync (checkAndMigrate w).2
  /\ local (rollback (checkAndMigrate w).2).2 = local (checkAndMigrate w).2.
Proof.
  intros Hcalls Hneeded. rewrite (checkAndMigrate_returns w) by done. cbn [snd].
  unfold rollback, tryCatch, bind, localGet, syncSet, showNotification.
  rewrite storageCall_returns by done. simpl.
  rewrite ?storageCall_returns by done. simpl.
  split_and!; [done| |done].
  by destruct (sites (sync w)).
Qed.

End Facts.

Lemma rollback_after_migration_witness :
  (rollback (checkAndMigrate (NB := DecimalNumber.builtin) upgrading).2).1
  = Some true.
Proof.
  apply (rollback_after_migration (NB := DecimalNumber.builtin) upgrading);
    reflexivity.
Defined.

End MigrationFailures.

(** ** Region detection *)
Module RegionDetection.
Import Aux.

Lemma split_freeOf (sep : ascii) (s : string) :
  freeOf sep s = true -> split sep s = [s].
Proof.
  induction s as [|c s IH]; simpl; [done|].
  intros [Hc Hs]%andb_prop. apply negb_true_iff in Hc.
  rewrite Hc. by rewrite (IH Hs).
Qed.

Lemma split_first (sep : ascii) (s rest : string) :
  freeOf sep s = true ->
  split sep (s +:+ String sep rest) = s :: split sep rest.
Proof.
  induction s as [|c s IH]; simpl.
  - intros _. by rewrite Ascii.eqb_refl.
  - intros [Hc Hs]%andb_prop. apply negb_true_iff in Hc.
    rewrite Hc. by rewrite (IH Hs).
Qed.

(** X24. A locale without a hyphen, such as [de] or [fr], has no region
    subtag and is detected as [global], whatever its language. *)
Theorem detectRegion_without_region (locale : string) :
  freeOf "-" locale = true ->
  detectRegion (Some locale) = RegionName "global".
Proof.
  intros H. unfold detectRegion. by rewrite (split_freeOf _ _ H).
Qed.

(** X25. Only what follows the first hyphen decides: two locales that
    differ in their language subtag alone are detected as the same
    region. *)
Theorem detectRegion_ignores_language (lang1 lang2 rest : string) :
  freeOf "-" lang1 = true -> freeOf "-" lang2 = true ->
  detectRegion (Some (lang1 +:+ String "-" rest))
  = detectRegion (Some (lang2 +:+ String "-" rest)).
Proof.
  intros H1 H2. unfold detectRegion.
  by rewrite (split_first _ _ _ H1), (split_first _ _ _ H2).
Qed.

Lemma detectRegion_without_region_witness :
  detectRegion (Some "de") = RegionName "global".
Proof.
  apply (detectRegion_without_region "de"). reflexivity.
Defined.

Lemma detectRegion_ignores_language_witness :
  detectRegion (Some "en-IN") = detectRegion (Some "hi-IN").
Proof.
  apply (detectRegion_ignores_language "en" "hi" "IN"); reflexivity.
Defined.

End RegionDetection.
